(** * kreuzberg-batch: the batch orchestration engine

    A shallow embedding of the TypeScript sources under [src/scripts]
    (config.ts with the hash ledger, fetcher.ts, processor.ts, watcher.ts,
    main.ts) and the properties of the ledger, the retry loop, the batch
    scheduler and the layered URL resolver.

    Conventions of the embedding.
    - JavaScript numbers that the program only ever uses as integers
      (retry counts, indices, milliseconds) are [Z].
    - Strings are [string]; the whitespace class of [trim] and of the
      regular expression [\s] is the ASCII one.
    - [async] functions are computations of the monad [M] below; an
      [await] is a bind.  The callbacks handed to [Promise.all] are run to
      completion one after the other in array order, which is one of the
      schedules of the event loop.
    - A thrown value is represented by its message.
    - Console logging is not part of the model. *)

From Stdlib Require Import ZArith List String Ascii Bool Lia.
From stdpp Require Import base tactics option list gmap strings pretty.

Local Open Scope string_scope.
Local Open Scope list_scope.
Local Open Scope Z_scope.

(** ** JavaScript string primitives used by the sources *)

Module JS.

(** [\s] and [String.prototype.trim], restricted to ASCII. *)
Definition is_ws (c : ascii) : bool :=
  let n := nat_of_ascii c in
  (n =? 32)%nat || ((9 <=? n)%nat && (n <=? 13)%nat).

Fixpoint trimStart (s : string) : string :=
  match s with
  | EmptyString => EmptyString
  | String c r => if is_ws c then trimStart r else s
  end.

Fixpoint trimEnd (s : string) : string :=
  match s with
  | EmptyString => EmptyString
  | String c r =>
      match trimEnd r with
      | EmptyString => if is_ws c then EmptyString else String c EmptyString
      | r' => String c r'
      end
  end.

Definition trim (s : string) : string := trimEnd (trimStart s).

(** Truthiness of a string value: only the empty string is falsy. *)
Definition truthy (s : string) : bool :=
  match s with EmptyString => false | _ => true end.

(** [a || b] on an optional string ([undefined] is falsy too). *)
Definition or_else (a : option string) (b : string) : string :=
  match a with
  | Some s => if truthy s then s else b
  | None => b
  end.

Definition startsWith (s p : string) : bool := String.prefix p s.

Fixpoint endsWith (s suffix : string) : bool :=
  String.eqb s suffix
  || match s with
     | EmptyString => false
     | String _ r => endsWith r suffix
     end.

Fixpoint includes (s needle : string) : bool :=
  String.prefix needle s
  || match s with
     | EmptyString => false
     | String _ r => includes r needle
     end.

(** [s.split(sep)] for a one-character separator. *)
Fixpoint split (sep : ascii) (s : string) : list string :=
  match s with
  | EmptyString => [EmptyString]
  | String c r =>
      if Ascii.eqb c sep then EmptyString :: split sep r
      else match split sep r with
           | x :: xs => String c x :: xs
           | [] => [String c EmptyString]
           end
  end.

(** [s.split(/\s+/)]: [in_sep] tells that the previous character
    belonged to a separator run. *)
Fixpoint split_ws_go (in_sep : bool) (s : string) : list string :=
  match s with
  | EmptyString => [EmptyString]
  | String c r =>
      if is_ws c then
        if in_sep then split_ws_go true r
        else EmptyString :: split_ws_go true r
      else match split_ws_go false r with
           | x :: xs => String c x :: xs
           | [] => [String c EmptyString]
           end
  end.

Definition split_ws (s : string) : list string := split_ws_go false s.

Definition toLowerCase_ascii (c : ascii) : ascii :=
  let n := nat_of_ascii c in
  if (65 <=? n)%nat && (n <=? 90)%nat then ascii_of_nat (n + 32) else c.

Fixpoint toLowerCase (s : string) : string :=
  match s with
  | EmptyString => EmptyString
  | String c r => String (toLowerCase_ascii c) (toLowerCase r)
  end.

(** [s.replace(/[...]/g, by)] for a character class given as a test. *)
Fixpoint replace_class (cls : ascii -> bool) (by_ : string) (s : string)
  : string :=
  match s with
  | EmptyString => EmptyString
  | String c r =>
      if cls c then by_ +:+ replace_class cls by_ r
      else String c (replace_class cls by_ r)
  end.

(** [s.replace(c, by)] with a one-character string pattern: the first
    occurrence only. *)
Fixpoint replace_first (pat : ascii) (by_ : string) (s : string) : string :=
  match s with
  | EmptyString => EmptyString
  | String c r =>
      if Ascii.eqb c pat then by_ +:+ r
      else String c (replace_first pat by_ r)
  end.

(** [s.substring(0, n)]. *)
Fixpoint take (n : nat) (s : string) : string :=
  match n, s with
  | S n', String c r => String c (take n' r)
  | _, _ => EmptyString
  end.

(** [s.replace(/^\//, "")] and [s.replace(/\/$/, "")]. *)
Definition strip_leading (c : ascii) (s : string) : string :=
  match s with
  | String c' r => if Ascii.eqb c' c then r else s
  | EmptyString => EmptyString
  end.

Fixpoint strip_trailing (c : ascii) (s : string) : string :=
  match s with
  | EmptyString => EmptyString
  | String c' EmptyString =>
      if Ascii.eqb c' c then EmptyString else s
  | String c' r => String c' (strip_trailing c r)
  end.

Definition is_alnum (c : ascii) : bool :=
  let n := nat_of_ascii c in
  ((48 <=? n)%nat && (n <=? 57)%nat)
  || ((65 <=? n)%nat && (n <=? 90)%nat)
  || ((97 <=? n)%nat && (n <=? 122)%nat).

(** [Array.prototype.slice(start, end)] with the relative-index rules
    of the language: a negative index counts from the end, and both
    are clamped to the array. *)
Definition slice_index (len i : Z) : Z :=
  if i <? 0 then Z.max (len + i) 0 else Z.min i len.

Definition slice {A} (l : list A) (start end_ : Z) : list A :=
  let len := Z.of_nat (length l) in
  let k := slice_index len start in
  let final := slice_index len end_ in
  firstn (Z.to_nat (final - k)) (skipn (Z.to_nat k) l).

End JS.

(** ** Values of [JSON.parse] *)

#[warnings="-register-all"]
Inductive json : Type :=
| JNull
| JBool (b : bool)
| JNum (n : Z)
| JStr (s : string)
| JArr (items : list json)
| JObj (fields : list (string * json)).

(** Property read [o.k] on a parsed value: [None] is [undefined].
    Reading a property of [null] throws; the caller tests for it. *)
Fixpoint assoc {A} (k : string) (kvs : list (string * A)) : option A :=
  match kvs with
  | [] => None
  | (k', v) :: rest => if String.eqb k k' then Some v else assoc k rest
  end.

Definition json_get (k : string) (j : json) : option json :=
  match j with
  | JObj kvs => assoc k kvs
  | _ => None
  end.

(** ** types.ts *)

Record Config : Type := mkConfig {
  watchInterval : Z;
  concurrentJobs : Z;
  recursive : bool;
  outputFormat : string;
  addTimestamp : bool;
  skipExisting : bool;
  preserveStructure : bool;
  hashFile : string;
  fetchUrls : bool;
  urlFile : string;
  fetchTimeout : Z;
  userAgent : string;
  playwrightEnabled : bool;
  playwrightWait : Z;
  playwrightTimeout : Z;
  browserlessEnabled : bool;
  browserlessUrl : string;
  browserlessToken : string;
  maxRetries : Z;
  retryDelay : Z;
  kreuzbergConfig : string;
  ocrEnabled : bool;
  ocrLanguage : string;
  qualityProcessing : bool;
  inputDir : string;
  outputDir : string;
  errorDir : string;
  logLevel : string;
  verbose : bool
}.

Record ProcessedFileEntry : Type := mkEntry {
  hash : string;
  outputPath : string;
  processedAt : string;
  retries : Z
}.

Record ProcessedState : Type := mkState {
  version : string;
  lastUpdated : string;
  files : gmap string ProcessedFileEntry
}.

Inductive FetchMethod : Type := fetch | playwright | browserless.

Record FetchResult : Type := mkFetchResult {
  fr_url : string;
  html : string;
  success : bool;
  method : FetchMethod;
  fr_error : option string
}.

Record UrlEntry : Type := mkUrlEntry {
  url : string;
  filename : option string
}.

Record FileEntry : Type := mkFileEntry {
  path : string;
  relativePath : string;
  isDirectory : bool;
  isUrl : bool
}.

Inductive JobStatus : Type := pending | processing | completed | failed.

Record ProcessingJob : Type := mkJob {
  job_id : string;
  job_entry : FileEntry;
  job_status : JobStatus;
  job_retries : Z;
  job_error : option string;
  startTime : option Z;
  endTime : option Z
}.

(** The result object of [extractDocument]. *)
Record ExtractResult : Type := mkExtractResult {
  ex_success : bool;
  ex_content : option string;
  ex_error : option string
}.

(** What [new URL(s)] exposes to the sources. *)
Record URL : Type := mkURL {
  protocol : string;
  hostname : string;
  pathname : string
}.

(** An item of [readdirSync(dir, { withFileTypes: true })]. *)
Record Dirent : Type := mkDirent {
  name : string;
  isFile : bool;
  dirent_isDirectory : bool
}.

#[global] Instance JobStatus_eq_dec : EqDecision JobStatus.
Proof. solve_decision. Defined.

#[global] Instance FetchMethod_eq_dec : EqDecision FetchMethod.
Proof. solve_decision. Defined.

(** ** The world around the program

    The program talks to the outside through a handful of calls.  Each
    call that acts on the outside is recorded as an [event]; the list of
    the events so far is the history, and the answers of the outside
    (the conversion service, the network, the clock, the input tree) are
    functions of the history. *)

Inductive event : Type :=
| EvSpawn (cmd : list string)            (* Bun.spawn([...]) *)
| EvSleep (ms : Z)                       (* Bun.sleep(ms) *)
| EvFetchGet (target : string)           (* fetch(url), layer 1 *)
| EvBrowserLaunch                        (* chromium.launch, layer 2 *)
| EvBrowserGoto (target : string)        (* page.goto(url), layer 2 *)
| EvBrowserClose                         (* browser.close() *)
| EvFetchPost (endpoint target : string) (* fetch(endpoint, POST), layer 3 *)
| EvWriteFileSync (p content : string)   (* writeFileSync(p, content) *)
| EvBunWrite (p content : string)        (* Bun.write(p, content) *)
| EvCopyFileSync (src dst : string)      (* copyFileSync(src, dst) *)
| EvMkdirSync (p : string)               (* mkdirSync(p, {recursive}) *)
| EvRenameSync (src dst : string).       (* renameSync(src, dst) *)

Inductive SpawnResult : Type :=
| SpawnFailed (msg : string)
| Exited (stdout stderr : string) (exitCode : Z).

Inductive HttpResult : Type :=
| HttpFailed (msg : string)
| HttpResponse (ok : bool) (status : Z) (statusText body : string).

(** The platform: library functions of the runtime (hashing, URL and
    path handling, JSON, the clock's formatting) and the answers of the
    environment.  The input tree belongs to the environment: the program
    lists and reads it but never writes it. *)
Class Platform : Type := {
  md5 : string -> string;
  URL_parse : string -> option URL;
  join : string -> string -> string;
  relative : string -> string -> string;
  dirname : string -> string;
  basename : string -> string -> string;
  extname : string -> string;
  JSON_parse : string -> option json;
  JSON_stringify : ProcessedState -> string;
  toISOString : Z -> string;
  env_FORCE_OCR : option string;
  Date_now : list event -> Z;
  input_file : list event -> string -> option string;
  readdirSync : list event -> string -> option (list Dirent);
  scanInput : list event -> Config -> list FileEntry;
  spawn : list event -> list string -> SpawnResult;
  http_get : list event -> string -> Config -> HttpResult;
  browser_launch : list event -> option string;
  browser_render : list event -> string -> Config -> string + string;
  http_post : list event -> string -> string -> Config -> HttpResult
}.

(** The file system outside the input tree: the output tree, the error
    tree, the URL cache, the ledger file and the configuration file.
    A path is absent, a file or a directory. *)
Inductive node : Type := File (content : string) | Dir.

Record World : Type := mkWorld {
  fs : gmap string node;
  state : ProcessedState;        (* main.ts: let state *)
  isShuttingDown : bool          (* main.ts: let isShuttingDown *)
}.

Definition set_fs (f : gmap string node) (w : World) : World :=
  mkWorld f (state w) (isShuttingDown w).

Definition set_state (s : ProcessedState) (w : World) : World :=
  mkWorld (fs w) s (isShuttingDown w).

(** ** The monad of the program: state, exceptions and emitted events *)

Inductive Res (A : Type) : Type :=
| Val (a : A)
| Throw (msg : string).
Arguments Val {A} a.
Arguments Throw {A} msg.

Record Out (A : Type) : Type := mkOut {
  res : Res A;
  world : World;
  events : list event
}.
Arguments mkOut {A} res world events.
Arguments res {A} o.
Arguments world {A} o.
Arguments events {A} o.

(** A computation receives the history and the world and gives a
    result, the new world and the events it added. *)
Definition M (A : Type) : Type := list event -> World -> Out A.

Definition ret {A} (a : A) : M A := fun _ w => mkOut (Val a) w [].

Definition throw {A} (msg : string) : M A := fun _ w => mkOut (Throw msg) w [].

(** An outcome with events put in front. *)
Definition after {A} (evs : list event) (o : Out A) : Out A :=
  match o with
  | mkOut r w e => mkOut r w (evs ++ e)
  end.

Definition bind {A B} (m : M A) (k : A -> M B) : M B := fun h w =>
  match m h w with
  | mkOut (Val a) w1 e1 => after e1 (k a (h ++ e1) w1)
  | mkOut (Throw msg) w1 e1 => mkOut (Throw msg) w1 e1
  end.

(** [try { m } catch (e) { handler e }] *)
Definition try_catch {A} (m : M A) (handler : string -> M A) : M A := fun h w =>
  match m h w with
  | mkOut (Val a) w1 e1 => mkOut (Val a) w1 e1
  | mkOut (Throw msg) w1 e1 => after e1 (handler msg (h ++ e1) w1)
  end.

(** [try { m } finally { fin }] *)
Definition try_finally {A} (m : M A) (fin : M unit) : M A := fun h w =>
  match m h w with
  | mkOut r w1 e1 =>
      match fin (h ++ e1) w1 with
      | mkOut (Val _) w2 e2 => mkOut r w2 (e1 ++ e2)
      | mkOut (Throw msg) w2 e2 => mkOut (Throw msg) w2 (e1 ++ e2)
      end
  end.

Declare Scope prog_scope.
Delimit Scope prog_scope with prog.
Notation "x <- m ;; k" := (bind m (fun x => k))
  (at level 100, m at next level, right associativity) : prog_scope.
Notation "m ;; k" := (bind m (fun _ => k))
  (at level 100, right associativity) : prog_scope.
Local Open Scope prog_scope.

Definition emit (e : event) : M unit := fun _ w => mkOut (Val tt) w [e].

Definition get_history : M (list event) := fun h w => mkOut (Val h) w [].

Definition get_world : M World := fun _ w => mkOut (Val w) w [].

Definition modify_world (f : World -> World) : M unit :=
  fun _ w => mkOut (Val tt) (f w) [].

(** [await Promise.all(ms)]: every computation runs, also after one of
    them has thrown; the first rejection is the one the caller sees. *)
Fixpoint promise_all {A} (ms : list (M A)) : M (list A) := fun h w =>
  match ms with
  | [] => mkOut (Val []) w []
  | m :: rest =>
      match m h w with
      | mkOut r w1 e1 =>
          match promise_all rest (h ++ e1) w1 with
          | mkOut r' w2 e2 =>
              mkOut
                match r, r' with
                | Val a, Val l => Val (a :: l)
                | Throw msg, _ => Throw msg
                | Val _, Throw msg => Throw msg
                end
                w2 (e1 ++ e2)
          end
      end
  end.

(** [for (const x of xs) { body x }] where the body may [break]:
    it returns [true] to leave the loop. *)
Fixpoint for_of {A} (xs : list A) (body : A -> M bool) : M unit :=
  match xs with
  | [] => ret tt
  | x :: rest => stop <- body x ;; if stop : bool then ret tt else for_of rest body
  end.

(** *** System calls *)

Section Syscalls.
Context `{Platform}.

Definition now : M Z := fun h w => mkOut (Val (Date_now h)) w [].

(** [new Date().toISOString()] *)
Definition now_iso : M string := t <- now ;; ret (toISOString t).

Definition Bun_sleep (ms : Z) : M unit := emit (EvSleep ms).

Definition existsSync (p : string) : M bool :=
  w <- get_world ;; ret (bool_decide (is_Some (fs w !! p))).

Definition readFileSync (p : string) : M string :=
  w <- get_world ;;
  match fs w !! p with
  | Some (File c) => ret c
  | Some Dir => throw "EISDIR: illegal operation on a directory, read"
  | None => throw "ENOENT: no such file or directory"
  end.

Definition put_file (p content : string) : M unit :=
  w <- get_world ;;
  match fs w !! p with
  | Some Dir => throw "EISDIR: illegal operation on a directory, open"
  | _ => modify_world (set_fs (<[p := File content]> (fs w)))
  end.

Definition writeFileSync (p content : string) : M unit :=
  emit (EvWriteFileSync p content) ;; put_file p content.

(** [await Bun.write(p, content)] *)
Definition Bun_write (p content : string) : M unit :=
  emit (EvBunWrite p content) ;; put_file p content.

(** [Bun.write(p, content)] whose promise is dropped: a failure is an
    unhandled rejection, which the caller does not see. *)
Definition Bun_write_detached (p content : string) : M unit :=
  try_catch (Bun_write p content) (fun _ => ret tt).

Definition mkdirSync (p : string) : M unit :=
  emit (EvMkdirSync p) ;;
  w <- get_world ;;
  match fs w !! p with
  | Some (File _) => throw "EEXIST: file already exists, mkdir"
  | _ => modify_world (set_fs (<[p := Dir]> (fs w)))
  end.

(** Reading a file of the input tree: [Bun.file(p).exists()] and
    [Bun.file(p).text()] / [arrayBuffer()]. *)
Definition input_exists (p : string) : M bool :=
  h <- get_history ;; ret (bool_decide (is_Some (input_file h p))).

Definition input_text (p : string) : M string :=
  h <- get_history ;;
  match input_file h p with
  | Some c => ret c
  | None => throw "ENOENT: no such file or directory"
  end.

(** [copyFileSync(src, dst)] with [src] in the input tree. *)
Definition copyFileSync (src dst : string) : M unit :=
  emit (EvCopyFileSync src dst) ;;
  c <- input_text src ;;
  put_file dst c.

End Syscalls.

(** ** config.ts *)

Definition validateConfig (config : Config) : list string :=
  (if watchInterval config <? 1
   then ["WATCH_INTERVAL must be at least 1 second"] else [])
  ++ (if concurrentJobs config <? 1
      then ["CONCURRENT_JOBS must be at least 1"] else [])
  ++ (if maxRetries config <? 0
      then ["MAX_RETRIES cannot be negative"] else []).

(** ** The hash ledger (hash.ts) *)

Definition STATE_VERSION : string := "1.0.0".

(** The literal [{ version: STATE_VERSION, lastUpdated: ..., files: {} }]. *)
Definition emptyState (timestamp : string) : ProcessedState :=
  mkState STATE_VERSION timestamp ∅.

(** [JSON.parse(content) as ProcessedState] checks nothing.  A parsed
    value that has the shape of the interface is represented by the
    record; any other value is kept as it was parsed. *)
Inductive LoadedState : Type :=
| Typed (s : ProcessedState)
| Untyped (j : json).

Definition json_string (j : option json) : option string :=
  match j with Some (JStr s) => Some s | _ => None end.

Definition json_number (j : option json) : option Z :=
  match j with Some (JNum n) => Some n | _ => None end.

Definition decodeEntry (j : json) : option ProcessedFileEntry :=
  match json_string (json_get "hash" j), json_string (json_get "outputPath" j),
        json_string (json_get "processedAt" j), json_number (json_get "retries" j)
  with
  | Some h, Some o, Some p, Some r => Some (mkEntry h o p r)
  | _, _, _, _ => None
  end.

Fixpoint decodeFiles (kvs : list (string * json))
  : option (gmap string ProcessedFileEntry) :=
  match kvs with
  | [] => Some ∅
  | (k, j) :: rest =>
      match decodeEntry j, decodeFiles rest with
      | Some e, Some m => Some (<[k := e]> m)
      | _, _ => None
      end
  end.

Definition castState (j : json) : LoadedState :=
  match json_string (json_get "version" j),
        json_string (json_get "lastUpdated" j),
        json_get "files" j
  with
  | Some v, Some u, Some (JObj kvs) =>
      match decodeFiles kvs with
      | Some m => Typed (mkState v u m)
      | None => Untyped j
      end
  | _, _, _ => Untyped j
  end.

(** [state.version !== STATE_VERSION] on a parsed value other than
    [null]. *)
Definition version_mismatch (j : json) : bool :=
  match json_get "version" j with
  | Some (JStr v) => negb (String.eqb v STATE_VERSION)
  | _ => true
  end.

Definition isFileProcessed
  (state : ProcessedState) (inputPath currentHash : string) : bool :=
  match files state !! inputPath with
  | None => false
  | Some entry => String.eqb (hash entry) currentHash
  end.



(** The assignment [state.files[inputPath] = entry]. *)
Definition setEntry (inputPath : string) (entry : ProcessedFileEntry)
  (s : ProcessedState) : ProcessedState :=
  mkState (version s) (lastUpdated s) (<[inputPath := entry]> (files s)).

Definition setLastUpdated (timestamp : string) (s : ProcessedState)
  : ProcessedState :=
  mkState (version s) timestamp (files s).

Section Hash.
Context `{Platform}.

Definition calculateFileHash (filePath : string) : M string :=
  buffer <- input_text filePath ;; ret (md5 buffer).

Definition calculateStringHash (content : string) : string := md5 content.

Definition loadProcessedState (hashFilePath : string) : M LoadedState :=
  ex <- existsSync hashFilePath ;;
  if negb ex then
    t <- now_iso ;; ret (Typed (emptyState t))
  else
    try_catch
      (content <- readFileSync hashFilePath ;;
       match JSON_parse content with
       | None => throw "SyntaxError: JSON Parse error"
       | Some JNull => throw "TypeError: null is not an object"
       | Some parsed =>
           if version_mismatch parsed then
             t <- now_iso ;; ret (Typed (emptyState t))
           else ret (castState parsed)
       end)
      (fun _ => t <- now_iso ;; ret (Typed (emptyState t))).

(** The callers pass the global [state]; the assignment to
    [state.lastUpdated] is made on that object. *)
Definition saveProcessedState (hashFilePath : string) : M unit :=
  try_catch
    (t <- now_iso ;;
     modify_world (fun w => set_state (setLastUpdated t (state w)) w) ;;
     w <- get_world ;;
     let content := JSON_stringify (state w) in
     writeFileSync hashFilePath content)
    (fun _ => ret tt).

(** As for [saveProcessedState], the [state] argument is the global
    ledger object. *)
Definition markFileProcessed
  (inputPath hash outputPath : string) (retries : Z) : M unit :=
  t <- now_iso ;;
  modify_world (fun w =>
    set_state (setEntry inputPath (mkEntry hash outputPath t retries) (state w)) w).


End Hash.

(** ** processor.ts *)

Definition SUPPORTED_EXTENSIONS : list string :=
  [ ".pdf"; ".docx"; ".doc"; ".pptx"; ".ppt"; ".xlsx"; ".xls";
    ".odt"; ".rtf"; ".epub"; ".txt"; ".md"; ".markdown";
    ".html"; ".htm"; ".xml"; ".json"; ".yaml"; ".yml"; ".toml";
    ".png"; ".jpg"; ".jpeg"; ".tiff"; ".tif"; ".bmp"; ".gif"; ".webp";
    ".eml"; ".msg";
    ".zip"; ".tar"; ".gz" ].

Definition nl : string := String (ascii_of_nat 10) EmptyString.

(** Updates of a job object. *)
Definition set_status (s : JobStatus) (j : ProcessingJob) : ProcessingJob :=
  mkJob (job_id j) (job_entry j) s (job_retries j) (job_error j)
        (startTime j) (endTime j).
Definition set_retries (r : Z) (j : ProcessingJob) : ProcessingJob :=
  mkJob (job_id j) (job_entry j) (job_status j) r (job_error j)
        (startTime j) (endTime j).
Definition set_error (e : string) (j : ProcessingJob) : ProcessingJob :=
  mkJob (job_id j) (job_entry j) (job_status j) (job_retries j) (Some e)
        (startTime j) (endTime j).
Definition set_startTime (t : Z) (j : ProcessingJob) : ProcessingJob :=
  mkJob (job_id j) (job_entry j) (job_status j) (job_retries j) (job_error j)
        (Some t) (endTime j).
Definition set_endTime (t : Z) (j : ProcessingJob) : ProcessingJob :=
  mkJob (job_id j) (job_entry j) (job_status j) (job_retries j) (job_error j)
        (startTime j) (Some t).

Section Processor.
Context `{Platform}.

Definition isSupportedFile (filePath : string) : bool :=
  let ext := JS.toLowerCase (extname filePath) in
  bool_decide (ext ∈ SUPPORTED_EXTENSIONS).

(** [toISOString().replace(/[-:]/g, "").replace("T", "_").substring(0, 15)] *)
Definition compactTimestamp (iso : string) : string :=
  JS.take 15
    (JS.replace_first "T"%char "_"
       (JS.replace_class
          (fun c => Ascii.eqb c "-"%char || Ascii.eqb c ":"%char) "" iso)).

Definition generateOutputPath
  (inputPath inputDir outputDir : string) (config : Config) : M string :=
  let relativePath := relative inputDir inputPath in
  let dirName := dirname relativePath in
  let baseName := basename relativePath (extname relativePath) in
  outputFileName <-
    (if addTimestamp config then
       iso <- now_iso ;;
       ret (baseName +:+ "_" +:+ compactTimestamp iso +:+ ".md")
     else ret (baseName +:+ ".md")) ;;
  if preserveStructure config && negb (String.eqb dirName ".") then
    let outputSubDir := join outputDir dirName in
    ex <- existsSync outputSubDir ;;
    (if negb ex then mkdirSync outputSubDir else ret tt) ;;
    ret (join outputSubDir outputFileName)
  else ret (join outputDir outputFileName).

Definition kreuzbergArgs (inputPath : string) (config : Config)
  (hasConfig : bool) : list string :=
  ["extract"; inputPath; "--format"; "text"]
  ++ (if hasConfig then ["--config"; kreuzbergConfig config] else [])
  ++ (if ocrEnabled config then ["--ocr"; "true"] else [])
  ++ (if bool_decide (env_FORCE_OCR = Some "true")
      then ["--force-ocr"; "true"] else [])
  ++ (if qualityProcessing config then ["--quality"; "true"] else []).

Definition extractDocument
  (inputPath outputPath : string) (config : Config) : M ExtractResult :=
  try_catch
    (hasConfig <- existsSync (kreuzbergConfig config) ;;
     let args := kreuzbergArgs inputPath config hasConfig in
     emit (EvSpawn ("kreuzberg" :: args)) ;;
     h <- get_history ;;
     match spawn h ("kreuzberg" :: args) with
     | SpawnFailed msg => throw msg
     | Exited stdout stderr exitCode =>
         if negb (exitCode =? 0) then
           throw (JS.or_else (Some stderr) ("Exit code " +:+ pretty exitCode))
         else
           Bun_write outputPath stdout ;;
           ret (mkExtractResult true (Some stdout) None)
     end)
    (fun message => ret (mkExtractResult false None (Some message))).

Definition errorLogText (error timestamp inputPath : string) : string :=
  "Error: " +:+ error +:+ nl +:+ "Timestamp: " +:+ timestamp +:+ nl
  +:+ "Original path: " +:+ inputPath.

Definition moveToError (inputPath inputDir errorDir error : string) : M unit :=
  try_catch
    (let relativePath := relative inputDir inputPath in
     let errorPath := join errorDir relativePath in
     let errorLogPath := errorPath +:+ ".error.txt" in
     let errorSubDir := dirname errorPath in
     ex <- existsSync errorSubDir ;;
     (if negb ex then mkdirSync errorSubDir else ret tt) ;;
     copyFileSync inputPath errorPath ;;
     iso <- now_iso ;;
     Bun_write_detached errorLogPath (errorLogText error iso inputPath))
    (fun _ => ret tt).

(** The body of [for (attempt = 1; attempt <= maxRetries; attempt++)]:
    [n] counts the iterations that remain.  [inl job] is the [return]
    inside the loop; [inr (job, lastError)] is the exit of the loop
    after its last iteration. *)
Fixpoint processJob_loop (n : nat) (attempt : Z) (job : ProcessingJob)
  (lastError outputPath : string) (config : Config)
  : M (ProcessingJob + ProcessingJob * string) :=
  match n with
  | O => ret (inr (job, lastError))
  | S n' =>
      result <- extractDocument (path (job_entry job)) outputPath config ;;
      if ex_success result then
        t <- now ;;
        ret (inl (set_endTime t (set_status completed job)))
      else
        let lastError := JS.or_else (ex_error result) "Unknown error" in
        let job := set_retries attempt job in
        (if attempt <? maxRetries config
         then Bun_sleep (retryDelay config) else ret tt) ;;
        processJob_loop n' (attempt + 1) job lastError outputPath config
  end.

Definition processJob (job : ProcessingJob) (config : Config)
  : M ProcessingJob :=
  let job := set_status processing job in
  t <- now ;;
  let job := set_startTime t job in
  outputPath <- generateOutputPath (path (job_entry job))
                  (inputDir config) (outputDir config) config ;;
  exit <- processJob_loop (Z.to_nat (maxRetries config)) 1 job ""
            outputPath config ;;
  match exit with
  | inl job => ret job
  | inr (job, lastError) =>
      let job := set_error lastError (set_status failed job) in
      t <- now ;;
      let job := set_endTime t job in
      moveToError (path (job_entry job)) (inputDir config) (errorDir config)
        lastError ;;
      ret job
  end.



End Processor.

(** ** fetcher.ts *)

Definition failedFetch (url : string) (m : FetchMethod) (message : string)
  : FetchResult :=
  mkFetchResult url "" false m (Some message).

(** The lines of a URL-list file that are kept:
    [content.split("\n").filter((line) => line.trim())]. *)
Definition nonBlankLines (content : string) : list string :=
  filter (fun line => JS.truthy (JS.trim line) = true)
         (JS.split (ascii_of_nat 10) content).

(** [parts[0]] and [parts[1]] of [trimmed.split(/\s+/)]. *)
Definition firstToken (trimmed : string) : string :=
  match JS.split_ws trimmed with
  | x :: _ => x
  | [] => ""
  end.

Definition secondToken (trimmed : string) : option string :=
  match JS.split_ws trimmed with
  | _ :: y :: _ => Some y
  | _ => None
  end.

Section Fetcher.
Context `{Platform}.

(** The test of layer 1 for a page that needs client-side rendering. *)
Definition requiresJavaScript (html : string) : bool :=
  JS.includes html "Please enable JavaScript"
  || (JS.includes html "noscript" && (Z.of_nat (String.length html) <? 5000))
  || (JS.includes html "__NEXT_DATA__" && negb (JS.includes html "<main")).

(** Layer 1: native fetch. *)
Definition fetchWithNative (url : string) (config : Config) : M FetchResult :=
  try_catch
    (emit (EvFetchGet url) ;;
     h <- get_history ;;
     match http_get h url config with
     | HttpFailed msg => throw msg
     | HttpResponse ok status statusText body =>
         if negb ok then
           throw ("HTTP " +:+ pretty status +:+ ": " +:+ statusText)
         else if requiresJavaScript body then
           throw "Page requires JavaScript rendering"
         else ret (mkFetchResult url body true fetch None)
     end)
    (fun message => ret (failedFetch url fetch message)).

(** Layer 2: Playwright. *)
Definition fetchWithPlaywright (url : string) (config : Config)
  : M FetchResult :=
  if negb (playwrightEnabled config) then
    ret (failedFetch url playwright "Playwright disabled")
  else
    try_catch
      (emit EvBrowserLaunch ;;
       h <- get_history ;;
       match browser_launch h with
       | Some msg => throw msg
       | None =>
           try_finally
             (emit (EvBrowserGoto url) ;;
              h <- get_history ;;
              match browser_render h url config with
              | inl msg => throw msg
              | inr html => ret (mkFetchResult url html true playwright None)
              end)
             (emit EvBrowserClose)
       end)
      (fun message => ret (failedFetch url playwright message)).

(** Layer 3: Browserless. *)
Definition fetchWithBrowserless (url : string) (config : Config)
  : M FetchResult :=
  if negb (browserlessEnabled config) then
    ret (failedFetch url browserless "Browserless disabled")
  else
    try_catch
      (let browserlessUrl := browserlessUrl config +:+ "/content" in
       emit (EvFetchPost browserlessUrl url) ;;
       h <- get_history ;;
       match http_post h browserlessUrl url config with
       | HttpFailed msg => throw msg
       | HttpResponse ok status statusText body =>
           if negb ok then
             throw ("Browserless HTTP " +:+ pretty status +:+ ": "
                    +:+ statusText)
           else ret (mkFetchResult url body true browserless None)
       end)
      (fun message => ret (failedFetch url browserless message)).

(** Fetch URL with 3-layer fallback. *)
Definition fetchUrl (url : string) (config : Config) : M FetchResult :=
  result <- fetchWithNative url config ;;
  if success result then ret result else
  result <- fetchWithPlaywright url config ;;
  if success result then ret result else
  result <- fetchWithBrowserless url config ;;
  if success result then ret result else
  ret (mkFetchResult url "" false browserless (Some "All fetch methods failed")).

(** The later revision of the file has two layers only. *)
Definition fetchUrl_twoLayers (url : string) (config : Config)
  : M FetchResult :=
  result <- fetchWithNative url config ;;
  if success result then ret result else
  result <- fetchWithPlaywright url config ;;
  if success result then ret result else
  ret (mkFetchResult url "" false playwright (Some "All fetch methods failed")).

(** The callback of [lines.map(...)] in [parseUrlFile]: [None] is
    [null]. *)
Definition parseUrlLine (line : string) : option UrlEntry :=
  let trimmed := JS.trim line in
  if JS.startsWith trimmed "#" then None
  else
    let url := firstToken trimmed in
    let filename := secondToken trimmed in
    match URL_parse url with
    | Some _ => Some (mkUrlEntry url filename)
    | None => None
    end.

(** [lines.map(...).filter((entry) => entry !== null)] *)
Definition parseUrlContent (content : string) : list UrlEntry :=
  omap parseUrlLine (nonBlankLines content).

Definition parseUrlFile (filePath : string) : M (list UrlEntry) :=
  try_catch
    (ex <- input_exists filePath ;;
     if negb ex then ret []
     else content <- input_text filePath ;; ret (parseUrlContent content))
    (fun _ => ret []).

(** The loop of the later revision of [parseUrlFile], which pushes the
    entries one by one. *)
Fixpoint parseUrlLines_push (lines : list string) (urls : list UrlEntry)
  : list UrlEntry :=
  match lines with
  | [] => urls
  | line :: rest =>
      let trimmed := JS.trim line in
      if JS.startsWith trimmed "#" then parseUrlLines_push rest urls
      else
        let urlCandidate := firstToken trimmed in
        let filename := secondToken trimmed in
        match URL_parse urlCandidate with
        | Some _ =>
            parseUrlLines_push rest (urls ++ [mkUrlEntry urlCandidate filename])
        | None => parseUrlLines_push rest urls
        end
  end.

Definition isHttpLine (line : string) : bool :=
  let trimmed := JS.trim line in
  if JS.startsWith trimmed "#" then false
  else match URL_parse (firstToken trimmed) with
       | Some parsed =>
           String.eqb (protocol parsed) "http:"
           || String.eqb (protocol parsed) "https:"
       | None => false
       end.

Definition detectUrls (content : string) : bool :=
  let lines := nonBlankLines content in
  match lines with
  | [] => false
  | _ =>
      let urlCount := length (filter (fun l => isHttpLine l = true) lines) in
      let nonCommentLines :=
        length (filter (fun l => JS.startsWith (JS.trim l) "#" = false) lines) in
      (0 <? nonCommentLines)%nat && (urlCount =? nonCommentLines)%nat
  end.

Definition detectUrlsInTextFile (filePath : string) : M bool :=
  try_catch
    (ex <- input_exists filePath ;;
     if negb ex then ret false
     else content <- input_text filePath ;; ret (detectUrls content))
    (fun _ => ret false).

Definition sanitizePathname (pathname : string) : string :=
  JS.replace_class
    (fun c => negb (JS.is_alnum c || Ascii.eqb c "_"%char || Ascii.eqb c "-"%char))
    "_"
    (JS.replace_class (fun c => Ascii.eqb c "/"%char) "_"
       (JS.strip_trailing "/"%char (JS.strip_leading "/"%char pathname))).

(** The branch of [urlToFilename] that derives the name from the URL. *)
Definition derivedFilename (url : string) : M string :=
  match URL_parse url with
  | Some parsed =>
      let name := sanitizePathname (pathname parsed) in
      let name :=
        if negb (JS.truthy name) || String.eqb name "_"
        then JS.replace_class (fun c => Ascii.eqb c "."%char) "_"
               (hostname parsed)
        else name in
      ret (name +:+ ".html")
  | None => t <- now ;; ret ("page_" +:+ pretty t +:+ ".html")
  end.

Definition urlToFilename (url : string) (customName : option string)
  : M string :=
  match customName with
  | Some custom =>
      if JS.truthy custom then
        ret (if JS.endsWith custom ".html" then custom else custom +:+ ".html")
      else derivedFilename url
  | None => derivedFilename url
  end.

End Fetcher.

(** ** watcher.ts *)

Section Watcher.
Context `{Platform}.

(** [scanDirectory(inputDir, inputDir, recursive).filter(...)]: the
    listing of the input tree is an answer of the environment. *)
Definition getAllInputFiles (config : Config) : M (list FileEntry) :=
  h <- get_history ;;
  ret (filter (fun entry => isDirectory entry = false) (scanInput h config)).

(** [entries.map((entry, index) => ...)] *)
Fixpoint createJobs_from (index : Z) (entries : list FileEntry)
  : M (list ProcessingJob) :=
  match entries with
  | [] => ret []
  | entry :: rest =>
      t <- now ;;
      let job :=
        mkJob ("job_" +:+ pretty t +:+ "_" +:+ pretty index) entry pending 0
              None None None in
      jobs <- createJobs_from (index + 1) rest ;;
      ret (job :: jobs)
  end.

Definition createJobs (entries : list FileEntry) : M (list ProcessingJob) :=
  createJobs_from 0 entries.

End Watcher.

(** ** main.ts *)

(** After a batch the job objects of the slice have been updated in
    place: the array holds the results at the positions of the slice. *)
Definition write_back {A} (l : list A) (start end_ : Z) (results : list A)
  : list A :=
  let len := Z.of_nat (length l) in
  let k := JS.slice_index len start in
  let final := JS.slice_index len end_ in
  firstn (Z.to_nat k) l ++ results ++ skipn (Z.to_nat (Z.max k final)) l.

Section Main.
Context `{Platform}.

(** The loop of [findUrlFiles] over the items of the input directory. *)
Fixpoint findUrlFiles_loop (config : Config) (items : list Dirent)
  (urlFiles : list string) : M (list string) :=
  match items with
  | [] => ret urlFiles
  | item :: rest =>
      if isFile item && JS.endsWith (name item) ".txt"
         && negb (JS.startsWith (name item) ".")
      then
        let filePath := join (inputDir config) (name item) in
        isUrlFile <- detectUrlsInTextFile filePath ;;
        findUrlFiles_loop config rest
          (if isUrlFile : bool then urlFiles ++ [filePath] else urlFiles)
      else findUrlFiles_loop config rest urlFiles
  end.

(** A failing [readdirSync] is caught with [urlFiles] still empty;
    nothing in the loop throws. *)
Definition findUrlFiles (config : Config) : M (list string) :=
  h <- get_history ;;
  match readdirSync h (inputDir config) with
  | None => ret []
  | Some items => findUrlFiles_loop config items []
  end.

(** One iteration of the loop over the URLs of a list; the result
    [true] is the [break]. *)
Definition processUrlEntry (config : Config) (urlEntry : UrlEntry) : M bool :=
  w <- get_world ;;
  if isShuttingDown w then ret true else
  filename <- urlToFilename (url urlEntry) (filename urlEntry) ;;
  let tempDir := join (inputDir config) ".url-cache" in
  let tempPath := join tempDir filename in
  let urlHash := calculateStringHash (url urlEntry) in
  if isFileProcessed (state w) (url urlEntry) urlHash then ret false else
  result <- fetchUrl (url urlEntry) config ;;
  if negb (success result) then ret false else
  ex <- existsSync tempDir ;;
  (if negb ex then mkdirSync tempDir else ret tt) ;;
  Bun_write tempPath (html result) ;;
  outputPath <- generateOutputPath tempPath (inputDir config)
                  (outputDir config) config ;;
  extractResult <- extractDocument tempPath outputPath config ;;
  (if ex_success extractResult
   then markFileProcessed (url urlEntry) urlHash outputPath 0
   else ret tt) ;;
  ret false.

Definition processUrlFile (config : Config) (urlFilePath : string) : M unit :=
  urls <- parseUrlFile urlFilePath ;;
  match urls with
  | [] => ret tt
  | _ =>
      for_of urls (processUrlEntry config) ;;
      urlFileHash <- calculateFileHash urlFilePath ;;
      markFileProcessed urlFilePath urlFileHash "url-list-processed" 0
  end.

Definition processUrls (config : Config) : M unit :=
  if negb (fetchUrls config) then ret tt else
  urlFiles <- findUrlFiles config ;;
  match urlFiles with
  | [] => ret tt
  | _ =>
      for_of urlFiles (fun urlFile =>
        w <- get_world ;;
        if isShuttingDown w then ret true else
        fileHash <- calculateFileHash urlFile ;;
        if isFileProcessed (state w) urlFile fileHash then ret false else
        processUrlFile config urlFile ;; ret false)
  end.

(** The first loop of [processFiles]: the candidates that are neither
    URL lists nor already in the ledger. *)
Fixpoint selectNewFiles (config : Config) (entries newFiles : list FileEntry)
  : M (list FileEntry) :=
  match entries with
  | [] => ret newFiles
  | entry :: rest =>
      isUrlFile <-
        (if JS.endsWith (path entry) ".txt"
         then detectUrlsInTextFile (path entry) else ret false) ;;
      if isUrlFile : bool then selectNewFiles config rest newFiles else
      fileHash <- calculateFileHash (path entry) ;;
      w <- get_world ;;
      if skipExisting config && isFileProcessed (state w) (path entry) fileHash
      then selectNewFiles config rest newFiles
      else selectNewFiles config rest (newFiles ++ [entry])
  end.

(** The callback given to [batch.map]; it gives back the job object,
    which [processJob] has updated. *)
Definition runJob (config : Config) (job : ProcessingJob) : M ProcessingJob :=
  fileHash <- calculateFileHash (path (job_entry job)) ;;
  result <- processJob job config ;;
  (if bool_decide (job_status result = completed) then
     outputPath <- generateOutputPath (path (job_entry job))
                     (inputDir config) (outputDir config) config ;;
     markFileProcessed (path (job_entry job)) fileHash outputPath
       (job_retries result)
   else ret tt) ;;
  ret result.

(** The batch loop of [processFiles].  [fuel] bounds the iterations as
    in [processJobs_loop]; the result is the [jobs] array as the loop
    leaves it. *)
Fixpoint processFiles_loop (fuel : nat) (i : Z) (jobs : list ProcessingJob)
  (config : Config) : M (option (list ProcessingJob)) :=
  if negb (i <? Z.of_nat (length jobs)) then ret (Some jobs)
  else match fuel with
       | O => ret None
       | S fuel' =>
           w <- get_world ;;
           if isShuttingDown w then ret (Some jobs) else
           let concurrency := concurrentJobs config in
           let batch := JS.slice jobs i (i + concurrency) in
           results <- promise_all (map (runJob config) batch) ;;
           let hashFilePath := join (outputDir config) (hashFile config) in
           saveProcessedState hashFilePath ;;
           processFiles_loop fuel' (i + concurrency)
             (write_back jobs i (i + concurrency) results) config
       end.

(** [processFiles] returns nothing; the model gives back the [jobs]
    array at the end, [None] when the batch loop does not end. *)
Definition processFiles (config : Config) : M (option (list ProcessingJob)) :=
  entries <- getAllInputFiles config ;;
  newFiles <- selectNewFiles config entries [] ;;
  match newFiles with
  | [] => ret (Some [])
  | _ =>
      jobs <- createJobs newFiles ;;
      processFiles_loop (length jobs) 0 jobs config
  end.

Definition cycleBody (config : Config) : M (option (list ProcessingJob)) :=
  processUrls config ;;
  processFiles config.

(** [try { await processUrls(); await processFiles(); ... } catch { log }];
    [None] when the cycle does not end. *)
Definition runCycle (config : Config) : M (option unit) :=
  try_catch
    (jobs <- cycleBody config ;;
     ret (match jobs with Some _ => Some tt | None => None end))
    (fun _ => ret (Some tt)).

End Main.

(** ** A concrete platform for running the model

    Paths are slash-separated, the digest is a tagged copy of its input,
    a URL is a string that starts with a scheme, and the environment is
    given by a [Scenario]: the files of the input tree, the listing of
    the input directory, the scan of the tree, and the answers of the
    conversion service and of the network. *)

Module Sim.

Fixpoint lastIndexOf (c : ascii) (s : string) : option nat :=
  match s with
  | EmptyString => None
  | String c' r =>
      match lastIndexOf c r with
      | Some i => Some (S i)
      | None => if Ascii.eqb c' c then Some O else None
      end
  end.

Fixpoint drop (n : nat) (s : string) : string :=
  match n, s with
  | S n', String _ r => drop n' r
  | _, _ => s
  end.

Definition path_join (a b : string) : string := a +:+ "/" +:+ b.

Definition path_relative (from to : string) : string :=
  if String.prefix (from +:+ "/") to
  then drop (S (String.length from)) to else to.

Definition path_dirname (p : string) : string :=
  match lastIndexOf "/"%char p with
  | Some O => "/"
  | Some i => JS.take i p
  | None => "."
  end.

Definition lastSegment (p : string) : string :=
  match lastIndexOf "/"%char p with
  | Some i => drop (S i) p
  | None => p
  end.

Definition path_extname (p : string) : string :=
  let seg := lastSegment p in
  match lastIndexOf "."%char seg with
  | Some (S i) => drop (S i) seg
  | _ => ""
  end.

Definition path_basename (p ext : string) : string :=
  let seg := lastSegment p in
  if JS.truthy ext && JS.endsWith seg ext
  then JS.take (String.length seg - String.length ext) seg else seg.

Definition parseURL (s : string) : option URL :=
  if String.prefix "https://" s then Some (mkURL "https:" (drop 8 s) "/")
  else if String.prefix "http://" s then Some (mkURL "http:" (drop 7 s) "/")
  else None.

Record Scenario : Type := mkScenario {
  inputs : list (string * string);
  listing : list Dirent;
  scan : list FileEntry;
  service : list event -> list string -> SpawnResult;
  network : string -> HttpResult;
  parsed : list (string * json);
  digest : string -> string
}.

Definition platform (sc : Scenario) : Platform := {|
  md5 := digest sc;
  URL_parse := parseURL;
  join := path_join;
  relative := path_relative;
  dirname := path_dirname;
  basename := path_basename;
  extname := path_extname;
  JSON_parse := fun s => assoc s (parsed sc);
  JSON_stringify := fun st => "ledger " +:+ lastUpdated st;
  toISOString := fun t => "2026-01-01T00:00:" +:+ pretty t +:+ ".000Z";
  env_FORCE_OCR := None;
  Date_now := fun h => Z.of_nat (length h);
  input_file := fun _ p => assoc p (inputs sc);
  readdirSync := fun _ _ => Some (listing sc);
  scanInput := fun _ _ => scan sc;
  spawn := service sc;
  http_get := fun _ u _ => network sc u;
  browser_launch := fun _ => Some "browserType.launch: executable not found";
  browser_render := fun _ _ _ => inl "unreachable";
  http_post := fun _ _ _ _ => HttpFailed "connection refused"
|}.

Definition config : Config := {|
  watchInterval := 30; concurrentJobs := 2; recursive := true;
  outputFormat := "markdown"; addTimestamp := false; skipExisting := true;
  preserveStructure := true; hashFile := ".processed.json";
  fetchUrls := true; urlFile := "urls.txt"; fetchTimeout := 30000;
  userAgent := "Mozilla/5.0 (compatible; KreuzbergBot/1.0)";
  playwrightEnabled := true; playwrightWait := 5000;
  playwrightTimeout := 60000;
  browserlessEnabled := true; browserlessUrl := "http://browserless:3000";
  browserlessToken := "";
  maxRetries := 3; retryDelay := 5000;
  kreuzbergConfig := "/config/kreuzberg.toml"; ocrEnabled := true;
  ocrLanguage := "eng"; qualityProcessing := true;
  inputDir := "/files/input"; outputDir := "/files/output";
  errorDir := "/files/error"; logLevel := "info"; verbose := false
|}.

Definition withRetries (n : Z) (c : Config) : Config :=
  mkConfig (watchInterval c) (concurrentJobs c) (recursive c) (outputFormat c)
    (addTimestamp c) (skipExisting c) (preserveStructure c) (hashFile c)
    (fetchUrls c) (urlFile c) (fetchTimeout c) (userAgent c)
    (playwrightEnabled c) (playwrightWait c) (playwrightTimeout c)
    (browserlessEnabled c) (browserlessUrl c) (browserlessToken c)
    n (retryDelay c) (kreuzbergConfig c) (ocrEnabled c) (ocrLanguage c)
    (qualityProcessing c) (inputDir c) (outputDir c) (errorDir c)
    (logLevel c) (verbose c).

(** The three directories exist, as [main] ensures at startup, and
    the ledger is empty. *)
Definition world0 : World :=
  mkWorld
    (<["/files/input" := Dir]> (<["/files/output" := Dir]>
      (<["/files/error" := Dir]> ∅)))
    (emptyState "2026-01-01T00:00:00.000Z")
    false.

Definition contentDigest (s : string) : string := "md5:" +:+ s.

Definition fileEntry (rel : string) : FileEntry :=
  mkFileEntry (path_join "/files/input" rel) rel false false.

Definition alwaysFails : list event -> list string -> SpawnResult :=
  fun _ _ => Exited "" "unsupported format" 1.

Definition alwaysWorks : list event -> list string -> SpawnResult :=
  fun _ _ => Exited "extracted text" "" 0.

Definition offline : string -> HttpResult :=
  fun _ => HttpFailed "getaddrinfo ENOTFOUND".

(** One document in the input tree. *)
Definition oneDocument (svc : list event -> list string -> SpawnResult)
  : Scenario :=
  mkScenario [("/files/input/a.pdf", "PDF bytes")]
    [mkDirent "a.pdf" true false] [fileEntry "a.pdf"] svc offline []
    contentDigest.

(** One URL list in the input tree, and no network. *)
Definition oneUrlList : Scenario :=
  mkScenario [("/files/input/urls.txt", "https://a.example x")]
    [mkDirent "urls.txt" true false] [fileEntry "urls.txt"]
    alwaysWorks offline [] contentDigest.


(** A job as [createJobs] makes it. *)
Definition job (rel : string) (index : Z) : ProcessingJob :=
  mkJob ("job_0_" +:+ pretty index) (fileEntry rel) pending 0 None None None.


(** The document whose content now has the fingerprint [def456], and
    the world in which the ledger has it with [abc123]. *)
Definition changedDocument : Scenario :=
  mkScenario [("/files/input/a.pdf", "PDF bytes, edited")]
    [mkDirent "a.pdf" true false] [fileEntry "a.pdf"] alwaysWorks offline []
    (fun _ => "def456").

Definition recorded : World :=
  set_state
    (setEntry "/files/input/a.pdf"
       (mkEntry "abc123" "/files/output/a.md" "2026-01-01T00:00:00.000Z" 0)
       (state world0))
    world0.

(** A ledger file of an earlier version, one that is not JSON, and
    the worlds in which they are the ledger file. *)
Definition ledgerPath : string := "/files/output/.processed.json".

Definition oldLedgerText : string := "{version:0.9.0}".

Definition oldLedger : Scenario :=
  mkScenario [] [] [] alwaysWorks offline
    [(oldLedgerText,
      JObj [("version", JStr "0.9.0");
            ("lastUpdated", JStr "2025-06-01T00:00:00.000Z");
            ("files", JObj [])])]
    contentDigest.

Definition withLedgerFile (content : string) : World :=
  set_fs (<[ledgerPath := File content]> (fs world0)) world0.

End Sim.

(** ** Vocabulary of the properties *)

(** A specification relates the history and world before a computation
    to the events it adds and the world it leaves. *)
Definition Spec : Type := list event -> World -> list event -> World -> Prop.

(** Specifications that hold of the empty computation and compose along
    sequencing hold of every program built from parts that obey them. *)
Class Compositional (Q : Spec) : Prop := {
  spec_nil : forall h w, Q h w [] w;
  spec_app : forall h w e1 w1 e2 w2,
    Q h w e1 w1 -> Q (h ++ e1) w1 e2 w2 -> Q h w (e1 ++ e2) w2
}.

Definition obeys (Q : Spec) {A} (m : M A) : Prop :=
  forall h w, Q h w (events (m h w)) (world (m h w)).

Definition nothrow {A} (m : M A) : Prop :=
  forall h w, exists a, res (m h w) = Val a.

(** The world moves along [R] and every event is in [P]. *)
Definition stepwise (R : relation World) (P : event -> Prop) : Spec :=
  fun _ w evs w' => R w w' /\ Forall P evs.

Definition sameLedger : relation World := fun w w' =>
  state w' = state w /\ isShuttingDown w' = isShuttingDown w.

Definition sameFlag : relation World := fun w w' =>
  isShuttingDown w' = isShuttingDown w.

(** The layer of the resolver an event belongs to. *)
Definition layer_of (e : event) : option nat :=
  match e with
  | EvFetchGet _ => Some 1%nat
  | EvBrowserLaunch | EvBrowserGoto _ | EvBrowserClose => Some 2%nat
  | EvFetchPost _ _ => Some 3%nat
  | _ => None
  end.

Definition allFailed (url : string) : FetchResult :=
  mkFetchResult url "" false browserless (Some "All fetch methods failed").

Definition is_spawn (e : event) : bool :=
  match e with EvSpawn _ => true | _ => false end.

Definition is_save (e : event) : bool :=
  match e with EvWriteFileSync _ _ => true | _ => false end.

Definition is_copy (e : event) : bool :=
  match e with EvCopyFileSync _ _ => true | _ => false end.


Definition is_mkdir (e : event) : bool :=
  match e with EvMkdirSync _ => true | _ => false end.

(** The write-temp-then-rename pattern on the events of a save: the
    live file is not written directly, and something is renamed onto it. *)
Definition rewritesInPlace (live : string) (evs : list event) : Prop :=
  exists content, In (EvWriteFileSync live content) evs.

Definition renamesOnto (live : string) (evs : list event) : Prop :=
  exists tmp, In (EvRenameSync tmp live) evs.

Definition atomicSave (live : string) (evs : list event) : Prop :=
  ~ rewritesInPlace live evs /\ renamesOnto live evs.

(** The URL-list file of the scenario, with its three line ends. *)
Definition urlListScenario : string :=
  "# comment" +:+ nl +:+ "https://a.example x" +:+ nl +:+ "not-a-url" +:+ nl.

Section ProcessorVocabulary.
Context `{Platform}.

(** The command line of one extraction attempt. *)
Definition kreuzbergCommand (inputPath : string) (config : Config)
  (hasConfig : bool) : list string :=
  "kreuzberg" :: kreuzbergArgs inputPath config hasConfig.

(** The conversion service fails: the process cannot be started, or
    it exits with a code other than 0. *)
Definition serviceFails (r : SpawnResult) : Prop :=
  match r with
  | SpawnFailed _ => True
  | Exited _ _ exitCode => exitCode <> 0
  end.

(** The message of a failed attempt, as [extractDocument] reports it. *)
Definition failureMessage (r : SpawnResult) : string :=
  match r with
  | SpawnFailed msg => msg
  | Exited _ stderr exitCode =>
      JS.or_else (Some stderr) ("Exit code " +:+ pretty exitCode)
  end.

(** The error that [processJob] keeps for a failed attempt:
    [result.error || "Unknown error"]. *)
Definition attemptError (r : SpawnResult) : string :=
  JS.or_else (Some (failureMessage r)) "Unknown error".

(** Where a failed input is quarantined. *)
Definition quarantinePath (config : Config) (inputPath : string) : string :=
  join (errorDir config) (relative (inputDir config) inputPath).

Definition quarantineLog (config : Config) (inputPath : string) : string :=
  quarantinePath config inputPath +:+ ".error.txt".

Definition outputSubDir (config : Config) (inputPath : string) : string :=
  join (outputDir config) (dirname (relative (inputDir config) inputPath)).

(** The quarantine copy and its log can be written: neither path is a
    directory, nor one of the directories the job creates on its way. *)
Definition canQuarantine (config : Config) (inputPath : string) (w : World)
  : Prop :=
  let errorPath := quarantinePath config inputPath in
  let logPath := quarantineLog config inputPath in
  let created := [outputSubDir config inputPath; dirname errorPath] in
  fs w !! errorPath <> Some Dir /\ fs w !! logPath <> Some Dir /\
  (errorPath ∉ created) /\ (logPath ∉ created).

(** Among the events [evs] added after the history [h] there is an
    attempt on [inputPath] that the service answered with exit code 0. *)
Definition extractionSucceeded (config : Config) (h evs : list event)
  (inputPath : string) : Prop :=
  exists pre post hasConfig stdout stderr,
    let cmd := kreuzbergCommand inputPath config hasConfig in
    evs = pre ++ EvSpawn cmd :: post /\
    spawn (h ++ pre ++ [EvSpawn cmd]) cmd = Exited stdout stderr 0.

End ProcessorVocabulary.

(** ** The schedule of the batches, as the specification words it *)

(** A list cut into consecutive batches of [c] elements, the last one
    possibly shorter. *)
Fixpoint chunks_go {A} (fuel c : nat) (l : list A) : list (list A) :=
  match fuel with
  | O => []
  | S fuel' =>
      match l with
      | [] => []
      | _ => firstn c l :: chunks_go fuel' c (skipn c l)
      end
  end.

Definition chunks {A} (c : nat) (l : list A) : list (list A) :=
  chunks_go (length l) c l.

Definition terminal (s : JobStatus) : Prop := s = completed \/ s = failed.

Section Scheduler.
Context `{Platform}.

(** The jobs are run batch after batch: all the jobs of a batch are
    run, then the ledger is saved, and only then the next batch
    starts.  A raised shutdown flag stops the schedule at a batch
    boundary.  [done] collects the jobs that have been run. *)
Fixpoint runBatches (config : Config) (done : list ProcessingJob)
  (batches : list (list ProcessingJob)) : M (option (list ProcessingJob)) :=
  match batches with
  | [] => ret (Some done)
  | batch :: rest =>
      w <- get_world ;;
      if isShuttingDown w then ret (Some (done ++ concat batches)) else
      results <- promise_all (map (runJob config) batch) ;;
      saveProcessedState (join (outputDir config) (hashFile config)) ;;
      runBatches config (done ++ results) rest
  end.


(** An event of a job on [inputPath]: it is not a save of the ledger,
    and when it starts the conversion service, it does so for
    [inputPath]. *)
Definition jobEvent (config : Config) (inputPath : string) (e : event)
  : Prop :=
  is_save e = false /\
  forall cmd, e = EvSpawn cmd ->
    exists hasConfig, cmd = kreuzbergCommand inputPath config hasConfig.



End Scheduler.

(** ** The candidates of a cycle *)

Section Candidates.
Context `{Platform}.

(** A text file that [detectUrlsInTextFile] classifies as a URL list
    is not a candidate of the file pipeline. *)
Definition isUrlList (h : list event) (filePath : string) : bool :=
  JS.endsWith filePath ".txt"
  && match input_file h filePath with
     | Some content => detectUrls content
     | None => false
     end.

(** The fresh fingerprint of a candidate matches its ledger entry. *)
Definition upToDate (st : ProcessedState) (h : list event) (filePath : string)
  : Prop :=
  exists content,
    input_file h filePath = Some content /\
    isFileProcessed st filePath (md5 content) = true.

(** The candidates that the first loop of [processFiles] keeps, when
    all of them can be read: [None] is the failure to read one. *)
Fixpoint selected (config : Config) (st : ProcessedState) (h : list event)
  (entries : list FileEntry) : option (list FileEntry) :=
  match entries with
  | [] => Some []
  | entry :: rest =>
      if isUrlList h (path entry) then selected config st h rest
      else
        match input_file h (path entry) with
        | None => None
        | Some content =>
            match selected config st h rest with
            | None => None
            | Some l =>
                Some (if skipExisting config
                         && isFileProcessed st (path entry) (md5 content)
                      then l else entry :: l)
            end
        end
  end.

End Candidates.

(** ** What stands behind a ledger entry *)

Section Justification.
Context `{Platform}.

(** The reasons for which the cycle writes the entry [e] under the
    key [k]: a file job on [k] whose extraction succeeded; a URL [k],
    fingerprinted by its own text, whose fetched page was extracted
    from the URL cache; or the mark that [processUrlFile] leaves for
    the URL list itself once it has gone through the list. *)
Definition backed (config : Config) (h evs : list event) (k : string)
  (e : ProcessedFileEntry) : Prop :=
  extractionSucceeded config h evs k
  \/ (hash e = md5 k /\
      exists cached,
        extractionSucceeded config h evs
          (join (join (inputDir config) ".url-cache") cached))
  \/ outputPath e = "url-list-processed".

(** Every entry of the ledger was there before or is backed by the
    events in between. *)
Definition justified (config : Config) : Spec := fun h w evs w' =>
  forall k e,
    files (state w') !! k = Some e ->
    files (state w) !! k = Some e \/ backed config h evs k e.


End Justification.

(** ** An unchanged input tree *)

Section Idempotence.
Context `{Platform}.

(** The input tree does not change: what the program lists and reads
    in it does not depend on the moment. *)
Definition stableInput : Prop :=
  (forall h h' p, input_file h p = input_file h' p) /\
  (forall h h' d, readdirSync h d = readdirSync h' d) /\
  (forall h h' c, scanInput h c = scanInput h' c).

(** The URL lists that [findUrlFiles] finds in the input directory. *)
Fixpoint urlFiles_among (config : Config) (h : list event)
  (items : list Dirent) : list string :=
  match items with
  | [] => []
  | item :: rest =>
      if isFile item && JS.endsWith (name item) ".txt"
         && negb (JS.startsWith (name item) ".")
      then
        let filePath := join (inputDir config) (name item) in
        if match input_file h filePath with
           | Some content => detectUrls content
           | None => false
           end
        then filePath :: urlFiles_among config h rest
        else urlFiles_among config h rest
      else urlFiles_among config h rest
  end.

Definition urlFilesOf (config : Config) (h : list event) : list string :=
  match readdirSync h (inputDir config) with
  | None => []
  | Some items => urlFiles_among config h items
  end.

(** The candidates of the file pipeline. *)
Definition candidates (config : Config) (h : list event) : list FileEntry :=
  filter (fun entry => isDirectory entry = false) (scanInput h config).

(** From [w] to [w'] the shutdown flag is kept, and so is every match
    between a path in [S] and its fingerprint in the ledger. *)
Definition keeps (S : string -> Prop) (h0 : list event) : relation World :=
  fun w w' =>
    isShuttingDown w' = isShuttingDown w /\
    forall p, S p -> upToDate (state w) h0 p -> upToDate (state w') h0 p.

(** The end of one iteration over a URL of a list. *)
Definition urlTail (config : Config) (u cached out : string) : M bool :=
  extractResult <-
    extractDocument (join (join (inputDir config) ".url-cache") cached) out
      config ;;
  (if ex_success extractResult
   then markFileProcessed u (calculateStringHash u) out 0
   else ret tt) ;;
  ret false.

(** One iteration of the loop of [processUrls] over the URL lists. *)
Definition urlFileStep (config : Config) (urlFile : string) : M bool :=
  w <- get_world ;;
  if isShuttingDown w then ret true else
  fileHash <- calculateFileHash urlFile ;;
  if isFileProcessed (state w) urlFile fileHash then ret false else
  processUrlFile config urlFile ;; ret false.

(** A path that [new URL] refuses, so that it is not the key of a URL
    in the ledger. *)
Definition notUrl (p : string) : Prop := URL_parse p = None.

Definition allCompleted (jobs : list ProcessingJob) : Prop :=
  Forall (fun job => job_status job = completed) jobs.

(** The cycle has ended and every job of it has reached [completed]. *)
Definition cycleCompleted (o : Out (option (list ProcessingJob))) : Prop :=
  exists jobs, res o = Val (Some jobs) /\ allCompleted jobs.

(** The number of times the conversion service has been started. *)
Definition gatewayCalls (evs : list event) : nat :=
  length (List.filter is_spawn evs).

(** The cycle that follows the cycle from [h] and [w]. *)
Definition secondCycle (config : Config) (h : list event) (w : World)
  : Out (option (list ProcessingJob)) :=
  let first := cycleBody config h w in
  cycleBody config (h ++ events first) (world first).

(** The end of [processUrlFile]: the mark for the list itself. *)
Definition listMark (urlFilePath : string) : M unit :=
  urlFileHash <- calculateFileHash urlFilePath ;;
  markFileProcessed urlFilePath urlFileHash "url-list-processed" 0.

End Idempotence.

(** * Further parts of the sources *)

(** ** The ledger as JSON *)




(** ** config.ts: reading the environment *)

Definition is_digit (c : ascii) : bool :=
  let n := nat_of_ascii c in (48 <=? n)%nat && (n <=? 57)%nat.

Definition digit_value (c : ascii) : Z := Z.of_nat (nat_of_ascii c) - 48.

(** The value of the longest prefix of decimal digits, read from the
    left with [acc] for the digits before. *)
Fixpoint digits_value (acc : Z) (s : string) : Z :=
  match s with
  | String c r =>
      if is_digit c then digits_value (10 * acc + digit_value c) r else acc
  | EmptyString => acc
  end.

(** Text at which the reading of digits stops: it is empty or starts
    with a character that is not a digit. *)
Definition stops (rest : string) : Prop :=
  match rest with
  | String c _ => is_digit c = false
  | EmptyString => True
  end.

(** [Number.parseInt(s, 10)]: leading white space is skipped, a sign is
    read, then the digits up to the first other character; [None] is
    [NaN], the result when there is no digit. *)
Definition Number_parseInt (s : string) : option Z :=
  let trimmed := JS.trimStart s in
  let '(sign, body) :=
    match trimmed with
    | String "-" r => (-1, r)
    | String "+" r => (1, r)
    | _ => (1, trimmed)
    end in
  match body with
  | String c _ => if is_digit c then Some (sign * digits_value 0 body) else None
  | EmptyString => None
  end.

Definition parseBool (value : option string) (defaultValue : bool) : bool :=
  match value with
  | None => defaultValue
  | Some v => String.eqb (JS.toLowerCase v) "true" || String.eqb v "1"
  end.

Definition parseInt (value : option string) (defaultValue : Z) : Z :=
  match value with
  | None => defaultValue
  | Some v =>
      match Number_parseInt v with
      | None => defaultValue
      | Some parsed => parsed
      end
  end.

(** [process.env] is a map from names to strings. *)
Definition loadConfig (env : gmap string string) : Config := {|
  watchInterval := parseInt (env !! "WATCH_INTERVAL") 30;
  concurrentJobs := parseInt (env !! "CONCURRENT_JOBS") 4;
  recursive := parseBool (env !! "RECURSIVE") true;
  outputFormat := JS.or_else (env !! "OUTPUT_FORMAT") "markdown";
  addTimestamp := parseBool (env !! "ADD_TIMESTAMP") true;
  skipExisting := parseBool (env !! "SKIP_EXISTING") true;
  preserveStructure := parseBool (env !! "PRESERVE_STRUCTURE") true;
  hashFile := JS.or_else (env !! "HASH_FILE") ".processed.json";
  fetchUrls := parseBool (env !! "FETCH_URLS") true;
  urlFile := JS.or_else (env !! "URL_FILE") "urls.txt";
  fetchTimeout := parseInt (env !! "FETCH_TIMEOUT") 30000;
  userAgent :=
    JS.or_else (env !! "USER_AGENT") "Mozilla/5.0 (compatible; KreuzbergBot/1.0)";
  playwrightEnabled := parseBool (env !! "PLAYWRIGHT_ENABLED") true;
  playwrightWait := parseInt (env !! "PLAYWRIGHT_WAIT") 5000;
  playwrightTimeout := parseInt (env !! "PLAYWRIGHT_TIMEOUT") 60000;
  browserlessEnabled := parseBool (env !! "BROWSERLESS_ENABLED") true;
  browserlessUrl :=
    JS.or_else (env !! "BROWSERLESS_URL") "http://browserless:3000";
  browserlessToken := JS.or_else (env !! "BROWSERLESS_TOKEN") EmptyString;
  maxRetries := parseInt (env !! "MAX_RETRIES") 3;
  retryDelay := parseInt (env !! "RETRY_DELAY") 5000;
  kreuzbergConfig :=
    JS.or_else (env !! "KREUZBERG_CONFIG") "/config/kreuzberg.toml";
  ocrEnabled := parseBool (env !! "OCR_ENABLED") true;
  ocrLanguage := JS.or_else (env !! "OCR_LANGUAGE") "eng";
  qualityProcessing := parseBool (env !! "QUALITY_PROCESSING") true;
  inputDir := JS.or_else (env !! "INPUT_DIR") "/files/input";
  outputDir := JS.or_else (env !! "OUTPUT_DIR") "/files/output";
  errorDir := JS.or_else (env !! "ERROR_DIR") "/files/error";
  logLevel := JS.or_else (env !! "LOG_LEVEL") "info";
  verbose := parseBool (env !! "VERBOSE") false
|}.


(** ** fetcher.ts: the later revision and the shape of a result *)

Fixpoint string_all (test : ascii -> bool) (s : string) : bool :=
  match s with
  | EmptyString => true
  | String c r => test c && string_all test r
  end.

(** The characters that [urlToFilename] leaves in a name that it
    derives from the path of a URL. *)
Definition safe_char (c : ascii) : bool :=
  JS.is_alnum c || Ascii.eqb c "_"%char || Ascii.eqb c "-"%char.

(** A result object as the layers build it: a success carries no error,
    a failure carries an error and no page. *)
Definition resultFor (url : string) (r : FetchResult) : Prop :=
  fr_url r = url /\
  if success r then fr_error r = None
  else html r = EmptyString /\ is_Some (fr_error r).

(** The result of the later revision when both layers have failed. *)
Definition bothFailed (url : string) : FetchResult :=
  mkFetchResult url "" false playwright (Some "All fetch methods failed").

Section FetcherLater.
Context `{Platform}.

(** [parseUrlFile] of the later revision, with the loop that pushes. *)
Definition parseUrlFile_push (filePath : string) : M (list UrlEntry) :=
  try_catch
    (ex <- input_exists filePath ;;
     if negb ex then ret []
     else
       content <- input_text filePath ;;
       ret (parseUrlLines_push (nonBlankLines content) []))
    (fun _ => ret []).

(** The lines of a list that are not comments. *)
Definition nonCommentLines (content : string) : list string :=
  filter (fun l => JS.startsWith (JS.trim l) "#" = false) (nonBlankLines content).

End FetcherLater.

(** ** processor.ts: the path of the output and the trace of a job *)

Section ProcessorPaths.
Context `{Platform}.

(** The path that [generateOutputPath] gives when the clock reads
    [iso]. *)
Definition outputPathAt (config : Config) (iso inputPath : string) : string :=
  let relativePath := relative (inputDir config) inputPath in
  let dirName := dirname relativePath in
  let baseName := basename relativePath (extname relativePath) in
  let outputFileName :=
    if addTimestamp config
    then baseName +:+ "_" +:+ compactTimestamp iso +:+ ".md"
    else baseName +:+ ".md" in
  if preserveStructure config && negb (String.eqb dirName ".")
  then join (join (outputDir config) dirName) outputFileName
  else join (outputDir config) outputFileName.

End ProcessorPaths.

(** [k] attempts that fail, each followed by the delay. *)
Fixpoint failedAttempts (k : nat) (cmd : list string) (delay : Z) : list event :=
  match k with
  | O => []
  | S k' => EvSpawn cmd :: EvSleep delay :: failedAttempts k' cmd delay
  end.

(** The file system only grows: a path that is there stays there. *)
Definition fsGrows : relation World := fun w w' =>
  forall p, is_Some (fs w !! p) -> is_Some (fs w' !! p).



(** ** main.ts: what a cycle keeps *)

(** The ledger only grows: its version stays, and a key that has an
    entry keeps having one. *)
Definition ledgerGrows : relation World := fun w w' =>
  version (state w') = version (state w) /\
  isShuttingDown w' = isShuttingDown w /\
  forall k, is_Some (files (state w) !! k) -> is_Some (files (state w') !! k).

(** ** watcher.ts: the scan of the input tree *)

Section WatcherScan.
Context `{Platform}.

(** The loop of [scanDirectory] over the items of [dir]; [scanSub] is
    the recursive call for a sub-directory. *)
Fixpoint scanItems (scanSub : string -> option (list FileEntry))
  (dir baseDir : string) (items : list Dirent) : option (list FileEntry) :=
  match items with
  | [] => Some []
  | item :: rest =>
      let fullPath := join dir (name item) in
      let relativePath := relative baseDir fullPath in
      if JS.startsWith (name item) "." then scanItems scanSub dir baseDir rest
      else if dirent_isDirectory item then
        match scanSub fullPath, scanItems scanSub dir baseDir rest with
        | Some sub, Some entries =>
            Some (mkFileEntry fullPath relativePath true false :: sub ++ entries)
        | _, _ => None
        end
      else if isFile item then
        match scanItems scanSub dir baseDir rest with
        | Some entries =>
            Some (if isSupportedFile fullPath
                  then mkFileEntry fullPath relativePath false false :: entries
                  else entries)
        | None => None
        end
      else scanItems scanSub dir baseDir rest
  end.

(** [scanDirectory(dir, baseDir, recursive)].  The function is
    synchronous, so that the whole scan sees one state of the input tree,
    the one at the history [h].  A directory that does not exist and one
    that cannot be read both give no entries: [readdirSync] answering
    [None] stands for the two.  [fuel] bounds the depth of the
    recursion; [None] tells that it ran out. *)
Fixpoint scanDirectory (fuel : nat) (h : list event) (dir baseDir : string)
  (recursive : bool) : option (list FileEntry) :=
  match fuel with
  | O => None
  | S fuel' =>
      match readdirSync h dir with
      | None => Some []
      | Some items =>
          scanItems
            (fun sub => if recursive
                        then scanDirectory fuel' h sub baseDir recursive
                        else Some [])
            dir baseDir items
      end
  end.

(** [getAllInputFiles] on the scan itself. *)
Definition getAllInputFiles_scan (fuel : nat) (h : list event) (config : Config)
  : option (list FileEntry) :=
  match scanDirectory fuel h (inputDir config) (inputDir config)
          (recursive config) with
  | Some entries => Some (filter (fun entry => isDirectory entry = false) entries)
  | None => None
  end.

(** An entry that the scan may give: it is for an item of a directory
    that was listed, the item is not hidden, and a file among them has a
    supported extension. *)
Definition scanned (h : list event) (baseDir : string) (entry : FileEntry)
  : Prop :=
  isUrl entry = false /\
  relativePath entry = relative baseDir (path entry) /\
  (isDirectory entry = false -> isSupportedFile (path entry) = true) /\
  exists dir items item,
    readdirSync h dir = Some items /\ item ∈ items /\
    path entry = join dir (name item) /\
    JS.startsWith (name item) "." = false /\
    dirent_isDirectory item = isDirectory entry.

(** A bound on the depth of the tree below a directory. *)
Definition depthBound (h : list event) (rank : string -> nat) : Prop :=
  forall dir items item,
    readdirSync h dir = Some items -> item ∈ items ->
    dirent_isDirectory item = true ->
    (rank (join dir (name item)) < rank dir)%nat.

(** [generateTimestamp()] *)
Definition generateTimestamp : M string :=
  iso <- now_iso ;; ret (compactTimestamp iso).

End WatcherScan.

(** A string of the form of [pattern], in which [d] stands for a digit
    and every other character for itself. *)
Fixpoint matchesPattern (pattern s : string) : bool :=
  match pattern, s with
  | EmptyString, EmptyString => true
  | String "d" p, String c r => is_digit c && matchesPattern p r
  | String x p, String c r => Ascii.eqb x c && matchesPattern p r
  | _, _ => false
  end.

(** The form of [toISOString()] for the years 0 to 9999. *)
Definition isoPattern : string := "dddd-dd-ddTdd:dd:dd.dddZ".

(** ** Further scenarios *)

Module Cases.

(** [new URL(s)] for an absolute URL without query and fragment: the
    host ends at the first slash, and the path is the rest. *)
Fixpoint hostOf (s : string) : string :=
  match s with
  | EmptyString => EmptyString
  | String c r => if Ascii.eqb c "/" then EmptyString else String c (hostOf r)
  end.

Definition pathOf (s : string) : string :=
  match Sim.drop (String.length (hostOf s)) s with
  | EmptyString => "/"
  | rest => rest
  end.

Definition parseURL (s : string) : option URL :=
  if String.prefix "https://" s
  then Some (mkURL "https:" (hostOf (Sim.drop 8 s)) (pathOf (Sim.drop 8 s)))
  else if String.prefix "http://" s
  then Some (mkURL "http:" (hostOf (Sim.drop 7 s)) (pathOf (Sim.drop 7 s)))
  else None.

(** The platform of a scenario with URLs that have a path. *)
Definition withPaths (sc : Sim.Scenario) : Platform :=
  let P := Sim.platform sc in {|
  md5 := @md5 P;
  URL_parse := parseURL;
  join := @join P;
  relative := @relative P;
  dirname := @dirname P;
  basename := @basename P;
  extname := @extname P;
  JSON_parse := @JSON_parse P;
  JSON_stringify := @JSON_stringify P;
  toISOString := @toISOString P;
  env_FORCE_OCR := @env_FORCE_OCR P;
  Date_now := @Date_now P;
  input_file := @input_file P;
  readdirSync := @readdirSync P;
  scanInput := @scanInput P;
  spawn := @spawn P;
  http_get := @http_get P;
  browser_launch := @browser_launch P;
  browser_render := @browser_render P;
  http_post := @http_post P
|}.

(** A service that is busy for its first [k] starts and works then. *)
Definition failsFirst (k : nat) : list event -> list string -> SpawnResult :=
  fun h _ =>
    if (gatewayCalls h <=? k)%nat then Exited "" "service busy" 1
    else Exited "extracted text" "" 0.



(** An input directory with a hidden file, a document and a file of
    an extension that is not supported. *)
Definition mixedTree : Sim.Scenario :=
  Sim.mkScenario
    [("/files/input/.draft.pdf", "PDF draft"); ("/files/input/a.pdf", "PDF a");
     ("/files/input/notes.xyz", "notes")]
    [mkDirent ".draft.pdf" true false; mkDirent "a.pdf" true false;
     mkDirent "notes.xyz" true false]
    [Sim.fileEntry "a.pdf"] Sim.alwaysWorks Sim.offline [] Sim.contentDigest.

(** The world once a signal has raised the shutdown flag. *)
Definition stopping : World :=
  mkWorld (fs Sim.world0) (state Sim.world0) true.

(** An environment with an interval that is not a number, and one with
    an interval and a retry limit out of range. *)
Definition envNoNumber : gmap string string :=
  {[ "WATCH_INTERVAL" := "soon" ]}.

Definition envOutOfRange : gmap string string :=
  <["WATCH_INTERVAL" := "0"]>
    (<["CONCURRENT_JOBS" := "4"]> (<["MAX_RETRIES" := "-1"]> ∅)).

End Cases.

(** * Properties *)

(** Evaluation of the monad's operations and of the system calls, with
    the lookups in the file system and in the ledger left as they are. *)
Ltac msimpl :=
  lazy beta iota zeta delta
    [after bind try_catch try_finally ret throw emit get_world get_history
     modify_world now now_iso Bun_sleep existsSync readFileSync put_file
     writeFileSync Bun_write Bun_write_detached mkdirSync input_exists
     input_text copyFileSync];
  cbn [res world events fs state isShuttingDown set_state set_fs negb app];
  rewrite ?app_nil_r, <- ?app_assoc; cbn [app].

(** ** The monad *)

Lemma out_eta {A} (o : Out A) : o = mkOut (res o) (world o) (events o).
Proof. by destruct o. Qed.

Lemma after_nil {A} (o : Out A) : after [] o = o.
Proof. by destruct o. Qed.

Lemma after_after {A} e1 e2 (o : Out A) :
  after e1 (after e2 o) = after (e1 ++ e2) o.
Proof. destruct o. cbn [after]. by rewrite app_assoc. Qed.

Lemma res_after {A} e (o : Out A) : res (after e o) = res o.
Proof. by destruct o. Qed.

Lemma world_after {A} e (o : Out A) : world (after e o) = world o.
Proof. by destruct o. Qed.

Lemma events_after {A} e (o : Out A) : events (after e o) = e ++ events o.
Proof. by destruct o. Qed.

Lemma bind_val {A B} (m : M A) (k : A -> M B) h w a w1 e1 :
  m h w = mkOut (Val a) w1 e1 ->
  bind m k h w = after e1 (k a (h ++ e1) w1).
Proof. intros E. unfold bind. by rewrite E. Qed.

Lemma bind_throw {A B} (m : M A) (k : A -> M B) h w msg w1 e1 :
  m h w = mkOut (Throw msg) w1 e1 ->
  bind m k h w = mkOut (Throw msg) w1 e1.
Proof. intros E. unfold bind. by rewrite E. Qed.

(** A computation that reads only. *)
Lemma bind_pure {A B} (m : M A) (k : A -> M B) h w a :
  m h w = mkOut (Val a) w [] -> bind m k h w = k a h w.
Proof.
  intros E. rewrite (bind_val _ _ _ _ _ _ _ E). by rewrite app_nil_r, after_nil.
Qed.

(** A bind that returns has run both of its parts. *)
Lemma bind_inv {A B} (m : M A) (k : A -> M B) h w b :
  res (bind m k h w) = Val b ->
  exists a w1 e1,
    m h w = mkOut (Val a) w1 e1 /\
    res (k a (h ++ e1) w1) = Val b /\
    bind m k h w = after e1 (k a (h ++ e1) w1).
Proof.
  unfold bind. destruct (m h w) as [[a|msg] w1 e1]; [|done].
  rewrite res_after. intros E. by exists a, w1, e1.
Qed.

(** Two continuations that agree on what the first part returns. *)
Lemma bind_ext {A B} (m : M A) (k1 k2 : A -> M B) h w :
  (forall a w1 e1, m h w = mkOut (Val a) w1 e1 ->
     k1 a (h ++ e1) w1 = k2 a (h ++ e1) w1) ->
  bind m k1 h w = bind m k2 h w.
Proof.
  intros E. unfold bind. destruct (m h w) as [[a|msg] w1 e1]; [|done].
  by rewrite (E a w1 e1).
Qed.

(** ** Programs that obey a compositional specification *)

Section Obeys.
Context (Q : Spec) `{!Compositional Q}.

Lemma obeys_ret {A} (a : A) : obeys Q (ret a).
Proof. intros h w. apply spec_nil. Qed.

Lemma obeys_throw {A} msg : obeys Q (@throw A msg).
Proof. intros h w. apply spec_nil. Qed.

Lemma obeys_after {A} (o : Out A) h w e1 w1 :
  Q h w e1 w1 -> Q (h ++ e1) w1 (events o) (world o) ->
  Q h w (events (after e1 o)) (world (after e1 o)).
Proof. rewrite events_after, world_after. apply (spec_app h w e1 w1). Qed.

Lemma obeys_bind {A B} (m : M A) (k : A -> M B) :
  obeys Q m -> (forall a, obeys Q (k a)) -> obeys Q (bind m k).
Proof.
  intros Hm Hk h w. unfold bind. specialize (Hm h w).
  destruct (m h w) as [[a|msg] w1 e1]; [|done].
  apply (obeys_after _ h w e1 w1); [exact Hm | apply Hk].
Qed.

Lemma obeys_try_catch {A} (m : M A) (hd : string -> M A) :
  obeys Q m -> (forall msg, obeys Q (hd msg)) -> obeys Q (try_catch m hd).
Proof.
  intros Hm Hk h w. unfold try_catch. specialize (Hm h w).
  destruct (m h w) as [[a|msg] w1 e1]; [done|].
  apply (obeys_after _ h w e1 w1); [exact Hm | apply Hk].
Qed.

Lemma obeys_try_finally {A} (m : M A) (fin : M unit) :
  obeys Q m -> obeys Q fin -> obeys Q (try_finally m fin).
Proof.
  intros Hm Hk h w. unfold try_finally. specialize (Hm h w).
  destruct (m h w) as [r w1 e1]. specialize (Hk (h ++ e1) w1).
  destruct (fin (h ++ e1) w1) as [[u|msg] w2 e2]; by eapply spec_app.
Qed.

Lemma obeys_get_world : obeys Q get_world.
Proof. intros h w. apply spec_nil. Qed.

Lemma obeys_get_history : obeys Q get_history.
Proof. intros h w. apply spec_nil. Qed.

Lemma obeys_emit e : (forall h w, Q h w [e] w) -> obeys Q (emit e).
Proof. intros He h w. apply He. Qed.

Lemma obeys_modify f : (forall h w, Q h w [] (f w)) -> obeys Q (modify_world f).
Proof. intros Hf h w. apply Hf. Qed.

Lemma obeys_promise_all {A} (ms : list (M A)) :
  Forall (obeys Q) ms -> obeys Q (promise_all ms).
Proof.
  induction 1 as [|m ms Hm _ IH]; intros h w; cbn [promise_all].
  - apply spec_nil.
  - specialize (Hm h w). destruct (m h w) as [r w1 e1].
    specialize (IH (h ++ e1) w1).
    destruct (promise_all ms (h ++ e1) w1) as [r' w2 e2].
    by eapply spec_app.
Qed.

Lemma obeys_for_of {A} (xs : list A) (body : A -> M bool) :
  (forall x, obeys Q (body x)) -> obeys Q (for_of xs body).
Proof.
  intros Hb. induction xs as [|x xs IH]; cbn [for_of].
  - apply obeys_ret.
  - apply obeys_bind; [apply Hb|]. intros []; [apply obeys_ret | apply IH].
Qed.
End Obeys.

#[local] Instance stepwise_compositional R P `{!PreOrder R} :
  Compositional (stepwise R P).
Proof.
  split.
  - intros h w. split; [reflexivity | constructor].
  - intros h w e1 w1 e2 w2 [? ?] [? ?]. split; [by etrans | by apply Forall_app].
Qed.

#[local] Instance sameLedger_preorder : PreOrder sameLedger.
Proof.
  split; [by intros w|]. intros a b c [? ?] [? ?]. split; congruence.
Qed.

#[local] Instance sameFlag_preorder : PreOrder sameFlag.
Proof. split; [by intros w|]. intros a b c. unfold sameFlag. congruence. Qed.

#[local] Instance eq_world_preorder : PreOrder (@eq World).
Proof. split; [by intros w|]. intros a b c. congruence. Qed.

Lemma stepwise_emit R P `{!PreOrder R} e : P e -> obeys (stepwise R P) (emit e).
Proof. intros He h w. split; [reflexivity | by repeat constructor]. Qed.

Lemma stepwise_modify R P `{!PreOrder R} f :
  (forall w, R w (f w)) -> obeys (stepwise R P) (modify_world f).
Proof. intros Hf h w. split; [apply Hf | constructor]. Qed.

(** A weaker relation and a larger class of events. *)
Lemma stepwise_weaken (R R' : relation World) (P P' : event -> Prop) {A} (m : M A) :
  (forall w w', R w w' -> R' w w') -> (forall e, P e -> P' e) ->
  obeys (stepwise R P) m -> obeys (stepwise R' P') m.
Proof.
  intros HR HP Hm h w. destruct (Hm h w) as [? ?].
  split; [by apply HR | by eapply Forall_impl].
Qed.

(** ** Programs that never throw *)

Lemma nothrow_ret {A} (a : A) : nothrow (ret a).
Proof. intros h w. by exists a. Qed.

Lemma nothrow_bind {A B} (m : M A) (k : A -> M B) :
  nothrow m -> (forall a, nothrow (k a)) -> nothrow (bind m k).
Proof.
  intros Hm Hk h w. unfold bind. destruct (Hm h w) as [a Ha].
  destruct (m h w) as [[a'|msg] w1 e1]; [|done].
  rewrite res_after. apply Hk.
Qed.

Lemma nothrow_try_catch {A} (m : M A) (hd : string -> M A) :
  (forall msg, nothrow (hd msg)) -> nothrow (try_catch m hd).
Proof.
  intros Hk h w. unfold try_catch. destruct (m h w) as [[a|msg] w1 e1].
  - by exists a.
  - rewrite res_after. apply Hk.
Qed.

Lemma nothrow_emit e : nothrow (emit e).
Proof. intros h w. by exists tt. Qed.

Lemma nothrow_get_world : nothrow get_world.
Proof. intros h w. by exists w. Qed.

Lemma nothrow_get_history : nothrow get_history.
Proof. intros h w. by exists h. Qed.

Lemma nothrow_modify f : nothrow (modify_world f).
Proof. intros h w. by exists tt. Qed.

(** A computation that never throws has an outcome of this form. *)
Lemma nothrow_run {A} (m : M A) h w :
  nothrow m -> exists a, m h w = mkOut (Val a) (world (m h w)) (events (m h w)).
Proof. intros Hn. destruct (Hn h w) as [a E]. exists a. by rewrite <- E, <- out_eta. Qed.

Lemma obeys_now `{Platform} Q `{!Compositional Q} : obeys Q now.
Proof. intros h w. apply spec_nil. Qed.

Lemma nothrow_now `{Platform} : nothrow now.
Proof. intros h w. by eexists. Qed.

(** Walks through a program and discharges [obeys] and [nothrow] goals,
    leaving the side conditions on emitted events and on updates. *)
Ltac unfold_syscall m :=
  lazymatch m with
  | now_iso => unfold now_iso
  | Bun_sleep _ => unfold Bun_sleep
  | existsSync _ => unfold existsSync
  | readFileSync _ => unfold readFileSync
  | put_file _ _ => unfold put_file
  | writeFileSync _ _ => unfold writeFileSync
  | Bun_write _ _ => unfold Bun_write
  | Bun_write_detached _ _ => unfold Bun_write_detached
  | mkdirSync _ => unfold mkdirSync
  | input_exists _ => unfold input_exists
  | input_text _ => unfold input_text
  | copyFileSync _ _ => unfold copyFileSync
  end.

Ltac prog_step :=
  match goal with
  | |- obeys _ (bind _ _) => apply obeys_bind; [typeclasses eauto| |intros ?]
  | |- obeys _ (ret _) => apply obeys_ret; typeclasses eauto
  | |- obeys _ (throw _) => apply obeys_throw; typeclasses eauto
  | |- obeys _ (try_catch _ _) =>
      apply obeys_try_catch; [typeclasses eauto| |intros ?]
  | |- obeys _ (try_finally _ _) =>
      apply obeys_try_finally; [typeclasses eauto| |]
  | |- obeys _ get_world => apply obeys_get_world; typeclasses eauto
  | |- obeys _ get_history => apply obeys_get_history; typeclasses eauto
  | |- obeys _ now => apply obeys_now; typeclasses eauto
  | |- obeys (stepwise _ _) (emit _) => apply stepwise_emit; [typeclasses eauto|]
  | |- obeys (stepwise _ _) (modify_world _) =>
      apply stepwise_modify; [typeclasses eauto|intros ?]
  | |- obeys _ (for_of _ _) => apply obeys_for_of; [typeclasses eauto|intros ?]
  | |- obeys _ (if ?b then _ else _) => destruct b
  | |- obeys _ (match ?x with _ => _ end) => destruct x
  | |- obeys _ ?m => unfold_syscall m
  | |- nothrow (bind _ _) => apply nothrow_bind; [|intros ?]
  | |- nothrow (ret _) => apply nothrow_ret
  | |- nothrow (try_catch _ _) => apply nothrow_try_catch; intros ?
  | |- nothrow (emit _) => apply nothrow_emit
  | |- nothrow get_world => apply nothrow_get_world
  | |- nothrow get_history => apply nothrow_get_history
  | |- nothrow now => apply nothrow_now
  | |- nothrow (modify_world _) => apply nothrow_modify
  | |- nothrow (if ?b then _ else _) => destruct b
  | |- nothrow (match ?x with _ => _ end) => destruct x
  | |- nothrow ?m => unfold_syscall m
  end.

Ltac prog := repeat prog_step.

(** ** The ledger *)

Section Ledger.
Context `{Platform}.

(** [isFileProcessed] is true exactly when the key has an entry whose
    stored hash is the fresh fingerprint. *)
Lemma isFileProcessed_iff (st : ProcessedState) (key fresh : string) :
  isFileProcessed st key fresh = true <->
  exists entry, files st !! key = Some entry /\ hash entry = fresh.
Proof.
  unfold isFileProcessed. destruct (files st !! key) as [e|].
  - rewrite String.eqb_eq. split; [eauto|]. by intros (e' & [= <-] & ?).
  - split; [done|]. by intros (e' & ? & ?).
Qed.

(** What a save does: it sets [lastUpdated], never throws, and
    writes the whole ledger with one [writeFileSync] onto the file. *)
Lemma saveProcessedState_effect (p : string) (h : list event) (w : World) :
  let st := setLastUpdated (toISOString (Date_now h)) (state w) in
  let o := saveProcessedState p h w in
  res o = Val tt /\
  events o = [EvWriteFileSync p (JSON_stringify st)] /\
  state (world o) = st /\
  isShuttingDown (world o) = isShuttingDown w /\
  fs (world o) = match fs w !! p with
                 | Some Dir => fs w
                 | _ => <[p := File (JSON_stringify st)]> (fs w)
                 end.
Proof.
  unfold saveProcessedState. msimpl.
  destruct (fs w !! p) as [[c|]|] eqn:E; msimpl; by repeat split.
Qed.

(** C3 (as amended).  A save sets the [lastUpdated] of the ledger and
    writes the whole ledger, and it does so with one [writeFileSync]
    onto the live file: the live file is rewritten in place, nothing
    is renamed onto it, and the only event of the save is that write.
    A failure of the write is caught, so that a save never throws. *)
Theorem saveProcessedState_in_place (p : string) (h : list event) (w : World) :
  let st := setLastUpdated (toISOString (Date_now h)) (state w) in
  let o := saveProcessedState p h w in
  res o = Val tt /\
  state (world o) = st /\
  events o = [EvWriteFileSync p (JSON_stringify st)] /\
  rewritesInPlace p (events o) /\
  ~ renamesOnto p (events o) /\
  ~ atomicSave p (events o) /\
  fs (world o) = match fs w !! p with
                 | Some Dir => fs w
                 | _ => <[p := File (JSON_stringify st)]> (fs w)
                 end.
Proof.
  intros st o.
  destruct (saveProcessedState_effect p h w) as (Hr & He & Hs & _ & Hfs).
  fold st o in Hr, He, Hs, Hfs.
  assert (Hin : rewritesInPlace p (events o)).
  { exists (JSON_stringify st). rewrite He. by left. }
  assert (Hno : ~ renamesOnto p (events o)).
  { intros [tmp Ht]. rewrite He in Ht. by destruct Ht as [?|[]]. }
  repeat split; try done. by intros [Hn _].
Qed.

(** C7. A missing ledger file, an unparseable one and one of another
    version all give a fresh empty ledger, and no error. *)
Theorem loadProcessedState_fresh (p : string) (h : list event) (w : World) :
  fs w !! p = None \/
  (exists c, fs w !! p = Some (File c) /\ JSON_parse c = None) \/
  (exists c j, fs w !! p = Some (File c) /\ JSON_parse c = Some j /\
               json_get "version" j <> Some (JStr STATE_VERSION)) ->
  loadProcessedState p h w =
  mkOut (Val (Typed (emptyState (toISOString (Date_now h))))) w [].
Proof.
  intros Hc. unfold loadProcessedState. msimpl.
  destruct Hc as [E | [(c & E & Ep) | (c & j & E & Ep & Hv)]].
  - rewrite bool_decide_eq_false_2 by (rewrite E; by intros [? ?]). done.
  - rewrite bool_decide_eq_true_2 by (rewrite E; eauto).
    msimpl. rewrite E. msimpl. rewrite Ep. by msimpl.
  - rewrite bool_decide_eq_true_2 by (rewrite E; eauto).
    msimpl. rewrite E. msimpl. rewrite Ep.
    destruct j; msimpl; try done.
    unfold version_mismatch; cbn [json_get] in *.
    destruct (assoc "version" fields) as [[]|]; msimpl; try done.
    destruct (String.eqb_spec s STATE_VERSION) as [->|]; [done|]. by msimpl.
Qed.

End Ledger.

(** ** The URL list and the resolver *)

Section FetcherFacts.
Context `{Platform}.

Lemma parseUrlFile_run p h w :
  parseUrlFile p h w =
  mkOut (Val (match input_file h p with
              | Some content => parseUrlContent content
              | None => []
              end)) w [].
Proof.
  unfold parseUrlFile. msimpl. destruct (input_file h p) as [c|] eqn:E.
  - rewrite bool_decide_eq_true_2 by eauto. msimpl. rewrite E. by msimpl.
  - rewrite bool_decide_eq_false_2 by (by intros [? ?]). by msimpl.
Qed.

(** Both revisions of [parseUrlFile] keep the same entries. *)
Lemma parseUrlLines_push_spec lines urls :
  parseUrlLines_push lines urls = urls ++ omap parseUrlLine lines.
Proof.
  revert urls.
  induction lines as [|line rest IH]; intros urls;
    cbn [parseUrlLines_push omap list_omap].
  - by rewrite app_nil_r.
  - unfold parseUrlLine at 1.
    destruct (JS.startsWith (JS.trim line) "#"); [apply IH|].
    destruct (URL_parse (firstToken (JS.trim line))); rewrite IH; [|done].
    by rewrite <- app_assoc.
Qed.

Lemma scenario_lines :
  nonBlankLines urlListScenario
  = ["# comment"; "https://a.example x"; "not-a-url"].
Proof. by vm_compute. Qed.

(** C9. The scenario file parses to the one entry; comment lines and
    lines whose first token is not a URL are dropped, and parsing
    never fails. *)
Theorem parseUrlFile_scenario (u : URL) :
  URL_parse "https://a.example" = Some u ->
  URL_parse "not-a-url" = None ->
  parseUrlContent urlListScenario = [mkUrlEntry "https://a.example" (Some "x")]
  /\ (forall p h w, input_file h p = Some urlListScenario ->
        parseUrlFile p h w =
        mkOut (Val [mkUrlEntry "https://a.example" (Some "x")]) w [])
  /\ (forall line, JS.startsWith (JS.trim line) "#" = true ->
        parseUrlLine line = None)
  /\ (forall line, JS.startsWith (JS.trim line) "#" = false ->
        parseUrlLine line =
        match URL_parse (firstToken (JS.trim line)) with
        | Some _ => Some (mkUrlEntry (firstToken (JS.trim line))
                                     (secondToken (JS.trim line)))
        | None => None
        end)
  /\ (forall p h w, exists urls, parseUrlFile p h w = mkOut (Val urls) w []).
Proof.
  intros Hok Hbad.
  assert (Hs : parseUrlContent urlListScenario
               = [mkUrlEntry "https://a.example" (Some "x")]).
  { assert (L1 : parseUrlLine "# comment" = None) by (by vm_compute).
    assert (L2 : parseUrlLine "https://a.example x"
                 = Some (mkUrlEntry "https://a.example" (Some "x"))).
    { unfold parseUrlLine.
      replace (JS.trim "https://a.example x") with "https://a.example x"
        by (by vm_compute).
      replace (JS.startsWith "https://a.example x" "#") with false
        by (by vm_compute).
      replace (firstToken "https://a.example x") with "https://a.example"
        by (by vm_compute).
      replace (secondToken "https://a.example x") with (Some "x")
        by (by vm_compute).
      by rewrite Hok. }
    assert (L3 : parseUrlLine "not-a-url" = None).
    { unfold parseUrlLine.
      replace (JS.trim "not-a-url") with "not-a-url" by (by vm_compute).
      replace (JS.startsWith "not-a-url" "#") with false by (by vm_compute).
      replace (firstToken "not-a-url") with "not-a-url" by (by vm_compute).
      by rewrite Hbad. }
    unfold parseUrlContent. rewrite scenario_lines.
    cbn [omap list_omap]. by rewrite L1, L2, L3. }
  split; [exact Hs|]. split; [|split; [|split]].
  - intros p h w E. by rewrite parseUrlFile_run, E, Hs.
  - intros line E. unfold parseUrlLine. by rewrite E.
  - intros line E. unfold parseUrlLine. by rewrite E.
  - intros p h w. eexists. apply parseUrlFile_run.
Qed.












End FetcherFacts.


(** ** The processor *)

Section ProcessorFacts.
Context `{Platform}.

Lemma existsSync_run p h w :
  existsSync p h w = mkOut (Val (bool_decide (is_Some (fs w !! p)))) w [].
Proof. done. Qed.

Lemma input_text_run p h w c :
  input_file h p = Some c -> input_text p h w = mkOut (Val c) w [].
Proof. intros E. msimpl. rewrite E. by msimpl. Qed.

(** One attempt: the process is started once; the output is written
    when it exits with code 0, and any failure becomes a result. *)
Lemma extractDocument_run inputPath outputPath cfg h w :
  let cmd := kreuzbergCommand inputPath cfg
               (bool_decide (is_Some (fs w !! kreuzbergConfig cfg))) in
  extractDocument inputPath outputPath cfg h w =
  match spawn (h ++ [EvSpawn cmd]) cmd with
  | Exited stdout stderr 0 =>
      match fs w !! outputPath with
      | Some Dir =>
          mkOut (Val (mkExtractResult false None
                        (Some "EISDIR: illegal operation on a directory, open")))
                w [EvSpawn cmd; EvBunWrite outputPath stdout]
      | _ =>
          mkOut (Val (mkExtractResult true (Some stdout) None))
                (set_fs (<[outputPath := File stdout]> (fs w)) w)
                [EvSpawn cmd; EvBunWrite outputPath stdout]
      end
  | r => mkOut (Val (mkExtractResult false None (Some (failureMessage r))))
               w [EvSpawn cmd]
  end.
Proof.
  intros cmd. unfold extractDocument. msimpl.
  fold (kreuzbergCommand inputPath cfg
          (bool_decide (is_Some (fs w !! kreuzbergConfig cfg)))). fold cmd.
  destruct (spawn (h ++ [EvSpawn cmd]) cmd) as [msg|so se code]; msimpl; [done|].
  destruct (Z.eqb_spec code 0) as [->|Hne]; msimpl.
  - destruct (fs w !! outputPath) as [[c|]|]; by msimpl.
  - by destruct code.
Qed.

Lemma extractDocument_nothrow i o cfg : nothrow (extractDocument i o cfg).
Proof. unfold extractDocument. prog. Qed.

(** An attempt that the service fails changes nothing in the world. *)
Lemma extractDocument_fails inputPath outputPath cfg h w :
  let cmd := kreuzbergCommand inputPath cfg
               (bool_decide (is_Some (fs w !! kreuzbergConfig cfg))) in
  serviceFails (spawn (h ++ [EvSpawn cmd]) cmd) ->
  extractDocument inputPath outputPath cfg h w =
  mkOut (Val (mkExtractResult false None
                (Some (failureMessage (spawn (h ++ [EvSpawn cmd]) cmd)))))
        w [EvSpawn cmd].
Proof.
  intros cmd Hf. rewrite extractDocument_run. fold cmd.
  destruct (spawn (h ++ [EvSpawn cmd]) cmd) as [msg|so se code]; [done|].
  simpl in Hf. by destruct code.
Qed.

(** The output path is computed without failure; the only effect is
    the creation of the output sub-directory when it is missing. *)
Lemma generateOutputPath_run inputPath cfg h w :
  exists out,
    generateOutputPath inputPath (inputDir cfg) (outputDir cfg) cfg h w =
    if preserveStructure cfg
       && negb (String.eqb (dirname (relative (inputDir cfg) inputPath)) ".")
       && negb (bool_decide (is_Some (fs w !! outputSubDir cfg inputPath)))
    then mkOut (Val out)
           (set_fs (<[outputSubDir cfg inputPath := Dir]> (fs w)) w)
           [EvMkdirSync (outputSubDir cfg inputPath)]
    else mkOut (Val out) w [].
Proof.
  unfold generateOutputPath, outputSubDir.
  set (rel := relative (inputDir cfg) inputPath).
  set (sub := join (outputDir cfg) (dirname rel)).
  assert (Hname : exists name,
    (if addTimestamp cfg
     then iso <- now_iso ;;
          ret (basename rel (extname rel) +:+ "_" +:+ compactTimestamp iso +:+ ".md")
     else ret (basename rel (extname rel) +:+ ".md")) h w
    = mkOut (Val name) w []).
  { destruct (addTimestamp cfg); eexists; by msimpl. }
  destruct Hname as [name Hname].
  rewrite (bind_pure _ _ _ _ _ Hname).
  destruct (preserveStructure cfg && negb (String.eqb (dirname rel) "."));
    cbn [andb]; [|by exists (join (outputDir cfg) name)].
  exists (join sub name). msimpl.
  destruct (fs w !! sub) as [n|] eqn:E.
  - rewrite bool_decide_eq_true_2 by eauto. by msimpl.
  - rewrite bool_decide_eq_false_2 by (by intros [? ?]). msimpl.
    rewrite E. by msimpl.
Qed.

(** One iteration of the retry loop whose attempt fails: the error is
    kept, the retry counter is set to the attempt number, and the
    fixed delay is slept unless this was the last permitted attempt. *)
Lemma processJob_loop_fails n attempt job lastError outputPath cfg h w :
  let cmd := kreuzbergCommand (path (job_entry job)) cfg
               (bool_decide (is_Some (fs w !! kreuzbergConfig cfg))) in
  let r := spawn (h ++ [EvSpawn cmd]) cmd in
  let step := EvSpawn cmd ::
              (if attempt <? maxRetries cfg then [EvSleep (retryDelay cfg)] else []) in
  serviceFails r ->
  processJob_loop (S n) attempt job lastError outputPath cfg h w =
  after step
    (processJob_loop n (attempt + 1) (set_retries attempt job) (attemptError r)
       outputPath cfg (h ++ step) w).
Proof.
  intros cmd r step Hf. cbn [processJob_loop].
  rewrite (bind_val _ _ _ _ _ _ _
             (extractDocument_fails _ outputPath cfg h w Hf)).
  cbn [ex_success ex_error]. fold cmd r.
  change (JS.or_else (Some (failureMessage r)) "Unknown error")
    with (attemptError r).
  unfold step.
  destruct (attempt <? maxRetries cfg).
  - unfold Bun_sleep. rewrite (bind_val _ _ _ _ tt w [EvSleep (retryDelay cfg)])
      by done.
    rewrite after_after, <- app_assoc. done.
  - rewrite (bind_pure _ _ _ _ tt) by done. done.
Qed.

End ProcessorFacts.

Section QuarantineFacts.
Context `{Platform}.

Lemma string_length_app (s t : string) :
  String.length (s +:+ t) = (String.length s + String.length t)%nat.
Proof. induction s as [|c s IH]; [done|]. simpl. by rewrite IH. Qed.

Lemma quarantineLog_fresh cfg inputPath :
  quarantineLog cfg inputPath <> quarantinePath cfg inputPath.
Proof.
  unfold quarantineLog. intros E.
  apply (f_equal String.length) in E. rewrite string_length_app in E.
  cbn [String.length] in E. lia.
Qed.

(** The quarantine of a readable input whose quarantine paths are
    free: the error directory is created when missing, the input is
    copied and the log is written next to the copy. *)
Lemma moveToError_run inputPath cfg error h w content :
  let errorPath := quarantinePath cfg inputPath in
  let logPath := quarantineLog cfg inputPath in
  let mk := if bool_decide (is_Some (fs w !! dirname errorPath)) then []
            else [EvMkdirSync (dirname errorPath)] in
  let text := errorLogText error
                (toISOString (Date_now (h ++ mk ++ [EvCopyFileSync inputPath errorPath])))
                inputPath in
  (forall h', input_file h' inputPath = Some content) ->
  fs w !! errorPath <> Some Dir -> fs w !! logPath <> Some Dir ->
  errorPath <> dirname errorPath -> logPath <> dirname errorPath ->
  exists w',
    moveToError inputPath (inputDir cfg) (errorDir cfg) error h w =
    mkOut (Val tt) w'
      (mk ++ [EvCopyFileSync inputPath errorPath; EvBunWrite logPath text]) /\
    fs w' !! errorPath = Some (File content) /\
    fs w' !! logPath = Some (File text) /\
    state w' = state w /\ isShuttingDown w' = isShuttingDown w.
Proof.
  intros errorPath logPath mk text Hin Hep Hlp Hd1 Hd2.
  pose proof (quarantineLog_fresh cfg inputPath) as Hne.
  fold errorPath logPath in Hne.
  unfold moveToError.
  fold (quarantinePath cfg inputPath). fold errorPath.
  change (errorPath +:+ ".error.txt") with logPath.
  msimpl. unfold text, mk. clear text mk.
  destruct (fs w !! dirname errorPath) as [n|] eqn:E.
  - rewrite !bool_decide_eq_true_2 by eauto. msimpl.
    rewrite Hin. msimpl.
    destruct (fs w !! errorPath) as [[c|]|] eqn:E1; [|done|]; msimpl.
    all: rewrite lookup_insert_ne by done.
    all: destruct (fs w !! logPath) as [[c'|]|] eqn:E2; [|done|]; msimpl.
    all: eexists; split; [reflexivity|]; msimpl.
    all: rewrite lookup_insert_eq, lookup_insert_ne, lookup_insert_eq by done.
    all: done.
  - rewrite !bool_decide_eq_false_2 by (by intros [? ?]). msimpl.
    rewrite E. msimpl. rewrite Hin. msimpl.
    rewrite lookup_insert_ne by done.
    destruct (fs w !! errorPath) as [[c|]|] eqn:E1; [|done|]; msimpl.
    all: rewrite !lookup_insert_ne by done.
    all: destruct (fs w !! logPath) as [[c'|]|] eqn:E2; [|done|]; msimpl.
    all: eexists; split; [reflexivity|]; msimpl.
    all: rewrite lookup_insert_eq, lookup_insert_ne, lookup_insert_eq by done.
    all: done.
Qed.

End QuarantineFacts.

Section RetryBound.
Context `{Platform}.

Lemma now_run h w : now h w = mkOut (Val (Date_now h)) w [].
Proof. done. Qed.

(** The directory that [generateOutputPath] may create leaves the
    quarantine paths free. *)
Lemma canQuarantine_after_output cfg inputPath w :
  canQuarantine cfg inputPath w ->
  let w1 := set_fs (<[outputSubDir cfg inputPath := Dir]> (fs w)) w in
  fs w1 !! quarantinePath cfg inputPath <> Some Dir /\
  fs w1 !! quarantineLog cfg inputPath <> Some Dir.
Proof.
  intros (He & Hl & Hne & Hnl). cbn [fs set_fs].
  rewrite !lookup_insert_ne; [done| |].
  - intros E. apply Hnl. rewrite <- E. set_solver.
  - intros E. apply Hne. rewrite <- E. set_solver.
Qed.

(** What follows the retry loop when every attempt has failed. *)
Lemma processJob_quarantine cfg job lastError (h : list event) w content :
  let p := path (job_entry job) in
  (forall h', input_file h' p = Some content) ->
  fs w !! quarantinePath cfg p <> Some Dir ->
  fs w !! quarantineLog cfg p <> Some Dir ->
  quarantinePath cfg p <> dirname (quarantinePath cfg p) ->
  quarantineLog cfg p <> dirname (quarantinePath cfg p) ->
  exists mk w',
    let copy := EvCopyFileSync p (quarantinePath cfg p) in
    let log := errorLogText lastError
                 (toISOString (Date_now (h ++ mk ++ [copy]))) p in
    (let job := set_error lastError (set_status failed job) in
     t <- now ;;
     let job := set_endTime t job in
     moveToError (path (job_entry job)) (inputDir cfg) (errorDir cfg)
       lastError ;;
     ret job) h w
    = mkOut (Val (set_endTime (Date_now h)
                    (set_error lastError (set_status failed job))))
            w' (mk ++ [copy; EvBunWrite (quarantineLog cfg p) log]) /\
    Forall (fun e => is_mkdir e = true) mk /\
    fs w' !! quarantinePath cfg p = Some (File content) /\
    fs w' !! quarantineLog cfg p = Some (File log) /\
    state w' = state w /\ isShuttingDown w' = isShuttingDown w.
Proof.
  intros p Hin He Hl Hd1 Hd2.
  destruct (moveToError_run p cfg lastError h w content Hin He Hl Hd1 Hd2)
    as (w' & Hrun & Hc & Hlog & Hst & Hfl).
  exists (if bool_decide (is_Some (fs w !! dirname (quarantinePath cfg p)))
          then [] else [EvMkdirSync (dirname (quarantinePath cfg p))]), w'.
  cbn zeta.
  rewrite (bind_pure _ _ _ _ _ (now_run h w)).
  cbn [job_entry set_endTime set_error set_status]. fold p.
  rewrite (bind_val _ _ _ _ _ _ _ Hrun). msimpl.
  split; [reflexivity|]. split; [|done].
  destruct (bool_decide _); by repeat constructor.
Qed.

(** C10. A retry limit of 0 passes validation, which rejects negative
    limits only; the job then makes no attempt at all, ends [failed]
    with the empty error message, and its input is quarantined. *)
Theorem processJob_zero_retries cfg job (h : list event) w content :
  let p := path (job_entry job) in
  maxRetries cfg = 0 -> 1 <= watchInterval cfg -> 1 <= concurrentJobs cfg ->
  (forall h', input_file h' p = Some content) ->
  canQuarantine cfg p w ->
  validateConfig cfg = [] /\
  exists dirs job' w',
    let copy := EvCopyFileSync p (quarantinePath cfg p) in
    let log := errorLogText "" (toISOString (Date_now (h ++ dirs ++ [copy]))) p in
    processJob job cfg h w
    = mkOut (Val job') w' (dirs ++ [copy; EvBunWrite (quarantineLog cfg p) log]) /\
    Forall (fun e => is_mkdir e = true) dirs /\
    job_status job' = failed /\ job_error job' = Some "" /\
    job_entry job' = job_entry job /\
    fs w' !! quarantinePath cfg p = Some (File content) /\
    fs w' !! quarantineLog cfg p = Some (File log) /\
    state w' = state w.
Proof.
  intros p Hmax Hwi Hcj Hin Hq. split.
  { unfold validateConfig. rewrite Hmax.
    destruct (Z.ltb_spec (watchInterval cfg) 1); [lia|].
    destruct (Z.ltb_spec (concurrentJobs cfg) 1); [lia|]. done. }
  unfold processJob. rewrite (bind_pure _ _ _ _ _ (now_run h w)).
  cbn [job_entry set_startTime set_status]. fold p.
  destruct (generateOutputPath_run p cfg h w) as [out Hout].
  rewrite Hmax. cbn [Z.to_nat processJob_loop].
  pose proof Hq as (He & Hl & Hne & Hnl).
  assert (Hd1 : quarantinePath cfg p <> dirname (quarantinePath cfg p))
    by (intros E; apply Hne; rewrite <- E; set_solver).
  assert (Hd2 : quarantineLog cfg p <> dirname (quarantinePath cfg p))
    by (intros E; apply Hnl; rewrite <- E; set_solver).
  set (job1 := set_startTime (Date_now h) (set_status processing job)).
  destruct (preserveStructure cfg
            && negb (String.eqb (dirname (relative (inputDir cfg) p)) ".")
            && negb (bool_decide (is_Some (fs w !! outputSubDir cfg p)))).
  - rewrite (bind_val _ _ _ _ _ _ _ Hout).
    destruct (canQuarantine_after_output cfg p w Hq) as [He1 Hl1].
    rewrite (bind_pure _ _ _ _ (inr (job1, ""))) by done.
    destruct (processJob_quarantine cfg job1 "" (h ++ [EvMkdirSync (outputSubDir cfg p)])
                _ content Hin He1 Hl1 Hd1 Hd2)
      as (mk & w' & Hrun & Hmk & Hc & Hlog & Hst & Hfl).
    cbn zeta in Hrun. rewrite <- !app_assoc in Hrun, Hlog.
    cbn [app] in Hrun, Hlog. rewrite Hrun. cbn [after app].
    exists (EvMkdirSync (outputSubDir cfg p) :: mk),
      (set_endTime (Date_now (h ++ [EvMkdirSync (outputSubDir cfg p)]))
         (set_error "" (set_status failed job1))), w'.
    cbn zeta. cbn [app].
    split; [reflexivity|]. split; [by constructor|].
    repeat (split; [done|]). exact Hst.
  - rewrite (bind_pure _ _ _ _ _ Hout).
    rewrite (bind_pure _ _ _ _ (inr (job1, ""))) by done.
    destruct (processJob_quarantine cfg job1 "" h _ content Hin He Hl Hd1 Hd2)
      as (mk & w' & Hrun & Hmk & Hc & Hlog & Hst & Hfl).
    cbn zeta in Hrun. rewrite Hrun.
    exists mk, (set_endTime (Date_now h) (set_error "" (set_status failed job1))), w'.
    cbn zeta. split; [reflexivity|]. by repeat (split; [done|]).
Qed.


End RetryBound.

(** ** The batches *)

Section Chunks.
Context {A : Type}.
Implicit Types l : list A.

Lemma chunks_go_fuel fuel fuel' c l :
  (1 <= c)%nat -> (length l <= fuel)%nat -> (length l <= fuel')%nat ->
  chunks_go fuel c l = chunks_go fuel' c l.
Proof.
  intros Hc. revert fuel' l.
  induction fuel as [|fuel IH]; intros fuel' l Hf Hf'.
  - destruct l; [|simpl in Hf; lia]. by destruct fuel'.
  - destruct l as [|x l]; [by destruct fuel'|].
    destruct fuel' as [|fuel']; [simpl in Hf'; lia|].
    cbn [chunks_go]. f_equal. apply IH.
    all: rewrite length_skipn; cbn [length] in *; lia.
Qed.

Lemma chunks_nil c : chunks c (@nil A) = [].
Proof. done. Qed.

Lemma chunks_cons c x l :
  (1 <= c)%nat ->
  chunks c (x :: l) = firstn c (x :: l) :: chunks c (skipn c (x :: l)).
Proof.
  intros Hc. unfold chunks. cbn [length chunks_go]. f_equal.
  apply chunks_go_fuel; [done| |done].
  rewrite length_skipn. cbn [length]. lia.
Qed.

Lemma concat_chunks c l : (1 <= c)%nat -> concat (chunks c l) = l.
Proof.
  intros Hc. remember (length l) as n eqn:Hn. revert l Hn.
  induction n as [n IH] using lt_wf_ind. intros l ->.
  destruct l as [|x l]; [done|].
  rewrite chunks_cons by done. cbn [concat].
  rewrite (IH (length (skipn c (x :: l)))); [apply firstn_skipn| |done].
  rewrite length_skipn. cbn [length]. lia.
Qed.


(** The slice that the loop takes at the boundary between the jobs
    that are done and those that remain. *)
Lemma slice_at_boundary (done todo : list A) c :
  (1 <= c)%nat ->
  JS.slice (done ++ todo) (Z.of_nat (length done))
    (Z.of_nat (length done) + Z.of_nat c)
  = firstn c todo.
Proof.
  intros Hc. unfold JS.slice, JS.slice_index. rewrite length_app.
  destruct (Z.ltb_spec (Z.of_nat (length done)) 0); [lia|].
  destruct (Z.ltb_spec (Z.of_nat (length done) + Z.of_nat c) 0); [lia|].
  replace (Z.to_nat (Z.min (Z.of_nat (length done))
                       (Z.of_nat (length done + length todo))))
    with (length done) by lia.
  rewrite skipn_app, skipn_all, Nat.sub_diag. cbn [app skipn].
  destruct (Nat.le_gt_cases c (length todo)).
  - f_equal. lia.
  - rewrite (firstn_all2 (n:=c)) by lia. apply firstn_all2. lia.
Qed.

Lemma write_back_at_boundary (done todo results : list A) c :
  (1 <= c)%nat ->
  write_back (done ++ todo) (Z.of_nat (length done))
    (Z.of_nat (length done) + Z.of_nat c) results
  = (done ++ results) ++ skipn c todo.
Proof.
  intros Hc. unfold write_back, JS.slice_index. rewrite length_app.
  destruct (Z.ltb_spec (Z.of_nat (length done)) 0); [lia|].
  destruct (Z.ltb_spec (Z.of_nat (length done) + Z.of_nat c) 0); [lia|].
  replace (Z.to_nat (Z.min (Z.of_nat (length done))
                       (Z.of_nat (length done + length todo))))
    with (length done) by lia.
  rewrite firstn_app, firstn_all, Nat.sub_diag. cbn [firstn].
  rewrite app_nil_r, <- app_assoc. do 2 f_equal.
  destruct (Nat.le_gt_cases c (length todo)).
  - replace (Z.to_nat _) with (length done + c)%nat by lia.
    rewrite skipn_app.
    replace (length done + c - length done)%nat with c by lia.
    rewrite (skipn_all2 done) by lia. done.
  - replace (Z.to_nat _) with (length done + length todo)%nat by lia.
    rewrite skipn_all2 by (rewrite length_app; lia).
    by rewrite skipn_all2 by lia.
Qed.

End Chunks.

(** ** Jobs *)

Section JobFacts.
Context `{Platform}.

Lemma extractionSucceeded_later cfg h e1 evs e2 p :
  extractionSucceeded cfg (h ++ e1) evs p ->
  extractionSucceeded cfg h (e1 ++ evs ++ e2) p.
Proof.
  intros (pre & post & hc & so & se & -> & Hs).
  exists (e1 ++ pre), (post ++ e2), hc, so, se. split.
  - by rewrite <- !app_assoc.
  - by rewrite <- !app_assoc in *.
Qed.

Lemma extractionSucceeded_after cfg h e1 evs p :
  extractionSucceeded cfg (h ++ e1) evs p ->
  extractionSucceeded cfg h (e1 ++ evs) p.
Proof.
  intros Hs. rewrite <- (app_nil_r evs). by apply extractionSucceeded_later.
Qed.

Lemma extractionSucceeded_before cfg h evs e2 p :
  extractionSucceeded cfg h evs p -> extractionSucceeded cfg h (evs ++ e2) p.
Proof.
  intros Hs. apply (extractionSucceeded_later cfg h [] evs e2).
  by rewrite app_nil_r.
Qed.

(** An attempt reports success only when the service exited with 0. *)
Lemma extractDocument_success i o cfg h w r w1 e1 :
  extractDocument i o cfg h w = mkOut (Val r) w1 e1 ->
  ex_success r = true ->
  extractionSucceeded cfg h e1 i /\ state w1 = state w /\
  isShuttingDown w1 = isShuttingDown w.
Proof.
  rewrite extractDocument_run.
  set (cmd := kreuzbergCommand i cfg _).
  destruct (spawn (h ++ [EvSpawn cmd]) cmd) as [msg|so se code] eqn:Es.
  { by intros [= <- <- <-]. }
  destruct code; [|by intros [= <- <- <-]..].
  destruct (fs w !! o) as [[c|]|]; intros [= <- <- <-] Hs; try done.
  all: split; [|done].
  all: exists [], [EvBunWrite o so], (bool_decide (is_Some (fs w !! kreuzbergConfig cfg))), so, se.
  all: by split.
Qed.

Lemma jobEvent_other cfg p e :
  is_save e = false -> is_spawn e = false -> jobEvent cfg p e.
Proof. intros Hs Hp. split; [done|]. intros cmd ->. done. Qed.

Lemma extractDocument_obeys i o cfg :
  obeys (stepwise sameLedger (jobEvent cfg i)) (extractDocument i o cfg).
Proof.
  unfold extractDocument. prog.
  all: try (by apply jobEvent_other).
  all: try done.
  split; [done|]. intros cmd [= <-]. by eexists.
Qed.

Lemma generateOutputPath_obeys i cfg p :
  obeys (stepwise sameLedger (jobEvent cfg p))
        (generateOutputPath i (inputDir cfg) (outputDir cfg) cfg).
Proof.
  unfold generateOutputPath. prog.
  all: try (by apply jobEvent_other).
  all: done.
Qed.

Lemma generateOutputPath_nothrow i cfg :
  nothrow (generateOutputPath i (inputDir cfg) (outputDir cfg) cfg).
Proof.
  intros h w. destruct (generateOutputPath_run i cfg h w) as [out ->].
  exists out. by destruct (_ && _).
Qed.

Lemma moveToError_obeys i cfg err p :
  obeys (stepwise sameLedger (jobEvent cfg p))
        (moveToError i (inputDir cfg) (errorDir cfg) err).
Proof.
  unfold moveToError. prog.
  all: try (by apply jobEvent_other).
  all: done.
Qed.

Lemma moveToError_nothrow i cfg err :
  nothrow (moveToError i (inputDir cfg) (errorDir cfg) err).
Proof. unfold moveToError. prog. Qed.

Lemma processJob_loop_obeys n attempt job le out cfg :
  obeys (stepwise sameLedger (jobEvent cfg (path (job_entry job))))
        (processJob_loop n attempt job le out cfg).
Proof.
  revert attempt job le.
  induction n as [|n IH]; intros attempt job le; cbn [processJob_loop].
  - prog.
  - apply obeys_bind; [typeclasses eauto | apply extractDocument_obeys |].
    intros r. destruct (ex_success r).
    + prog.
    + apply obeys_bind; [typeclasses eauto | |intros _].
      * prog. by apply jobEvent_other.
      * apply (IH (attempt + 1) (set_retries attempt job)).
Qed.

(** The retry loop returns: with a completed job after an attempt
    that succeeded, or with the job as it was, but for its retry
    counter, after the attempts are used up. *)
Lemma processJob_loop_result n attempt job le out cfg h w :
  exists ex w' evs,
    processJob_loop n attempt job le out cfg h w = mkOut (Val ex) w' evs /\
    match ex with
    | inl job' =>
        job_entry job' = job_entry job /\ job_status job' = completed /\
        extractionSucceeded cfg h evs (path (job_entry job))
    | inr (job', _) =>
        job_entry job' = job_entry job /\ job_status job' = job_status job
    end.
Proof.
  revert attempt job le h w.
  induction n as [|n IH]; intros attempt job le h w; cbn [processJob_loop].
  - by eexists (inr (job, le)), w, [].
  - destruct (nothrow_run (extractDocument (path (job_entry job)) out cfg) h w)
      as [r Hr]; [apply extractDocument_nothrow|].
    rewrite (bind_val _ _ _ _ _ _ _ Hr).
    destruct (ex_success r) eqn:Hs.
    + destruct (extractDocument_success _ _ _ _ _ _ _ _ Hr Hs) as (Hx & _ & _).
      rewrite (bind_pure _ _ _ _ _ (now_run _ _)).
      eexists (inl _), _, _. split; [by unfold ret; cbn [after]|].
      rewrite app_nil_r. by repeat split.
    + set (e1 := events (extractDocument (path (job_entry job)) out cfg h w)) in *.
      set (w1 := world (extractDocument (path (job_entry job)) out cfg h w)) in *.
      set (sl := if attempt <? maxRetries cfg then [EvSleep (retryDelay cfg)] else []).
      assert (Hsl :
        (if attempt <? maxRetries cfg then Bun_sleep (retryDelay cfg) else ret tt)
          (h ++ e1) w1 = mkOut (Val tt) w1 sl).
      { unfold sl. by destruct (attempt <? maxRetries cfg). }
      rewrite (bind_val _ _ _ _ _ _ _ Hsl), after_after.
      destruct (IH (attempt + 1) (set_retries attempt job)
                  (JS.or_else (ex_error r) "Unknown error")
                  ((h ++ e1) ++ sl) w1) as (ex & w' & evs & Hrun & Hex).
      rewrite Hrun. cbn [after].
      exists ex, w', ((e1 ++ sl) ++ evs). split; [done|].
      destruct ex as [job'|[job' le']]; [|done].
      destruct Hex as (? & ? & Hx). repeat split; try done.
      apply extractionSucceeded_after. by rewrite app_assoc.
Qed.

(** [processJob] always returns; the job it returns is that of the
    input in a terminal status, the ledger and the shutdown flag are
    untouched, and a completed job has had a successful attempt. *)
Lemma processJob_result job cfg h w :
  exists job' w' evs,
    processJob job cfg h w = mkOut (Val job') w' evs /\
    job_entry job' = job_entry job /\
    sameLedger w w' /\
    Forall (jobEvent cfg (path (job_entry job))) evs /\
    (job_status job' = failed \/
     job_status job' = completed /\
     extractionSucceeded cfg h evs (path (job_entry job))).
Proof.
  assert (Hob : obeys (stepwise sameLedger (jobEvent cfg (path (job_entry job))))
                      (processJob job cfg)).
  { unfold processJob. prog.
    - apply generateOutputPath_obeys.
    - apply (processJob_loop_obeys _ _
               (set_startTime a (set_status processing job))).
    - apply moveToError_obeys. }
  destruct (Hob h w) as [Hw He]. revert Hw He.
  unfold processJob. rewrite (bind_pure _ _ _ _ _ (now_run h w)).
  destruct (nothrow_run _ h w (generateOutputPath_nothrow
              (path (job_entry (set_startTime (Date_now h)
                                  (set_status processing job)))) cfg))
    as [out Hout].
  rewrite (bind_val _ _ _ _ _ _ _ Hout).
  match goal with
  | |- context [bind (processJob_loop ?n ?a ?j ?le out cfg) _ ?h' ?w'] =>
      destruct (processJob_loop_result n a j le out cfg h' w')
        as (ex & w2 & evs & Hrun & Hex)
  end.
  rewrite (bind_val _ _ _ _ _ _ _ Hrun), after_after.
  destruct ex as [job'|[job' le']].
  - unfold ret. cbn [after]. rewrite app_nil_r. intros Hw He.
    eexists _, _, _. split; [reflexivity|].
    destruct Hex as (Hje & Hjs & Hx). repeat split; try done; try apply Hw.
    right. split; [done|]. by apply extractionSucceeded_after.
  - rewrite (bind_pure _ _ _ _ _ (now_run _ _)).
    match goal with
    | |- context [bind (moveToError ?i ?a ?b ?c) _ ?h' ?w'] =>
        destruct (nothrow_run (moveToError i a b c) h' w'
                    (moveToError_nothrow i cfg c))
          as [u Hmv]
    end.
    rewrite (bind_val _ _ _ _ _ _ _ Hmv).
    unfold ret. cbn [after]. rewrite app_nil_r. intros Hw He.
    eexists _, _, _. split; [reflexivity|].
    destruct Hex as (Hje & Hjs). repeat split; try done; try apply Hw.
    by left.
Qed.

End JobFacts.

(** ** The scheduler *)

Section SchedulerFacts.
Context `{Platform}.

Lemma calculateFileHash_run p h w :
  calculateFileHash p h w =
  match input_file h p with
  | Some content => mkOut (Val (md5 content)) w []
  | None => mkOut (Throw "ENOENT: no such file or directory") w []
  end.
Proof.
  unfold calculateFileHash. msimpl. destruct (input_file h p); by msimpl.
Qed.

Lemma markFileProcessed_run p hsh out r h w :
  markFileProcessed p hsh out r h w =
  mkOut (Val tt)
    (set_state (setEntry p (mkEntry hsh out (toISOString (Date_now h)) r)
                  (state w)) w) [].
Proof. unfold markFileProcessed. by msimpl. Qed.

(** What the callback of a batch does with one job.  When the input
    cannot be read, it throws before anything happens.  Otherwise the
    job ends in a terminal status; the ledger is written only for a
    completed job, after a successful attempt, with the fingerprint
    that was taken before the job ran. *)
Lemma runJob_result cfg job h w :
  let p := path (job_entry job) in
  (input_file h p = None /\
   runJob cfg job h w = mkOut (Throw "ENOENT: no such file or directory") w [])
  \/
  (exists content job' w' evs,
     input_file h p = Some content /\
     runJob cfg job h w = mkOut (Val job') w' evs /\
     job_entry job' = job_entry job /\
     isShuttingDown w' = isShuttingDown w /\
     Forall (jobEvent cfg p) evs /\
     (job_status job' = failed /\ state w' = state w \/
      job_status job' = completed /\ extractionSucceeded cfg h evs p /\
      exists out t,
        state w' = setEntry p (mkEntry (md5 content) out t (job_retries job'))
                     (state w))).
Proof.
  intros p. unfold runJob. fold p.
  assert (Hh := calculateFileHash_run p h w).
  destruct (input_file h p) as [content|] eqn:Ein.
  2:{ left. split; [done|]. by rewrite (bind_throw _ _ _ _ _ _ _ Hh). }
  right. rewrite (bind_pure _ _ _ _ _ Hh).
  destruct (processJob_result job cfg h w)
    as (job' & w1 & evs & Hrun & Hje & [Hst Hfl] & Hev & Hcase).
  rewrite (bind_val _ _ _ _ _ _ _ Hrun). fold p in Hev, Hcase.
  destruct Hcase as [Hf | [Hc Hx]].
  - rewrite bool_decide_eq_false_2 by (rewrite Hf; done).
    rewrite (bind_pure _ _ _ _ tt) by done.
    exists content, job', w1, evs. unfold ret. cbn [after].
    rewrite app_nil_r. repeat split; try done. by left.
  - rewrite bool_decide_eq_true_2 by done.
    destruct (generateOutputPath_run p cfg (h ++ evs) w1) as [out Hout].
    set (b := preserveStructure cfg
              && negb (String.eqb (dirname (relative (inputDir cfg) p)) ".")
              && negb (bool_decide (is_Some (fs w1 !! outputSubDir cfg p))))
      in Hout.
    set (w2 := if b then set_fs (<[outputSubDir cfg p := Dir]> (fs w1)) w1 else w1).
    set (e2 := if b then [EvMkdirSync (outputSubDir cfg p)] else []).
    assert (Hout' :
      generateOutputPath p (inputDir cfg) (outputDir cfg) cfg (h ++ evs) w1
      = mkOut (Val out) w2 e2) by (unfold w2, e2; by destruct b).
    assert (Hmark :
      (outputPath <- generateOutputPath p (inputDir cfg) (outputDir cfg) cfg ;;
       markFileProcessed p (md5 content) outputPath (job_retries job'))
        (h ++ evs) w1
      = mkOut (Val tt)
          (set_state (setEntry p (mkEntry (md5 content) out
                                    (toISOString (Date_now ((h ++ evs) ++ e2)))
                                    (job_retries job')) (state w2)) w2)
          e2).
    { rewrite (bind_val _ _ _ _ _ _ _ Hout'), markFileProcessed_run.
      cbn [after]. by rewrite app_nil_r. }
    rewrite (bind_val _ _ _ _ _ _ _ Hmark).
    unfold ret. cbn [after]. rewrite app_nil_r.
    eexists content, job', _, (evs ++ e2). split; [done|].
    split; [reflexivity|].
    assert (Hw2 : state w2 = state w /\ isShuttingDown w2 = isShuttingDown w).
    { unfold w2. by destruct b. }
    destruct Hw2 as [Hs2 Hf2]. cbn [state isShuttingDown set_state].
    split; [done|]. split; [done|]. split.
    { apply Forall_app. split; [done|]. unfold e2.
      destruct b; repeat constructor; by apply jobEvent_other. }
    right. split; [done|]. split; [by apply extractionSucceeded_before|].
    eexists _, _. by rewrite Hs2.
Qed.


Lemma promise_all_cons_inv {A} (m : M A) ms h w l w' e :
  promise_all (m :: ms) h w = mkOut (Val l) w' e ->
  exists a l' w1 e1 e2,
    l = a :: l' /\ e = e1 ++ e2 /\
    m h w = mkOut (Val a) w1 e1 /\
    promise_all ms (h ++ e1) w1 = mkOut (Val l') w' e2.
Proof.
  cbn [promise_all]. destruct (m h w) as [r w1 e1].
  destruct (promise_all ms (h ++ e1) w1) as [r' w2 e2] eqn:E.
  destruct r as [a|msg], r' as [l'|msg']; intros [= <- <- <-].
  by exists a, l', w1, e1, e2.
Qed.

(** A batch that returns gives one result for each of its jobs, in a
    terminal status. *)
Lemma batch_results cfg batch h w rs w' e :
  promise_all (map (runJob cfg) batch) h w = mkOut (Val rs) w' e ->
  Forall2 (fun job r => job_entry r = job_entry job /\ terminal (job_status r))
          batch rs.
Proof.
  revert h w rs e. induction batch as [|job batch IH]; intros h w rs e.
  - intros [= <- <- <-]. constructor.
  - cbn [map]. intros Hp.
    destruct (promise_all_cons_inv _ _ _ _ _ _ _ Hp)
      as (a & l' & w1 & e1 & e2 & -> & -> & Hm & Hrest).
    constructor; [|by eapply IH].
    destruct (runJob_result cfg job h w)
      as [[_ Ht] | (c & job' & w2 & evs & _ & Hr & Hje & _ & _ & Hcase)].
    + rewrite Ht in Hm. done.
    + rewrite Hr in Hm. injection Hm as <- <- <-. split; [done|].
      unfold terminal. destruct Hcase as [[-> _]|[-> _]]; auto.
Qed.


Lemma saveProcessedState_run p h w :
  exists w',
    saveProcessedState p h w =
    mkOut (Val tt) w'
      [EvWriteFileSync p (JSON_stringify
         (setLastUpdated (toISOString (Date_now h)) (state w)))] /\
    state w' = setLastUpdated (toISOString (Date_now h)) (state w) /\
    isShuttingDown w' = isShuttingDown w.
Proof.
  destruct (saveProcessedState_effect p h w) as (Hr & He & Hs & Hf & _).
  exists (world (saveProcessedState p h w)).
  split; [|done]. rewrite (out_eta (saveProcessedState p h w)) at 1.
  by rewrite Hr, He.
Qed.

(** The batch loop of [processFiles] is the schedule of the batches. *)
Lemma processFiles_loop_refines cfg c fuel :
  concurrentJobs cfg = Z.of_nat c -> (1 <= c)%nat ->
  forall done todo i h w,
    (length todo <= fuel)%nat ->
    Z.of_nat (length done) <= i ->
    (todo = [] \/ i = Z.of_nat (length done)) ->
    processFiles_loop fuel i (done ++ todo) cfg h w
    = runBatches cfg done (chunks c todo) h w.
Proof.
  intros Hcj Hc. induction fuel as [|fuel IH]; intros done todo i h w Hf Hi Hd.
  - destruct todo; [|simpl in Hf; lia].
    cbn [processFiles_loop]. rewrite app_nil_r.
    destruct (Z.ltb_spec i (Z.of_nat (length done))); [lia|]. done.
  - destruct todo as [|x todo].
    { cbn [processFiles_loop]. rewrite app_nil_r.
      destruct (Z.ltb_spec i (Z.of_nat (length done))); [lia|]. done. }
    destruct Hd as [?| ->]; [done|].
    cbn [processFiles_loop]. rewrite length_app.
    destruct (Z.ltb_spec (Z.of_nat (length done))
                (Z.of_nat (length done + length (x :: todo))));
      [|cbn [length] in *; lia].
    cbn [negb]. rewrite chunks_cons by done. cbn [runBatches].
    apply bind_ext. intros w0 w1 e1 _.
    destruct (isShuttingDown w0).
    { rewrite <- chunks_cons by done. by rewrite concat_chunks. }
    rewrite Hcj, slice_at_boundary by done.
    apply bind_ext. intros results w2 e2 Hres.
    apply bind_ext. intros _ w3 e3 _.
    rewrite write_back_at_boundary by done.
    apply batch_results, Forall2_length in Hres.
    rewrite length_firstn in Hres.
    apply IH.
    + rewrite length_skipn. cbn [length] in *. lia.
    + rewrite length_app. lia.
    + destruct (Nat.le_gt_cases c (length (x :: todo))).
      * right. rewrite length_app. lia.
      * left. apply skipn_all2. lia.
Qed.

End SchedulerFacts.

Section BatchTheorem.
Context `{Platform}.

Lemma validateConfig_ok cfg :
  validateConfig cfg = [] <->
  1 <= watchInterval cfg /\ 1 <= concurrentJobs cfg /\ 0 <= maxRetries cfg.
Proof.
  unfold validateConfig.
  destruct (Z.ltb_spec (watchInterval cfg) 1),
           (Z.ltb_spec (concurrentJobs cfg) 1),
           (Z.ltb_spec (maxRetries cfg) 0); cbn [app]; split;
    solve [done | lia | intros; repeat split; lia].
Qed.




End BatchTheorem.

(** ** The candidates *)

Section CandidateFacts.
Context `{Platform}.

Lemma detectUrlsInTextFile_run p h w :
  detectUrlsInTextFile p h w =
  mkOut (Val (match input_file h p with
              | Some content => detectUrls content
              | None => false
              end)) w [].
Proof.
  unfold detectUrlsInTextFile. msimpl. destruct (input_file h p) as [c|] eqn:E.
  - rewrite bool_decide_eq_true_2 by eauto. msimpl. rewrite E. by msimpl.
  - rewrite bool_decide_eq_false_2 by (by intros [? ?]). by msimpl.
Qed.

Lemma isUrlList_run p h w :
  (if JS.endsWith p ".txt" then detectUrlsInTextFile p else ret false) h w
  = mkOut (Val (isUrlList h p)) w [].
Proof.
  unfold isUrlList. destruct (JS.endsWith p ".txt"); [|done].
  by rewrite detectUrlsInTextFile_run.
Qed.

(** The first loop of [processFiles] only reads. *)
Lemma selectNewFiles_run cfg entries acc h w :
  selectNewFiles cfg entries acc h w =
  match selected cfg (state w) h entries with
  | Some l => mkOut (Val (acc ++ l)) w []
  | None => mkOut (Throw "ENOENT: no such file or directory") w []
  end.
Proof.
  revert acc. induction entries as [|entry rest IH]; intros acc;
    cbn [selectNewFiles selected].
  - unfold ret. by rewrite app_nil_r.
  - rewrite (bind_pure _ _ _ _ _ (isUrlList_run (path entry) h w)).
    destruct (isUrlList h (path entry)); [apply IH|].
    pose proof (calculateFileHash_run (path entry) h w) as Hh.
    destruct (input_file h (path entry)) as [content|].
    2:{ by rewrite (bind_throw _ _ _ _ _ _ _ Hh). }
    rewrite (bind_pure _ _ _ _ _ Hh).
    rewrite (bind_pure _ _ _ _ w) by done.
    destruct (skipExisting cfg && isFileProcessed (state w) (path entry) (md5 content)).
    + rewrite IH. by destruct (selected cfg (state w) h rest).
    + rewrite IH. destruct (selected cfg (state w) h rest); [|done].
      by rewrite <- app_assoc.
Qed.

Lemma selected_readable cfg st h entries :
  (forall x, x ∈ entries -> is_Some (input_file h (path x))) ->
  is_Some (selected cfg st h entries).
Proof.
  induction entries as [|entry rest IH]; intros Hr; cbn [selected]; [done|].
  destruct IH as [l Hl]; [intros x Hx; apply Hr; by right|].
  destruct (isUrlList h (path entry)); [by rewrite Hl|].
  destruct (Hr entry) as [c ->]; [by left|]. by rewrite Hl.
Qed.

(** A candidate that is not a URL list and whose fingerprint does not
    match the ledger is selected. *)
Lemma selected_stale cfg st h entries entry content l :
  selected cfg st h entries = Some l ->
  entry ∈ entries ->
  input_file h (path entry) = Some content ->
  isUrlList h (path entry) = false ->
  isFileProcessed st (path entry) (md5 content) = false ->
  entry ∈ l.
Proof.
  intros Hsel Hin Hc Hu Hp. revert l Hsel.
  induction entries as [|x rest IH]; intros l; cbn [selected];
    [by apply not_elem_of_nil in Hin|].
  apply elem_of_cons in Hin as [<-|Hin].
  - rewrite Hu, Hc, Hp, andb_false_r.
    destruct (selected cfg st h rest); intros [= <-]. by left.
  - destruct (isUrlList h (path x)); [by apply IH|].
    destruct (input_file h (path x)); [|done].
    destruct (selected cfg st h rest) as [l'|]; [|done].
    intros [= <-]. specialize (IH Hin l' eq_refl).
    destruct (_ && _); [done | by right].
Qed.

(** Everything that is not selected is a URL list or up to date. *)
Lemma selected_nil cfg st h entries :
  skipExisting cfg = true ->
  (forall x, x ∈ entries ->
     isUrlList h (path x) = true \/ upToDate st h (path x)) ->
  selected cfg st h entries = Some [].
Proof.
  intros Hskip. induction entries as [|x rest IH]; intros Hall;
    cbn [selected]; [done|].
  rewrite IH by (intros y Hy; apply Hall; by right).
  destruct (isUrlList h (path x)) eqn:Hu; [done|].
  destruct (Hall x) as [?|(c & Hc & Hp)]; [by left | congruence |].
  by rewrite Hc, Hskip, Hp.
Qed.

Lemma createJobs_from_run entries i h w :
  exists jobs,
    createJobs_from i entries h w = mkOut (Val jobs) w [] /\
    map job_entry jobs = entries /\
    Forall (fun j => job_status j = pending /\ job_retries j = 0) jobs.
Proof.
  revert i. induction entries as [|entry rest IH]; intros i;
    cbn [createJobs_from].
  - by exists [].
  - rewrite (bind_pure _ _ _ _ _ (now_run h w)).
    destruct (IH (i + 1)) as (jobs & Hrun & Hm & Hf).
    rewrite (bind_pure _ _ _ _ _ Hrun).
    eexists (_ :: jobs). split; [reflexivity|]. split.
    + cbn [map job_entry]. by rewrite Hm.
    + by constructor.
Qed.

(** C2. [isFileProcessed] is true exactly when the key has an entry
    whose stored hash equals the fresh fingerprint; it is a function
    of its arguments alone.  A candidate of the file pipeline for
    which it is false (no entry, or an entry with another hash) is
    kept by the first loop of [processFiles] and gets a job. *)
Theorem isFileProcessed_spec (st : ProcessedState) (key fresh : string) :
  (isFileProcessed st key fresh = true <->
   exists entry, files st !! key = Some entry /\ hash entry = fresh)
  /\
  (forall cfg entries entry content h w,
     state w = st -> path entry = key -> md5 content = fresh ->
     entry ∈ entries ->
     (forall x, x ∈ entries -> is_Some (input_file h (path x))) ->
     input_file h key = Some content ->
     isUrlList h key = false ->
     isFileProcessed st key fresh = false ->
     exists newFiles jobs,
       selectNewFiles cfg entries [] h w = mkOut (Val newFiles) w [] /\
       entry ∈ newFiles /\
       createJobs newFiles h w = mkOut (Val jobs) w [] /\
       entry ∈ map job_entry jobs).
Proof.
  split; [apply isFileProcessed_iff|].
  intros cfg entries entry content h w <- <- <- Hin Hr Hc Hu Hp.
  destruct (selected_readable cfg (state w) h entries Hr) as [l Hl].
  destruct (createJobs_from_run l 0 h w) as (jobs & Hj & Hm & _).
  exists l, jobs. rewrite selectNewFiles_run, Hl. cbn [app].
  assert (entry ∈ l) by (by eapply selected_stale).
  repeat split; try done. by rewrite Hm.
Qed.

End CandidateFacts.

(** ** The entries of the ledger *)

Section LedgerInvariant.
Context `{Platform}.

Lemma backed_before cfg h evs e2 k e :
  backed cfg h evs k e -> backed cfg h (evs ++ e2) k e.
Proof.
  intros [Hx | [(Hh & c & Hx) | Hm]].
  - left. by apply extractionSucceeded_before.
  - right; left. split; [done|]. exists c. by apply extractionSucceeded_before.
  - by right; right.
Qed.

Lemma backed_after cfg h e1 evs k e :
  backed cfg (h ++ e1) evs k e -> backed cfg h (e1 ++ evs) k e.
Proof.
  intros [Hx | [(Hh & c & Hx) | Hm]].
  - left. by apply extractionSucceeded_after.
  - right; left. split; [done|]. exists c. by apply extractionSucceeded_after.
  - by right; right.
Qed.

#[global] Instance justified_compositional cfg : Compositional (justified cfg).
Proof.
  split.
  - intros h w k e He. by left.
  - intros h w e1 w1 e2 w2 H1 H2 k e He.
    destruct (H2 k e He) as [He1 | Hb]; [|right; by apply backed_after].
    destruct (H1 k e He1) as [?|Hb]; [by left|].
    right. by apply backed_before.
Qed.






Lemma createJobs_pure entries h w : world (createJobs entries h w) = w.
Proof.
  destruct (createJobs_from_run entries 0 h w) as (jobs & Hr & _).
  unfold createJobs. by rewrite Hr.
Qed.


End LedgerInvariant.

(** The walk through the URL side of a cycle, for any compositional
    specification that holds of what leaves the ledger alone, of the
    end of an iteration over a URL and of the mark for the list. *)
Section UrlWalk.
Context `{Platform} (Q : Spec) `{!Compositional Q} (cfg : Config).
Hypothesis Q_ledger :
  forall A (m : M A), obeys (stepwise sameLedger (fun _ => True)) m -> obeys Q m.
Hypothesis Q_tail :
  forall u cached out, URL_parse u <> None -> obeys Q (urlTail cfg u cached out).
Hypothesis Q_mark : forall p, obeys Q (listMark p).

Lemma obeys_bind_post {A B} (m : M A) (k : A -> M B) (P : A -> Prop) :
  obeys Q m -> (forall h w a, res (m h w) = Val a -> P a) ->
  (forall a, P a -> obeys Q (k a)) -> obeys Q (bind m k).
Proof.
  intros Hm HP Hk h w. unfold bind. specialize (Hm h w).
  specialize (HP h w). destruct (m h w) as [[a|msg] w1 e1]; [|done].
  apply (obeys_after Q _ h w e1 w1); [exact Hm | by apply Hk, HP].
Qed.

Lemma pure_ledger {A} (m : M A) :
  (forall h w, world (m h w) = w) ->
  obeys (stepwise sameLedger (fun _ => True)) m.
Proof.
  intros Hm h w. rewrite Hm. split; [done|].
  apply Forall_forall. done.
Qed.

Lemma ledger_any (P : event -> Prop) {A} (m : M A) :
  obeys (stepwise sameLedger P) m -> obeys Q m.
Proof.
  intros Hm. apply Q_ledger. eapply stepwise_weaken; [| |exact Hm]; done.
Qed.

Lemma processUrlEntry_walk urlEntry :
  URL_parse (url urlEntry) <> None -> obeys Q (processUrlEntry cfg urlEntry).
Proof.
  intros Hu. unfold processUrlEntry.
  apply obeys_bind; [done | by apply obeys_get_world |].
  intros w. destruct (isShuttingDown w); [by apply obeys_ret|].
  apply obeys_bind; [done | |intros cached].
  { apply (ledger_any (fun _ => True)).
    unfold urlToFilename, derivedFilename. prog. }
  destruct (isFileProcessed _ _ _); [by apply obeys_ret|].
  apply obeys_bind; [done | |intros result].
  { apply (ledger_any (fun _ => True)).
    unfold fetchUrl, fetchWithNative, fetchWithPlaywright, fetchWithBrowserless.
    prog; done. }
  destruct (negb _); [by apply obeys_ret|].
  apply obeys_bind; [done | |intros ex].
  { apply (ledger_any (fun _ => True)). prog. }
  apply obeys_bind; [done | |intros _].
  { apply (ledger_any (fun _ => True)). prog; done. }
  apply obeys_bind; [done | |intros _].
  { apply (ledger_any (fun _ => True)). prog; done. }
  apply obeys_bind; [done | |intros out].
  { apply (ledger_any _ _ (generateOutputPath_obeys _ cfg "")). }
  by apply Q_tail.
Qed.

Lemma parseUrlLine_url line e :
  parseUrlLine line = Some e -> URL_parse (url e) <> None.
Proof.
  unfold parseUrlLine. destruct (JS.startsWith _ _); [done|].
  destruct (URL_parse (firstToken (JS.trim line))) eqn:E; [|done].
  intros [= <-]. cbn [url]. by rewrite E.
Qed.

Lemma parseUrlContent_urls content :
  Forall (fun e => URL_parse (url e) <> None) (parseUrlContent content).
Proof.
  unfold parseUrlContent. apply Forall_forall. intros e He.
  apply list_elem_of_omap in He as (line & _ & Hl).
  by eapply parseUrlLine_url.
Qed.

Lemma for_of_walk {A} (xs : list A) (body : A -> M bool) :
  Forall (fun x => obeys Q (body x)) xs -> obeys Q (for_of xs body).
Proof.
  induction 1 as [|x xs Hx _ IH]; cbn [for_of]; [by apply obeys_ret|].
  apply obeys_bind; [done | done |]. intros []; [by apply obeys_ret | done].
Qed.

Lemma processUrlFile_walk p : obeys Q (processUrlFile cfg p).
Proof.
  unfold processUrlFile.
  apply (obeys_bind_post _ _ (Forall (fun e => URL_parse (url e) <> None))).
  { apply Q_ledger, pure_ledger. intros h w. by rewrite parseUrlFile_run. }
  { intros h w urls. rewrite parseUrlFile_run. intros [= <-].
    destruct (input_file h p); [apply parseUrlContent_urls | constructor]. }
  intros urls Hurls. destruct urls as [|u l]; [by apply obeys_ret|].
  apply obeys_bind; [done | |intros _; apply Q_mark].
  apply for_of_walk. eapply Forall_impl; [exact Hurls|].
  intros e He. by apply processUrlEntry_walk.
Qed.

Lemma calculateFileHash_pure p h w : world (calculateFileHash p h w) = w.
Proof. rewrite calculateFileHash_run. by destruct (input_file h p). Qed.

Lemma findUrlFiles_loop_run items acc h w :
  findUrlFiles_loop cfg items acc h w
  = mkOut (Val (acc ++ urlFiles_among cfg h items)) w [].
Proof.
  revert acc. induction items as [|item rest IH]; intros acc;
    cbn [findUrlFiles_loop urlFiles_among].
  - unfold ret. by rewrite app_nil_r.
  - destruct (_ && _); [|apply IH].
    rewrite (bind_pure _ _ _ _ _ (detectUrlsInTextFile_run _ h w)).
    destruct (match input_file h _ with Some c => detectUrls c | None => false end).
    + rewrite IH. by rewrite <- app_assoc.
    + apply IH.
Qed.

Lemma findUrlFiles_run h w :
  findUrlFiles cfg h w = mkOut (Val (urlFilesOf cfg h)) w [].
Proof.
  unfold findUrlFiles, urlFilesOf. rewrite (bind_pure _ _ _ _ h) by done.
  destruct (readdirSync h (inputDir cfg)); [|done].
  by rewrite findUrlFiles_loop_run.
Qed.

Lemma processUrls_unfold :
  processUrls cfg =
  if negb (fetchUrls cfg) then ret tt else
  urlFiles <- findUrlFiles cfg ;;
  match urlFiles with
  | [] => ret tt
  | _ => for_of urlFiles (urlFileStep cfg)
  end.
Proof. reflexivity. Qed.

Lemma urlFileStep_walk urlFile : obeys Q (urlFileStep cfg urlFile).
Proof.
  unfold urlFileStep.
  apply obeys_bind; [done | by apply obeys_get_world |].
  intros w. destruct (isShuttingDown w); [by apply obeys_ret|].
  apply obeys_bind; [done | |intros hsh].
  { apply Q_ledger, pure_ledger, calculateFileHash_pure. }
  destruct (isFileProcessed _ _ _); [by apply obeys_ret|].
  apply obeys_bind; [done | apply processUrlFile_walk |].
  intros _. by apply obeys_ret.
Qed.

Lemma processUrls_walk : obeys Q (processUrls cfg).
Proof.
  rewrite processUrls_unfold. destruct (negb _); [by apply obeys_ret|].
  apply obeys_bind; [done | |intros urlFiles].
  { apply Q_ledger, pure_ledger. intros h w. by rewrite findUrlFiles_run. }
  destruct urlFiles as [|u l]; [by apply obeys_ret|].
  apply obeys_for_of; [done|]. apply urlFileStep_walk.
Qed.

End UrlWalk.

Section UrlInvariant.
Context `{Platform}.




End UrlInvariant.

Section CompletedJobs.
Context `{Platform}.

(** The entries that a batch writes belong to its completed jobs. *)
Lemma batch_entries cfg batch :
  forall h w rs w' e,
    promise_all (map (runJob cfg) batch) h w = mkOut (Val rs) w' e ->
    forall k en,
      files (state w') !! k = Some en ->
      files (state w) !! k = Some en \/
      exists j, j ∈ rs /\ path (job_entry j) = k /\ job_status j = completed /\
                extractionSucceeded cfg h e k.
Proof.
  induction batch as [|job batch IH]; intros h w rs w' e.
  - intros [= <- <- <-] k en He. by left.
  - cbn [map]. intros Hp k en He.
    destruct (promise_all_cons_inv _ _ _ _ _ _ _ Hp)
      as (a & l' & w1 & e1 & e2 & -> & -> & Hm & Hrest).
    destruct (IH _ _ _ _ _ Hrest k en He) as [He1 | (j & Hj & Hk & Hc & Hx)].
    2:{ right. exists j. split; [by right|]. repeat split; try done.
        by apply extractionSucceeded_after. }
    destruct (runJob_result cfg job h w)
      as [[_ Ht] | (c & job' & w2 & evs & _ & Hr & Hje & _ & _ & Hcase)].
    { rewrite Ht in Hm. done. }
    rewrite Hr in Hm. injection Hm as <- <- <-.
    destruct Hcase as [[_ Hs] | (Hc & Hx & out & t & Hs)]; rewrite Hs in He1;
      [by left|].
    cbn [files setEntry] in He1.
    destruct (decide (path (job_entry job) = k)) as [<-|Hne].
    + right. exists job'. split; [by left|].
      rewrite Hje. repeat split; try done.
      by apply extractionSucceeded_before.
    + rewrite lookup_insert_ne in He1 by done. by left.
Qed.

Lemma runBatches_entries cfg batches :
  forall done h w r,
    res (runBatches cfg done batches h w) = Val (Some r) ->
    (exists tail, r = done ++ tail) /\
    forall k en,
      files (state (world (runBatches cfg done batches h w))) !! k = Some en ->
      files (state w) !! k = Some en \/
      exists j, j ∈ r /\ path (job_entry j) = k /\ job_status j = completed /\
                extractionSucceeded cfg h
                  (events (runBatches cfg done batches h w)) k.
Proof.
  induction batches as [|batch rest IH]; intros done h w r.
  - cbn [runBatches]. intros [= <-]. split; [exists []; by rewrite app_nil_r|].
    intros k en He. by left.
  - cbn [runBatches]. rewrite (bind_pure _ _ _ _ w) by done.
    destruct (isShuttingDown w).
    { intros [= <-]. split; [by eexists|]. intros k en He. by left. }
    intros Hres. apply bind_inv in Hres as (rs & w1 & e1 & Hb & Hres & ->).
    destruct (saveProcessedState_run (join (outputDir cfg) (hashFile cfg))
                (h ++ e1) w1) as (w2 & Hs & Hst & _).
    rewrite (bind_val _ _ _ _ _ _ _ Hs), res_after in Hres.
    rewrite (bind_val _ _ _ _ _ _ _ Hs), !world_after, !events_after.
    match type of Hres with
    | res (runBatches _ _ _ ?h' _) = _ =>
        destruct (IH (done ++ rs) h' w2 r Hres) as ([tail ->] & Hent)
    end.
    split; [exists (rs ++ tail); by rewrite app_assoc|].
    intros k en He.
    destruct (Hent k en He) as [He2 | (j & Hj & Hk & Hc & Hx)].
    2:{ right. exists j. repeat split; try done.
        apply extractionSucceeded_after, extractionSucceeded_after.
        by rewrite <- app_assoc in Hx |- *. }
    rewrite Hst in He2. cbn [files setLastUpdated] in He2.
    destruct (batch_entries _ _ _ _ _ _ _ Hb k en He2)
      as [?| (j & Hj & Hk & Hc & Hx)]; [by left|].
    right. exists j. split; [rewrite !elem_of_app; auto|].
    repeat split; try done. by apply extractionSucceeded_before.
Qed.

Lemma getAllInputFiles_run cfg h w :
  getAllInputFiles cfg h w =
  mkOut (Val (filter (fun entry => isDirectory entry = false) (scanInput h cfg)))
        w [].
Proof. unfold getAllInputFiles. by msimpl. Qed.

(** [processFiles] with a validated configuration: what it returns,
    through the schedule of the batches. *)
Lemma processFiles_run cfg h w :
  validateConfig cfg = [] ->
  let entries := filter (fun entry => isDirectory entry = false) (scanInput h cfg) in
  processFiles cfg h w =
  match selected cfg (state w) h entries with
  | None => mkOut (Throw "ENOENT: no such file or directory") w []
  | Some [] => mkOut (Val (Some [])) w []
  | Some newFiles =>
      bind (createJobs newFiles)
           (fun jobs =>
              runBatches cfg [] (chunks (Z.to_nat (concurrentJobs cfg)) jobs))
           h w
  end.
Proof.
  intros Hv entries. apply validateConfig_ok in Hv as (_ & Hcj & _).
  unfold processFiles.
  rewrite (bind_pure _ _ _ _ _ (getAllInputFiles_run cfg h w)). fold entries.
  pose proof (selectNewFiles_run cfg entries [] h w) as Hsel.
  destruct (selected cfg (state w) h entries) as [[|x l]|].
  - by rewrite (bind_pure _ _ _ _ _ Hsel).
  - rewrite (bind_pure _ _ _ _ _ Hsel). cbn [app].
    apply bind_ext. intros jobs w1 e1 _.
    assert (Hc : (1 <= Z.to_nat (concurrentJobs cfg))%nat) by lia.
    assert (Hcz : concurrentJobs cfg = Z.of_nat (Z.to_nat (concurrentJobs cfg)))
      by lia.
    apply (processFiles_loop_refines cfg _ (length jobs) Hcz Hc [] jobs 0);
      [done | done | by right].
  - by rewrite (bind_throw _ _ _ _ _ _ _ Hsel).
Qed.


End CompletedJobs.

(** * A second cycle over an unchanged input tree *)

Section StableInput.
Context `{Platform}.

Lemma upToDate_stable st h h' p :
  stableInput -> upToDate st h p -> upToDate st h' p.
Proof. intros (Hi & _ & _) (c & Hc & Hp). exists c. by rewrite (Hi h' h). Qed.

Lemma isUrlList_stable h h' p : stableInput -> isUrlList h p = isUrlList h' p.
Proof. intros (Hi & _ & _). unfold isUrlList. by rewrite (Hi h h'). Qed.

Lemma urlFilesOf_stable cfg h h' :
  stableInput -> urlFilesOf cfg h = urlFilesOf cfg h'.
Proof.
  intros (Hi & Hd & _). unfold urlFilesOf. rewrite (Hd h h').
  destruct (readdirSync h' _) as [items|]; [|done].
  induction items as [|item rest IH]; [done|]. cbn [urlFiles_among].
  by rewrite IH, (Hi h h').
Qed.

Lemma candidates_stable cfg h h' :
  stableInput -> candidates cfg h = candidates cfg h'.
Proof. intros (_ & _ & Hs). unfold candidates. by rewrite (Hs h h'). Qed.

Lemma urlFilesOf_spec cfg h u :
  u ∈ urlFilesOf cfg h ->
  exists name content,
    u = join (inputDir cfg) name /\ input_file h u = Some content /\
    detectUrls content = true.
Proof.
  unfold urlFilesOf.
  destruct (readdirSync h _) as [items|]; [|by intros ?%elem_of_nil].
  induction items as [|item rest IH]; cbn [urlFiles_among];
    [by intros ?%elem_of_nil|].
  destruct (isFile item && _ && _); [|done].
  destruct (input_file h (join _ (name item))) as [c|] eqn:E; [|done].
  destruct (detectUrls c) eqn:D; [|done].
  intros [->|?]%elem_of_cons; [|auto]. by exists (name item), c.
Qed.

(** A file that is classified as a list of URLs has a URL in it. *)
Lemma detectUrls_parse content :
  detectUrls content = true -> parseUrlContent content <> [].
Proof.
  unfold detectUrls, parseUrlContent.
  destruct (nonBlankLines content) as [|l0 ls] eqn:E; [done|].
  rewrite <- E. clear E. generalize (nonBlankLines content). intros lines.
  intros [Hpos Heq]%andb_true_iff.
  apply Nat.ltb_lt in Hpos. apply Nat.eqb_eq in Heq. rewrite <- Heq in Hpos.
  destruct (filter (fun l => isHttpLine l = true) lines) as [|l ls'] eqn:F;
    [cbn in Hpos; lia|].
  assert (Hl : l ∈ filter (fun l => isHttpLine l = true) lines)
    by (rewrite F; left).
  apply list_elem_of_filter in Hl as [Hh Hin].
  assert (exists e, parseUrlLine l = Some e) as [e He].
  { unfold isHttpLine in Hh. unfold parseUrlLine.
    destruct (JS.startsWith (JS.trim l) "#"); [done|].
    destruct (URL_parse (firstToken (JS.trim l))); [|done]. by eexists. }
  intros Hnil.
  assert (e ∈ omap parseUrlLine lines)
    by (apply list_elem_of_omap; by exists l).
  rewrite Hnil in *. by eapply elem_of_nil.
Qed.

#[global] Instance keeps_preorder S h0 : PreOrder (keeps S h0).
Proof.
  split.
  - by intros w.
  - intros w1 w2 w3 [F1 K1] [F2 K2]. split; [congruence|]. auto.
Qed.

Lemma keeps_ledger S h0 w w' : sameLedger w w' -> keeps S h0 w w'.
Proof. intros [Hs Hf]. split; [done|]. intros p _. by rewrite Hs. Qed.

Lemma keeps_timestamp S h0 w w' t :
  state w' = setLastUpdated t (state w) ->
  isShuttingDown w' = isShuttingDown w -> keeps S h0 w w'.
Proof.
  intros Hs Hf. split; [done|]. intros p _ (c & Hc & Hp). exists c.
  split; [done|]. unfold isFileProcessed in *. by rewrite Hs.
Qed.

Lemma upToDate_setEntry st h0 k c out t r :
  input_file h0 k = Some c ->
  upToDate (setEntry k (mkEntry (md5 c) out t r) st) h0 k.
Proof.
  intros Hk. exists c. split; [done|]. unfold isFileProcessed, setEntry.
  cbn [files]. rewrite lookup_insert_eq. cbn [hash]. apply String.eqb_refl.
Qed.

Lemma upToDate_other st h0 k e p :
  p <> k -> upToDate st h0 p -> upToDate (setEntry k e st) h0 p.
Proof.
  intros Hne (c & Hc & Hp). exists c. split; [done|].
  unfold isFileProcessed, setEntry in *. cbn [files].
  by rewrite lookup_insert_ne.
Qed.

(** An entry with the fingerprint of the file it is for breaks no
    match. *)
Lemma keeps_fresh S h0 w k c out t r :
  input_file h0 k = Some c ->
  keeps S h0 w (set_state (setEntry k (mkEntry (md5 c) out t r) (state w)) w).
Proof.
  intros Hk. split; [done|]. intros p _ Hp. cbn [state set_state].
  destruct (decide (p = k)) as [->|Hne].
  - by apply upToDate_setEntry.
  - by apply upToDate_other.
Qed.

Lemma keeps_foreign (S : string -> Prop) h0 w k e :
  ~ S k -> keeps S h0 w (set_state (setEntry k e (state w)) w).
Proof.
  intros Hk. split; [done|]. intros p Hp Hup. cbn [state set_state].
  apply upToDate_other; [|done]. by intros ->.
Qed.

End StableInput.

Section Keeps.
Context `{Platform} (cfg : Config) (h0 : list event).
Hypothesis stable : stableInput.

Lemma stable_read h p : input_file h p = input_file h0 p.
Proof. destruct stable as (Hi & _). apply Hi. Qed.

Lemma any_event (evs : list event) : Forall (fun _ => True) evs.
Proof. by apply Forall_forall. Qed.

Lemma ledger_keeps S {A} (m : M A) (P : event -> Prop) :
  obeys (stepwise sameLedger P) m ->
  obeys (stepwise (keeps S h0) (fun _ => True)) m.
Proof.
  apply stepwise_weaken; [|done]. intros w w'. apply keeps_ledger.
Qed.

Lemma runJob_keeps S job :
  obeys (stepwise (keeps S h0) (fun _ => True)) (runJob cfg job).
Proof.
  intros h w. split; [|apply any_event].
  destruct (runJob_result cfg job h w)
    as [[_ E]|(content & job' & w' & evs & Hc & E & _ & Hf & _ & Hcase)];
    rewrite E; cbn [world]; [reflexivity|].
  destruct Hcase as [[_ Hs]|(_ & _ & out & t & Hs)].
  - by apply keeps_ledger.
  - split; [done|]. intros p _ Hp. rewrite Hs.
    destruct (decide (p = path (job_entry job))) as [->|Hne].
    + apply upToDate_setEntry. by rewrite <- (stable_read h).
    + by apply upToDate_other.
Qed.

Lemma saveProcessedState_keeps S p :
  obeys (stepwise (keeps S h0) (fun _ => True)) (saveProcessedState p).
Proof.
  intros h w. split; [|apply any_event].
  destruct (saveProcessedState_run p h w) as (w' & E & Hs & Hf).
  rewrite E. cbn [world]. by eapply keeps_timestamp.
Qed.

Lemma batch_keeps S batch :
  obeys (stepwise (keeps S h0) (fun _ => True))
        (promise_all (map (runJob cfg) batch)).
Proof.
  apply obeys_promise_all; [typeclasses eauto|].
  apply Forall_forall. intros m (job & -> & _)%list_elem_of_fmap.
  apply runJob_keeps.
Qed.

Lemma runBatches_keeps S batches :
  forall done,
    obeys (stepwise (keeps S h0) (fun _ => True)) (runBatches cfg done batches).
Proof.
  induction batches as [|batch rest IH]; intros done; cbn [runBatches].
  - apply obeys_ret; typeclasses eauto.
  - apply obeys_bind; [typeclasses eauto | apply obeys_get_world; typeclasses eauto|].
    intros w. destruct (isShuttingDown w); [apply obeys_ret; typeclasses eauto|].
    apply obeys_bind; [typeclasses eauto | apply batch_keeps |intros rs].
    apply obeys_bind; [typeclasses eauto | apply saveProcessedState_keeps |].
    intros _. apply IH.
Qed.

(** The URL side breaks no match of a path that is not a URL. *)
Lemma urlTail_keeps u cached out :
  URL_parse u <> None ->
  obeys (stepwise (keeps notUrl h0) (fun _ => True)) (urlTail cfg u cached out).
Proof.
  intros Hu. unfold urlTail.
  apply obeys_bind; [typeclasses eauto | |intros r].
  { eapply ledger_keeps, extractDocument_obeys. }
  apply obeys_bind; [typeclasses eauto | |intros _; apply obeys_ret; typeclasses eauto].
  destruct (ex_success r); [|apply obeys_ret; typeclasses eauto].
  intros h w. rewrite markFileProcessed_run. cbn [world events].
  split; [|constructor]. split; [done|]. intros p Hp Hup.
  cbn [state set_state]. apply upToDate_other; [|done]. by intros ->.
Qed.

Lemma listMark_keeps S p :
  obeys (stepwise (keeps S h0) (fun _ => True)) (listMark p).
Proof.
  intros h w. unfold listMark. split; [|apply any_event].
  pose proof (calculateFileHash_run p h w) as Hh.
  destruct (input_file h p) as [c|] eqn:Hc.
  2:{ rewrite (bind_throw _ _ _ _ _ _ _ Hh). reflexivity. }
  rewrite (bind_pure _ _ _ _ _ Hh), markFileProcessed_run. cbn [world].
  split; [done|]. intros q _ Hq. cbn [state set_state].
  destruct (decide (q = p)) as [->|Hne].
  - apply upToDate_setEntry. by rewrite <- (stable_read h).
  - by apply upToDate_other.
Qed.

Lemma urlFileStep_keeps u :
  obeys (stepwise (keeps notUrl h0) (fun _ => True)) (urlFileStep cfg u).
Proof.
  apply urlFileStep_walk; [typeclasses eauto | | |].
  - intros A m. apply ledger_keeps.
  - apply urlTail_keeps.
  - apply listMark_keeps.
Qed.

Lemma processUrlFile_keeps u :
  obeys (stepwise (keeps notUrl h0) (fun _ => True)) (processUrlFile cfg u).
Proof.
  apply processUrlFile_walk; [typeclasses eauto | | |].
  - intros A m. apply ledger_keeps.
  - apply urlTail_keeps.
  - apply listMark_keeps.
Qed.

Lemma processUrls_keeps :
  obeys (stepwise (keeps notUrl h0) (fun _ => True)) (processUrls cfg).
Proof.
  apply processUrls_walk; [typeclasses eauto | | |].
  - intros A m. apply ledger_keeps.
  - apply urlTail_keeps.
  - apply listMark_keeps.
Qed.

End Keeps.

Section UrlLists.
Context `{Platform} (cfg : Config) (h0 : list event).
Hypothesis stable : stableInput.

(** A list that [processUrlFile] has gone through is in the ledger
    with its fingerprint. *)
Lemma processUrlFile_marks u c h w :
  input_file h0 u = Some c -> detectUrls c = true ->
  res (processUrlFile cfg u h w) = Val tt ->
  upToDate (state (world (processUrlFile cfg u h w))) h0 u.
Proof.
  intros Hc Hd. unfold processUrlFile.
  rewrite (bind_pure _ _ _ _ _ (parseUrlFile_run u h w)).
  rewrite (stable_read h0 stable h), Hc.
  pose proof (detectUrls_parse c Hd) as Hne.
  destruct (parseUrlContent c) as [|e l]; [done|].
  intros (_ & w1 & e1 & _ & Hres & ->)%bind_inv. rewrite world_after.
  assert (Hh : calculateFileHash u (h ++ e1) w1 = mkOut (Val (md5 c)) w1 []).
  { rewrite calculateFileHash_run, (stable_read h0 stable), Hc. done. }
  rewrite (bind_pure _ _ _ _ _ Hh), markFileProcessed_run.
  cbn [world state set_state]. by apply upToDate_setEntry.
Qed.

Lemma urlFileStep_inv u c h w stop w1 e1 :
  isShuttingDown w = false ->
  input_file h0 u = Some c -> detectUrls c = true ->
  urlFileStep cfg u h w = mkOut (Val stop) w1 e1 ->
  stop = false /\ upToDate (state w1) h0 u.
Proof.
  intros Hf Hc Hd. unfold urlFileStep.
  rewrite (bind_pure _ _ _ _ w) by done. rewrite Hf.
  assert (Hh : calculateFileHash u h w = mkOut (Val (md5 c)) w []).
  { rewrite calculateFileHash_run, (stable_read h0 stable), Hc. done. }
  rewrite (bind_pure _ _ _ _ _ Hh).
  destruct (isFileProcessed (state w) u (md5 c)) eqn:P.
  - intros [= <- <- _]. split; [done|]. by exists c.
  - pose proof (processUrlFile_marks u c h w Hc Hd) as Hm.
    destruct (processUrlFile cfg u h w) as [[[]|msg] w2 e2] eqn:E.
    + rewrite (bind_val _ _ _ _ _ _ _ E). intros [= <- <- _].
      split; [done|]. by apply Hm.
    + by rewrite (bind_throw _ _ _ _ _ _ _ E).
Qed.

Lemma urlFiles_marks us :
  forall h w,
    isShuttingDown w = false ->
    (forall u, u ∈ us ->
       notUrl u /\ exists c, input_file h0 u = Some c /\ detectUrls c = true) ->
    res (for_of us (urlFileStep cfg) h w) = Val tt ->
    forall u, u ∈ us ->
      upToDate (state (world (for_of us (urlFileStep cfg) h w))) h0 u.
Proof.
  induction us as [|u0 us IH]; intros h w Hf Hus; cbn [for_of];
    [by intros _ u ?%elem_of_nil|].
  intros (stop & w1 & e1 & E & Hres & ->)%bind_inv. rewrite world_after.
  destruct (Hus u0) as (Hn & c & Hc & Hd); [by left|].
  destruct (urlFileStep_inv u0 c h w stop w1 e1 Hf Hc Hd E) as [-> Hup].
  destruct (urlFileStep_keeps cfg h0 stable u0 h w) as [[Hf1 _] _].
  rewrite E in Hf1. cbn [world] in Hf1.
  intros u [->|Hu]%elem_of_cons.
  - destruct (obeys_for_of (stepwise (keeps notUrl h0) (fun _ => True)) us
                (urlFileStep cfg) (urlFileStep_keeps cfg h0 stable)
                (h ++ e1) w1) as [[_ Hk] _].
    by apply Hk.
  - apply IH; [congruence | |done|done].
    intros u' Hu'. apply Hus. by right.
Qed.

Lemma processUrls_marks h w :
  isShuttingDown w = false -> fetchUrls cfg = true ->
  Forall notUrl (urlFilesOf cfg h0) ->
  res (processUrls cfg h w) = Val tt ->
  forall u, u ∈ urlFilesOf cfg h0 ->
    upToDate (state (world (processUrls cfg h w))) h0 u.
Proof.
  intros Hf Hfetch Hn. rewrite processUrls_unfold, Hfetch. cbn [negb].
  rewrite (bind_pure _ _ _ _ _ (findUrlFiles_run cfg h w)).
  rewrite (urlFilesOf_stable cfg h h0 stable).
  assert (Hus : forall u, u ∈ urlFilesOf cfg h0 ->
            notUrl u /\ exists c, input_file h0 u = Some c /\ detectUrls c = true).
  { intros u Hu. split; [by eapply Forall_forall in Hn|].
    destruct (urlFilesOf_spec cfg h0 u Hu) as (_ & c & _ & Hc & Hd). eauto. }
  destruct (urlFilesOf cfg h0) as [|u0 us] eqn:EU;
    [by intros _ u ?%elem_of_nil|].
  by apply urlFiles_marks.
Qed.

(** Nothing is done for the lists that are in the ledger with their
    fingerprint. *)
Lemma urlFiles_idle us :
  forall h w,
    isShuttingDown w = false ->
    (forall u, u ∈ us -> upToDate (state w) h0 u) ->
    for_of us (urlFileStep cfg) h w = mkOut (Val tt) w [].
Proof.
  induction us as [|u us IH]; intros h w Hf Hus; cbn [for_of]; [done|].
  destruct (Hus u) as (c & Hc & Hp); [by left|].
  assert (E : urlFileStep cfg u h w = mkOut (Val false) w []).
  { unfold urlFileStep. rewrite (bind_pure _ _ _ _ w) by done. rewrite Hf.
    assert (Hh : calculateFileHash u h w = mkOut (Val (md5 c)) w []).
    { rewrite calculateFileHash_run, (stable_read h0 stable), Hc. done. }
    rewrite (bind_pure _ _ _ _ _ Hh), Hp. done. }
  rewrite (bind_pure _ _ _ _ _ E). apply IH; [done|].
  intros u' Hu'. apply Hus. by right.
Qed.

Lemma processUrls_idle h w :
  isShuttingDown w = false ->
  (fetchUrls cfg = true ->
   forall u, u ∈ urlFilesOf cfg h0 -> upToDate (state w) h0 u) ->
  processUrls cfg h w = mkOut (Val tt) w [].
Proof.
  intros Hf Hus. rewrite processUrls_unfold.
  destruct (fetchUrls cfg); [|done]. cbn [negb].
  rewrite (bind_pure _ _ _ _ _ (findUrlFiles_run cfg h w)).
  rewrite (urlFilesOf_stable cfg h h0 stable).
  specialize (Hus eq_refl).
  destruct (urlFilesOf cfg h0) as [|u0 us]; [done|].
  by apply urlFiles_idle.
Qed.

End UrlLists.

Section FilePhase.
Context `{Platform} (cfg : Config) (h0 : list event).
Hypothesis stable : stableInput.

Lemma selected_cases st h entries l :
  skipExisting cfg = true ->
  selected cfg st h entries = Some l ->
  forall x, x ∈ entries ->
    isUrlList h (path x) = true \/ upToDate st h (path x) \/ x ∈ l.
Proof.
  intros Hskip. revert l.
  induction entries as [|entry rest IH]; intros l; cbn [selected];
    [by intros _ x ?%elem_of_nil|].
  destruct (isUrlList h (path entry)) eqn:U.
  { intros Hl x [->|Hx]%elem_of_cons; [by left | by apply IH]. }
  destruct (input_file h (path entry)) as [c|] eqn:Hc; [|done].
  destruct (selected cfg st h rest) as [l'|]; [|done].
  rewrite Hskip. cbn [andb]. intros [= <-] x [->|Hx]%elem_of_cons.
  - right. destruct (isFileProcessed st (path entry) (md5 c)) eqn:P.
    + left. by exists c.
    + right. by left.
  - destruct (IH l' eq_refl x Hx) as [?|[?|?]]; [by left | by right; left |].
    right; right. destruct (isFileProcessed _ _ _); [done | by right].
Qed.

(** The jobs of a batch that reach [completed] are in the ledger with
    the fingerprint of their file. *)
Lemma batch_upToDate batch :
  forall h w rs w' e,
    promise_all (map (runJob cfg) batch) h w = mkOut (Val rs) w' e ->
    allCompleted rs ->
    forall job, job ∈ batch -> upToDate (state w') h0 (path (job_entry job)).
Proof.
  induction batch as [|job0 batch IH]; intros h w rs w' e E Hall;
    [by intros job ?%elem_of_nil|].
  cbn [map] in E.
  apply promise_all_cons_inv in E as (a & l' & w1 & e1 & e2 & -> & -> & E1 & E2).
  apply Forall_cons in Hall as [Ha Hl'].
  intros job [->|Hjob]%elem_of_cons; [|by eapply IH].
  destruct (runJob_result cfg job0 h w)
    as [[_ E]|(content & job' & w1' & evs & Hc & E & _ & _ & _ & Hcase)];
    rewrite E in E1; [done|].
  injection E1 as -> -> ->.
  destruct Hcase as [[Hfail _]|(_ & _ & out & t & Hs)]; [congruence|].
  destruct (batch_keeps cfg h0 stable (fun _ => True) batch (h ++ e1) w1)
    as [[_ Hk] _].
  rewrite E2 in Hk. cbn [world] in Hk. apply Hk; [done|].
  rewrite Hs. apply upToDate_setEntry. by rewrite <- (stable_read h0 stable h).
Qed.

Lemma runBatches_upToDate batches :
  forall done h w r,
    isShuttingDown w = false ->
    res (runBatches cfg done batches h w) = Val (Some r) ->
    (forall tail, r = done ++ tail -> allCompleted tail) ->
    forall job, job ∈ concat batches ->
      upToDate (state (world (runBatches cfg done batches h w))) h0
               (path (job_entry job)).
Proof.
  induction batches as [|batch rest IH]; intros done h w r Hf;
    cbn [runBatches concat]; [by intros _ _ job ?%elem_of_nil|].
  rewrite (bind_pure _ _ _ _ w) by done. rewrite Hf.
  intros (rs & w1 & e1 & E1 & Hres & ->)%bind_inv Hall. rewrite world_after.
  destruct (saveProcessedState_run (join (outputDir cfg) (hashFile cfg))
              (h ++ e1) w1) as (w2 & E2 & Hs2 & Hf2).
  rewrite (bind_val _ _ _ _ _ _ _ E2) in Hres |- *.
  rewrite res_after in Hres. rewrite world_after.
  destruct (batch_keeps cfg h0 stable (fun _ => True) batch h w) as [[Hf1 _] _].
  rewrite E1 in Hf1. cbn [world] in Hf1.
  destruct (runBatches_entries cfg rest _ _ _ _ Hres) as [[tail ->] _].
  assert (Hrt : allCompleted (rs ++ tail)).
  { apply Hall. by rewrite app_assoc. }
  apply Forall_app in Hrt as [Hrs Htail].
  intros job [Hjob|Hjob]%elem_of_app.
  - destruct (runBatches_keeps cfg h0 stable (fun _ => True) rest (done ++ rs)
                ((h ++ e1) ++
                 [EvWriteFileSync (join (outputDir cfg) (hashFile cfg))
                    (JSON_stringify
                       (setLastUpdated (toISOString (Date_now (h ++ e1)))
                          (state w1)))]) w2) as [[_ Hk] _].
    apply Hk; [done|].
    assert (Hk2 : keeps (fun _ => True) h0 w1 w2) by by eapply keeps_timestamp.
    apply Hk2; [done|]. by eapply batch_upToDate.
  - eapply IH; [congruence | exact Hres | | done].
    intros tail' Ht. apply app_inv_head in Ht. by subst.
Qed.

Lemma processFiles_marks h w jobs :
  validateConfig cfg = [] -> skipExisting cfg = true ->
  isShuttingDown w = false ->
  res (processFiles cfg h w) = Val (Some jobs) -> allCompleted jobs ->
  forall x, x ∈ candidates cfg h0 ->
    isUrlList h0 (path x) = true \/
    upToDate (state (world (processFiles cfg h w))) h0 (path x).
Proof.
  intros Hv Hskip Hf. rewrite (processFiles_run cfg h w Hv).
  fold (candidates cfg h). rewrite (candidates_stable cfg h h0 stable).
  pose proof (selected_cases (state w) h (candidates cfg h0)) as Hsel.
  destruct (selected cfg (state w) h (candidates cfg h0)) as [[|f fs]|];
    [| |done].
  { intros _ _ x Hx. cbn [world].
    destruct (Hsel [] Hskip eq_refl x Hx) as [U|[U|U%elem_of_nil]]; [| |done].
    - left. by rewrite <- (isUrlList_stable h h0).
    - right. by eapply upToDate_stable. }
  destruct (createJobs_from_run (f :: fs) 0 h w) as (js & Ej & Hmap & _).
  fold (createJobs (f :: fs)) in Ej.
  rewrite (bind_pure _ _ _ _ _ Ej).
  apply validateConfig_ok in Hv as (_ & Hc & _).
  intros Hres Hall x Hx.
  pose proof (runBatches_upToDate
                (chunks (Z.to_nat (concurrentJobs cfg)) js) [] h w jobs Hf Hres)
    as Hup.
  rewrite concat_chunks in Hup by lia.
  destruct (Hsel (f :: fs) Hskip eq_refl x Hx) as [U|[U|U]].
  - left. by rewrite <- (isUrlList_stable h h0).
  - right.
    destruct (runBatches_keeps cfg h0 stable (fun _ => True)
                (chunks (Z.to_nat (concurrentJobs cfg)) js) [] h w)
      as [[_ Hk] _].
    apply Hk; [done|]. by eapply upToDate_stable.
  - right. rewrite <- Hmap in U.
    apply list_elem_of_fmap in U as (job & -> & Hjob).
    apply Hup; [|done]. by intros tail ->.
Qed.

Lemma processFiles_idle h w :
  skipExisting cfg = true ->
  (forall x, x ∈ candidates cfg h0 ->
     isUrlList h0 (path x) = true \/ upToDate (state w) h0 (path x)) ->
  processFiles cfg h w = mkOut (Val (Some [])) w [].
Proof.
  intros Hskip Hc. unfold processFiles.
  rewrite (bind_pure _ _ _ _ _ (getAllInputFiles_run cfg h w)).
  fold (candidates cfg h). rewrite (candidates_stable cfg h h0 stable).
  assert (E : selectNewFiles cfg (candidates cfg h0) [] h w = mkOut (Val []) w []).
  { rewrite selectNewFiles_run, selected_nil; [done | done |].
    intros x Hx. destruct (Hc x Hx) as [U|U].
    - left. by rewrite (isUrlList_stable h h0).
    - right. by eapply upToDate_stable. }
  by rewrite (bind_pure _ _ _ _ _ E).
Qed.

End FilePhase.

Section SecondCycle.
Context `{Platform}.

Lemma processFiles_keeps cfg h0 S :
  stableInput -> validateConfig cfg = [] ->
  obeys (stepwise (keeps S h0) (fun _ => True)) (processFiles cfg).
Proof.
  intros stable Hv h w. rewrite (processFiles_run cfg h w Hv).
  destruct (selected cfg (state w) h _) as [[|f fs]|];
    [apply spec_nil | |apply spec_nil].
  revert h w. apply obeys_bind; [typeclasses eauto | |intros js].
  - apply (ledger_keeps h0 S _ (fun _ => True)), pure_ledger, createJobs_pure.
  - by apply runBatches_keeps.
Qed.

(** C8 (as amended).  Over an input tree that does not change, with
    [skipExisting] set and a valid configuration, a cycle in which
    every job has reached [completed] is followed by a cycle that
    does nothing: its candidates all match the ledger, it starts the
    conversion service zero times, emits no event and leaves the world
    as it is.  The URL lists found in the input directory have paths
    that are not URLs themselves. *)
Theorem second_cycle_idle cfg h w :
  stableInput -> validateConfig cfg = [] -> skipExisting cfg = true ->
  isShuttingDown w = false ->
  Forall notUrl (urlFilesOf cfg h) ->
  cycleCompleted (cycleBody cfg h w) ->
  secondCycle cfg h w = mkOut (Val (Some [])) (world (cycleBody cfg h w)) [] /\
  gatewayCalls (events (secondCycle cfg h w)) = 0%nat.
Proof.
  intros stable Hv Hskip Hf Hn (jobs & Hres & Hall).
  assert (E : secondCycle cfg h w
              = mkOut (Val (Some [])) (world (cycleBody cfg h w)) []);
    [|by rewrite E].
  unfold secondCycle.
  assert (exists wA eA,
            processUrls cfg h w = mkOut (Val tt) wA eA /\
            res (processFiles cfg (h ++ eA) wA) = Val (Some jobs) /\
            cycleBody cfg h w = after eA (processFiles cfg (h ++ eA) wA))
    as (wA & eA & EA & HresB & ->).
  { unfold cycleBody in Hres |- *.
    apply bind_inv in Hres as ([] & wA & eA & EA & HresB & Eq). eauto. }
  rewrite world_after, events_after.
  set (oB := processFiles cfg (h ++ eA) wA) in *.
  destruct (processUrls_keeps cfg h stable h w) as [[HfA _] _].
  rewrite EA in HfA. cbn [world] in HfA.
  destruct (processFiles_keeps cfg h (fun _ => True) stable Hv (h ++ eA) wA)
    as [[HfB HkB] _].
  fold oB in HfB, HkB.
  assert (Hurls : fetchUrls cfg = true ->
            forall u, u ∈ urlFilesOf cfg h -> upToDate (state (world oB)) h u).
  { intros Hfetch u Hu. apply HkB; [done|].
    pose proof (processUrls_marks cfg h stable h w Hf Hfetch Hn) as Hm.
    rewrite EA in Hm. cbn [res world] in Hm. by apply Hm. }
  assert (Hfiles : forall x, x ∈ candidates cfg h ->
            isUrlList h (path x) = true \/ upToDate (state (world oB)) h (path x)).
  { apply (processFiles_marks cfg h stable (h ++ eA) wA jobs); try done.
    congruence. }
  unfold cycleBody.
  rewrite (bind_pure _ _ _ _ tt).
  - by apply (processFiles_idle cfg h stable).
  - apply (processUrls_idle cfg h stable); [congruence | done].
Qed.

End SecondCycle.

(** * The scenarios *)

Section Scenarios.

(** The save of the fresh ledger is not a write to a temporary file
    followed by a rename. *)
Lemma saveProcessedState_not_atomic :
  ~ atomicSave Sim.ledgerPath
      (events (saveProcessedState (H := Sim.platform (Sim.oneDocument Sim.alwaysWorks))
                 Sim.ledgerPath [] Sim.world0)).
Proof.
  intros [Hn _]. apply Hn. eexists. vm_compute. left. reflexivity.
Qed.


(** A document that the service refuses: the input tree does not
    change, and the second cycle starts the service three times. *)
Lemma second_cycle_retries_failed :
  stableInput (H := Sim.platform (Sim.oneDocument Sim.alwaysFails)) /\
  gatewayCalls
    (events (secondCycle (H := Sim.platform (Sim.oneDocument Sim.alwaysFails))
               Sim.config [] Sim.world0)) = 3%nat.
Proof.
  split; [by repeat split|]. vm_compute. reflexivity.
Qed.

(** The scenario of C2: recorded with [abc123], now [def456]. *)
Lemma isFileProcessed_spec_witness :
  let P := Sim.platform Sim.changedDocument in
  let key := "/files/input/a.pdf" in
  isFileProcessed (state Sim.recorded) key "def456" = false /\
  exists newFiles jobs,
    selectNewFiles (H := P) Sim.config [Sim.fileEntry "a.pdf"] [] [] Sim.recorded
    = mkOut (Val newFiles) Sim.recorded [] /\
    Sim.fileEntry "a.pdf" ∈ newFiles /\
    createJobs (H := P) newFiles [] Sim.recorded
    = mkOut (Val jobs) Sim.recorded [] /\
    Sim.fileEntry "a.pdf" ∈ map job_entry jobs.
Proof.
  intros P key.
  destruct (isFileProcessed_spec (H := P) (state Sim.recorded) key "def456")
    as [_ Hq].
  split; [vm_compute; reflexivity|].
  apply (Hq Sim.config [Sim.fileEntry "a.pdf"] (Sim.fileEntry "a.pdf")
            "PDF bytes, edited" [] Sim.recorded).
  - reflexivity.
  - vm_compute; reflexivity.
  - reflexivity.
  - left.
  - intros x [->|Hx%elem_of_nil]%elem_of_cons; [|done].
    eexists. vm_compute. reflexivity.
  - vm_compute; reflexivity.
  - vm_compute; reflexivity.
  - vm_compute; reflexivity.
Defined.


(** No attempt at all when [maxRetries] is 0. *)
Lemma processJob_zero_retries_witness :
  let P := Sim.platform (Sim.oneDocument Sim.alwaysWorks) in
  let cfg := Sim.withRetries 0 Sim.config in
  validateConfig cfg = [] /\
  exists job' w' evs,
    processJob (H := P) (Sim.job "a.pdf" 0) cfg [] Sim.world0
    = mkOut (Val job') w' evs /\
    job_status job' = failed /\ job_error job' = Some "".
Proof.
  intros P cfg.
  destruct (processJob_zero_retries (H := P) cfg (Sim.job "a.pdf" 0) []
              Sim.world0 "PDF bytes")
    as (Hv & dirs & job' & w' & E & _ & Hs & He & _).
  - reflexivity.
  - vm_compute. discriminate.
  - vm_compute. discriminate.
  - intros h'. reflexivity.
  - vm_compute. repeat split; try discriminate.
    + intros Hin. apply list_elem_of_In in Hin. cbn in Hin.
      destruct Hin as [Hin|[Hin|[]]]; discriminate Hin.
    + intros Hin. apply list_elem_of_In in Hin. cbn in Hin.
      destruct Hin as [Hin|[Hin|[]]]; discriminate Hin.
  - split; [exact Hv|]. exists job', w'. eexists. split; [exact E|]. by split.
Defined.


(** The three ledger files that give a fresh ledger: none, one that
    does not parse, and one of version 0.9.0. *)
Lemma loadProcessedState_fresh_witness :
  let P := Sim.platform Sim.oldLedger in
  let fresh := Typed (emptyState (@toISOString P 0)) in
  loadProcessedState (H := P) Sim.ledgerPath [] Sim.world0
  = mkOut (Val fresh) Sim.world0 [] /\
  loadProcessedState (H := P) Sim.ledgerPath []
    (Sim.withLedgerFile "not json")
  = mkOut (Val fresh) (Sim.withLedgerFile "not json") [] /\
  loadProcessedState (H := P) Sim.ledgerPath []
    (Sim.withLedgerFile Sim.oldLedgerText)
  = mkOut (Val fresh) (Sim.withLedgerFile Sim.oldLedgerText) [].
Proof.
  intros P fresh. split; [|split].
  - apply (loadProcessedState_fresh (H := P)). left. vm_compute. reflexivity.
  - apply (loadProcessedState_fresh (H := P)). right; left.
    exists "not json". split; vm_compute; reflexivity.
  - apply (loadProcessedState_fresh (H := P)). right; right.
    eexists Sim.oldLedgerText, _. split; [vm_compute; reflexivity|].
    split; [vm_compute; reflexivity|]. vm_compute. discriminate.
Defined.

(** The URL list of the scenario with the parser of the simulation. *)
Lemma parseUrlFile_scenario_witness :
  parseUrlContent (H := Sim.platform Sim.oneUrlList) urlListScenario
  = [mkUrlEntry "https://a.example" (Some "x")].
Proof.
  destruct (Sim.parseURL "https://a.example") as [u|] eqn:E;
    [|vm_compute in E; discriminate E].
  apply (parseUrlFile_scenario (H := Sim.platform Sim.oneUrlList) u).
  - exact E.
  - vm_compute. reflexivity.
Defined.

(** A document that is converted in the first cycle: the second cycle
    does nothing. *)
Lemma second_cycle_idle_witness :
  let P := Sim.platform (Sim.oneDocument Sim.alwaysWorks) in
  secondCycle (H := P) Sim.config [] Sim.world0
  = mkOut (Val (Some []))
      (world (cycleBody (H := P) Sim.config [] Sim.world0)) [] /\
  gatewayCalls (events (secondCycle (H := P) Sim.config [] Sim.world0)) = 0%nat.
Proof.
  intros P. apply (second_cycle_idle (H := P) Sim.config [] Sim.world0).
  - by repeat split.
  - reflexivity.
  - reflexivity.
  - reflexivity.
  - vm_compute. constructor.
  - eexists. split; [vm_compute; reflexivity|]. repeat constructor.
Defined.


End Scenarios.

(** * Further properties of the sources *)

#[local] Existing Instance stepwise_compositional.
#[local] Existing Instance sameLedger_preorder.
#[local] Existing Instance sameFlag_preorder.

(** ** The operations of the ledger *)

Section LedgerOperations.
Context `{Platform}.




End LedgerOperations.

(** ** The ledger file *)

Section LedgerFile.
Context `{Platform}.









End LedgerFile.

(** ** Reading the configuration from the environment *)

Section Environment.

Lemma append_empty_r (s : string) : s +:+ "" = s.
Proof.
  induction s as [|c s IH]; [done|].
  change (String c s +:+ "") with (String c (s +:+ "")). by rewrite IH.
Qed.

Lemma pretty_N_char_digit d :
  (d < 10)%N ->
  is_digit (pretty_N_char d) = true /\
  digit_value (pretty_N_char d) = Z.of_N d /\
  JS.is_ws (pretty_N_char d) = false /\
  pretty_N_char d <> "-"%char /\ pretty_N_char d <> "+"%char.
Proof.
  intros Hd.
  assert (d = 0 \/ d = 1 \/ d = 2 \/ d = 3 \/ d = 4 \/ d = 5 \/ d = 6
          \/ d = 7 \/ d = 8 \/ d = 9)%N as Hcases by lia.
  repeat (destruct Hcases as [->|Hcases]); [..|subst d]; by vm_compute.
Qed.

(** The digits that [pretty] writes are read back from the left. *)
Lemma digits_value_pretty x :
  forall s, digits_value 0 (pretty_N_go x s) = digits_value (Z.of_N x) s.
Proof.
  induction (N.lt_wf_0 x) as [x _ IH]. intros s.
  assert (x = 0 \/ 0 < x)%N as [->|Hx] by lia; [by rewrite pretty_N_go_0|].
  rewrite pretty_N_go_step by done.
  rewrite IH by (by apply N.div_lt). cbn [digits_value].
  destruct (pretty_N_char_digit (x `mod` 10)%N) as (-> & -> & _);
    [by apply N.mod_lt|].
  f_equal.
  replace (Z.of_N x) with (Z.of_N (10 * (x `div` 10) + x `mod` 10))
    by (by rewrite <- (N.div_mod x 10)).
  lia.
Qed.

Lemma pretty_N_go_head x s :
  (0 < x)%N ->
  exists d r, (d < 10)%N /\ pretty_N_go x s = String (pretty_N_char d) r.
Proof.
  revert s. induction (N.lt_wf_0 x) as [x _ IH]. intros s Hx.
  rewrite pretty_N_go_step by done.
  destruct (N.eq_0_gt_0_cases (x `div` 10)) as [->|Hd].
  - rewrite pretty_N_go_0. exists (x `mod` 10)%N, s.
    split; [by apply N.mod_lt | done].
  - apply IH; [by apply N.div_lt | done].
Qed.

Lemma pretty_N_go_app x s t : pretty_N_go x s +:+ t = pretty_N_go x (s +:+ t).
Proof.
  revert s. induction (N.lt_wf_0 x) as [x _ IH]. intros s.
  assert (x = 0 \/ 0 < x)%N as [->|Hx] by lia; [by rewrite !pretty_N_go_0|].
  rewrite (pretty_N_go_step x s), (pretty_N_go_step x (s +:+ t)) by done.
  by rewrite IH by (by apply N.div_lt).
Qed.

Lemma digits_value_stops acc rest : stops rest -> digits_value acc rest = acc.
Proof. destruct rest as [|c r]; [done|]. cbn. by intros ->. Qed.

Lemma pretty_positive_digits p rest :
  stops rest ->
  exists d r, (d < 10)%N /\
    pretty (N.pos p) +:+ rest = String (pretty_N_char d) r /\
    digits_value 0 (String (pretty_N_char d) r) = Z.pos p.
Proof.
  intros Hrest. unfold pretty, pretty_N.
  rewrite decide_False by done. rewrite pretty_N_go_app.
  change ("" +:+ rest) with rest.
  destruct (pretty_N_go_head (N.pos p) rest) as (d & r & Hd & E); [done|].
  exists d, r. split; [done|]. split; [done|].
  rewrite <- E, digits_value_pretty. by apply digits_value_stops.
Qed.

(** The sign and the white space in front of a digit. *)
Lemma Number_parseInt_digits d r :
  (d < 10)%N ->
  Number_parseInt (String (pretty_N_char d) r)
  = Some (digits_value 0 (String (pretty_N_char d) r)) /\
  Number_parseInt (String "-" (String (pretty_N_char d) r))
  = Some (- digits_value 0 (String (pretty_N_char d) r)).
Proof.
  intros Hd.
  destruct (pretty_N_char_digit d Hd) as (Hdig & _ & Hws & Hm & Hp).
  unfold Number_parseInt. cbn [JS.trimStart]. rewrite Hws.
  change (JS.is_ws "-") with false. cbv iota.
  assert (match String (pretty_N_char d) r with
          | String "-" r0 => (-1, r0)
          | String "+" r0 => (1, r0)
          | _ => (1, String (pretty_N_char d) r)
          end = (1, String (pretty_N_char d) r)) as ->.
  { destruct (pretty_N_char d) as [[] [] [] [] [] [] [] []];
      try done; by destruct Hm || by destruct Hp. }
  rewrite Hdig. split; f_equal; lia.
Qed.

Lemma parseInt_pretty (n d : Z) (rest : string) :
  stops rest -> parseInt (Some (pretty n +:+ rest)) d = n.
Proof.
  intros Hrest. unfold parseInt.
  destruct n as [|p|p].
  - change (pretty 0 +:+ rest) with (String (pretty_N_char 0) rest).
    destruct (Number_parseInt_digits 0 rest) as [-> _]; [done|].
    cbn. by apply digits_value_stops.
  - destruct (pretty_positive_digits p rest Hrest) as (d' & r & Hd & E & Hv).
    change (pretty (Z.pos p)) with (pretty (N.pos p)). rewrite E.
    destruct (Number_parseInt_digits d' r Hd) as [-> _]. by rewrite Hv.
  - destruct (pretty_positive_digits p rest Hrest) as (d' & r & Hd & E & Hv).
    change (pretty (Z.neg p) +:+ rest)
      with (String "-" (pretty (N.pos p) +:+ rest)).
    rewrite E.
    destruct (Number_parseInt_digits d' r Hd) as [_ ->]. by rewrite Hv.
Qed.


(** X7. Variables that are not set, or whose text does not start with
    a number, give the defaults, and the defaults pass validation. *)
Theorem loadConfig_fallback_valid (env : gmap string string) :
  (forall k v, k ∈ ["WATCH_INTERVAL"; "CONCURRENT_JOBS"; "MAX_RETRIES"] ->
     env !! k = Some v -> Number_parseInt v = None) ->
  watchInterval (loadConfig env) = 30 /\
  concurrentJobs (loadConfig env) = 4 /\
  maxRetries (loadConfig env) = 3 /\
  validateConfig (loadConfig env) = [].
Proof.
  intros Henv.
  assert (Hk : forall k dflt,
            k ∈ ["WATCH_INTERVAL"; "CONCURRENT_JOBS"; "MAX_RETRIES"] ->
            parseInt (env !! k) dflt = dflt).
  { intros k dflt Hin. unfold parseInt.
    destruct (env !! k) as [v|] eqn:E; [|done].
    by rewrite (Henv k v Hin E). }
  unfold validateConfig. cbn [loadConfig watchInterval concurrentJobs maxRetries].
  rewrite !Hk by (rewrite !elem_of_cons; auto). done.
Qed.

(** X8. When the three variables that are validated hold integers in
    decimal, validation reports exactly the constraints that these
    integers break, in the order of the checks. *)
Theorem loadConfig_validation (env : gmap string string) (a b c : Z) :
  env !! "WATCH_INTERVAL" = Some (pretty a) ->
  env !! "CONCURRENT_JOBS" = Some (pretty b) ->
  env !! "MAX_RETRIES" = Some (pretty c) ->
  validateConfig (loadConfig env)
  = (if a <? 1 then ["WATCH_INTERVAL must be at least 1 second"] else [])
    ++ (if b <? 1 then ["CONCURRENT_JOBS must be at least 1"] else [])
    ++ (if c <? 0 then ["MAX_RETRIES cannot be negative"] else []).
Proof.
  intros Ha Hb Hc. unfold validateConfig.
  cbn [loadConfig watchInterval concurrentJobs maxRetries].
  rewrite Ha, Hb, Hc.
  assert (Hp : forall n dflt, parseInt (Some (pretty n)) dflt = n).
  { intros n dflt. rewrite <- (parseInt_pretty n dflt "") at 2 by done.
    by rewrite append_empty_r. }
  by rewrite !Hp.
Qed.

End Environment.

(** ** The URL resolver and the URL lists *)

Section FetcherExtras.
Context `{Platform}.

Lemma fetchWithNative_result url cfg h w :
  exists r,
    fetchWithNative url cfg h w = mkOut (Val r) w [EvFetchGet url] /\
    resultFor url r /\ method r = fetch.
Proof.
  unfold fetchWithNative. msimpl.
  destruct (http_get _ url cfg) as [msg|ok status statusText body]; msimpl.
  { eexists. split; [done|]. split; [|done]. split; [done|]. cbn. eauto. }
  destruct ok; msimpl.
  2:{ eexists. split; [done|]. split; [|done]. split; [done|]. cbn. eauto. }
  destruct (requiresJavaScript body); msimpl.
  - eexists. split; [done|]. split; [|done]. split; [done|]. cbn. eauto.
  - eexists. split; [done|]. split; [|done]. by split.
Qed.

Lemma fetchWithPlaywright_result url cfg h w :
  exists r e,
    fetchWithPlaywright url cfg h w = mkOut (Val r) w e /\
    resultFor url r /\ method r = playwright /\
    Forall (fun ev => layer_of ev = Some 2%nat) e.
Proof.
  unfold fetchWithPlaywright. destruct (playwrightEnabled cfg); cbn [negb].
  2:{ eexists _, []. split; [done|]. split; [|by split].
      split; [done|]. cbn. eauto. }
  msimpl. destruct (browser_launch _) as [msg|]; msimpl.
  { eexists _, _. split; [done|]. split; [|split; [done|by repeat constructor]].
    split; [done|]. cbn. eauto. }
  destruct (browser_render _ url cfg) as [msg|page]; msimpl.
  - eexists _, _. split; [done|]. split; [|split; [done|by repeat constructor]].
    split; [done|]. cbn. eauto.
  - eexists _, _. split; [done|]. split; [|split; [done|by repeat constructor]].
    by split.
Qed.

Lemma fetchWithBrowserless_result url cfg h w :
  exists r e,
    fetchWithBrowserless url cfg h w = mkOut (Val r) w e /\
    resultFor url r /\ method r = browserless /\
    Forall (fun ev => layer_of ev = Some 3%nat) e.
Proof.
  unfold fetchWithBrowserless. destruct (browserlessEnabled cfg); cbn [negb].
  2:{ eexists _, []. split; [done|]. split; [|by split].
      split; [done|]. cbn. eauto. }
  msimpl. destruct (http_post _ _ url cfg) as [msg|ok status statusText body];
    msimpl.
  { eexists _, _. split; [done|]. split; [|split; [done|by repeat constructor]].
    split; [done|]. cbn. eauto. }
  destruct ok; msimpl.
  - eexists _, _. split; [done|]. split; [|split; [done|by repeat constructor]].
    by split.
  - eexists _, _. split; [done|]. split; [|split; [done|by repeat constructor]].
    split; [done|]. cbn. eauto.
Qed.

(** X9. The resolver never throws and leaves the file system, the
    ledger and the shutdown flag as they are; its events all belong to
    one of the three layers.  The result is for the URL that was asked
    for; a success carries no error, and a failure has an empty page and
    is the one fixed object: the errors of the single layers are not
    passed on. *)
Theorem fetchUrl_result (url : string) (cfg : Config) (h : list event) (w : World) :
  exists r e,
    fetchUrl url cfg h w = mkOut (Val r) w e /\
    Forall (fun ev => is_Some (layer_of ev)) e /\
    resultFor url r /\
    (success r = false -> r = allFailed url).
Proof.
  unfold fetchUrl.
  destruct (fetchWithNative_result url cfg h w) as (r1 & E1 & W1 & _).
  rewrite (bind_val _ _ _ _ _ _ _ E1).
  destruct (success r1) eqn:S1.
  { exists r1, [EvFetchGet url]. unfold ret. cbn [after app].
    split; [done|]. split; [by repeat constructor|]. split; [done | congruence]. }
  destruct (fetchWithPlaywright_result url cfg (h ++ [EvFetchGet url]) w)
    as (r2 & e2 & E2 & W2 & _ & L2).
  rewrite (bind_val _ _ _ _ _ _ _ E2).
  assert (Hl2 : Forall (fun ev => is_Some (layer_of ev)) e2).
  { eapply Forall_impl; [exact L2|]. intros ev ->. eauto. }
  destruct (success r2) eqn:S2.
  { exists r2, ([EvFetchGet url] ++ e2 ++ []). unfold ret. cbn [after].
    split; [done|]. rewrite app_nil_r. split; [|split; [done | congruence]].
    apply Forall_app. split; [by repeat constructor | done]. }
  destruct (fetchWithBrowserless_result url cfg
              ((h ++ [EvFetchGet url]) ++ e2) w)
    as (r3 & e3 & E3 & W3 & _ & L3).
  rewrite (bind_val _ _ _ _ _ _ _ E3).
  assert (Hl3 : Forall (fun ev => is_Some (layer_of ev)) e3).
  { eapply Forall_impl; [exact L3|]. intros ev ->. eauto. }
  assert (Hall : Forall (fun ev => is_Some (layer_of ev))
                   ([EvFetchGet url] ++ e2 ++ e3 ++ [])).
  { rewrite app_nil_r. apply Forall_app. split; [by repeat constructor|].
    by apply Forall_app. }
  destruct (success r3) eqn:S3.
  - exists r3, ([EvFetchGet url] ++ e2 ++ e3 ++ []). unfold ret. cbn [after].
    split; [done|]. split; [done|]. split; [done | congruence].
  - exists (allFailed url), ([EvFetchGet url] ++ e2 ++ e3 ++ []).
    unfold ret. cbn [after]. split; [done|]. split; [done|].
    split; [|done]. split; [done|]. cbn. eauto.
Qed.

(** X10. The later revision of the resolver has two layers: it asks
    the native layer first and the browser only when that has failed,
    and it never posts to the rendering service.  When both have failed
    the result names the browser layer. *)
Theorem fetchUrl_twoLayers_order (url : string) (cfg : Config)
  (h : list event) (w : World) :
  exists r1 r2 e2,
    fetchWithNative url cfg h w = mkOut (Val r1) w [EvFetchGet url] /\
    fetchWithPlaywright url cfg (h ++ [EvFetchGet url]) w = mkOut (Val r2) w e2 /\
    Forall (fun ev => layer_of ev = Some 2%nat) e2 /\
    fetchUrl_twoLayers url cfg h w =
      (if success r1 then mkOut (Val r1) w [EvFetchGet url]
       else if success r2 then mkOut (Val r2) w (EvFetchGet url :: e2)
       else mkOut (Val (bothFailed url)) w (EvFetchGet url :: e2)) /\
    Forall (fun ev => layer_of ev <> Some 3%nat)
           (events (fetchUrl_twoLayers url cfg h w)).
Proof.
  destruct (fetchWithNative_result url cfg h w) as (r1 & E1 & _).
  destruct (fetchWithPlaywright_result url cfg (h ++ [EvFetchGet url]) w)
    as (r2 & e2 & E2 & _ & _ & L2).
  exists r1, r2, e2. split; [done|]. split; [done|]. split; [done|].
  assert (Hno : Forall (fun ev => layer_of ev <> Some 3%nat)
                  (EvFetchGet url :: e2)).
  { constructor; [done|]. eapply Forall_impl; [exact L2|]. by intros ev ->. }
  assert (E : fetchUrl_twoLayers url cfg h w =
      (if success r1 then mkOut (Val r1) w [EvFetchGet url]
       else if success r2 then mkOut (Val r2) w (EvFetchGet url :: e2)
       else mkOut (Val (bothFailed url)) w (EvFetchGet url :: e2))).
  { unfold fetchUrl_twoLayers. rewrite (bind_val _ _ _ _ _ _ _ E1).
    destruct (success r1); [done|].
    rewrite (bind_val _ _ _ _ _ _ _ E2).
    destruct (success r2); unfold ret; cbn [after app]; by rewrite app_nil_r. }
  split; [exact E|]. rewrite E.
  destruct (success r1); [by repeat constructor|].
  by destruct (success r2).
Qed.

End FetcherExtras.

Section UrlListExtras.
Context `{Platform}.

(** X11. The two revisions of [parseUrlFile] give the same entries in
    the same order: the loop that pushes the entries one by one computes
    what the map with the filter computes, and neither ever throws. *)
Theorem parseUrlFile_push_agrees (p : string) (h : list event) (w : World) :
  parseUrlFile_push p h w = parseUrlFile p h w /\
  exists urls, parseUrlFile_push p h w = mkOut (Val urls) w [].
Proof.
  assert (E : parseUrlFile_push p h w = parseUrlFile p h w).
  { rewrite parseUrlFile_run. unfold parseUrlFile_push, input_exists, input_text.
    msimpl. destruct (input_file h p) as [c|] eqn:Ec.
    - rewrite bool_decide_eq_true_2 by eauto. msimpl. rewrite Ec. msimpl.
      by rewrite parseUrlLines_push_spec.
    - rewrite bool_decide_eq_false_2 by (by intros [? ?]). by msimpl. }
  split; [exact E|]. rewrite E, parseUrlFile_run. by eexists.
Qed.

Lemma isHttpLine_entry line :
  isHttpLine line = true ->
  JS.startsWith (JS.trim line) "#" = false /\
  parseUrlLine line
  = Some (mkUrlEntry (firstToken (JS.trim line)) (secondToken (JS.trim line))) /\
  exists u, URL_parse (firstToken (JS.trim line)) = Some u /\
            (protocol u = "http:" \/ protocol u = "https:").
Proof.
  unfold isHttpLine, parseUrlLine.
  destruct (JS.startsWith (JS.trim line) "#"); [done|].
  destruct (URL_parse (firstToken (JS.trim line))) as [u|]; [|done].
  intros [Hp|Hp]%orb_true_iff; apply String.eqb_eq in Hp;
    (split; [done|]; split; [done|]; exists u; auto).
Qed.

Lemma comment_skipped line :
  JS.startsWith (JS.trim line) "#" = true -> parseUrlLine line = None.
Proof. unfold parseUrlLine. by intros ->. Qed.

Lemma filter_http_le (lines : list string) :
  (length (filter (fun l => isHttpLine l = true) lines)
   <= length (filter (fun l => JS.startsWith (JS.trim l) "#" = false) lines))%nat.
Proof.
  induction lines as [|x lines IH]; [done|]. rewrite !filter_cons.
  destruct (decide (isHttpLine x = true)) as [Hx|Hx].
  - destruct (isHttpLine_entry x Hx) as (Hc & _).
    rewrite decide_True by done. cbn [length]. lia.
  - destruct (decide _); cbn [length]; lia.
Qed.

Lemma all_lines_http (lines : list string) :
  length (filter (fun l => isHttpLine l = true) lines)
  = length (filter (fun l => JS.startsWith (JS.trim l) "#" = false) lines) ->
  omap parseUrlLine lines
  = map (fun l => mkUrlEntry (firstToken (JS.trim l)) (secondToken (JS.trim l)))
      (filter (fun l => JS.startsWith (JS.trim l) "#" = false) lines) /\
  Forall (fun l => isHttpLine l = true)
    (filter (fun l => JS.startsWith (JS.trim l) "#" = false) lines).
Proof.
  induction lines as [|x lines IH]; [done|]. rewrite !filter_cons.
  pose proof (filter_http_le lines) as Hle.
  destruct (decide (isHttpLine x = true)) as [Hx|Hx].
  - destruct (isHttpLine_entry x Hx) as (Hc & Hp & _).
    rewrite decide_True by done. cbn [length]. intros [= Hlen].
    destruct (IH Hlen) as [IH1 IH2]. cbn [omap list_omap map].
    rewrite Hp. split; [by f_equal | by constructor].
  - destruct (decide (JS.startsWith (JS.trim x) "#" = false)) as [Hc|Hc].
    + cbn [length]. lia.
    + intros Hlen. destruct (IH Hlen) as [IH1 IH2]. cbn [omap list_omap].
      rewrite comment_skipped by (by destruct (JS.startsWith _ _)). done.
Qed.

(** X12. A file that counts as a list of URLs loses no line: every
    line that is neither blank nor a comment gives an entry, in the
    order of the file, and every entry has an [http:] or [https:] URL.
    A file without such a line is not a list of URLs. *)
Theorem detectUrls_entries (content : string) :
  (detectUrls content = true ->
   nonCommentLines content <> [] /\
   parseUrlContent content
   = map (fun l => mkUrlEntry (firstToken (JS.trim l)) (secondToken (JS.trim l)))
       (nonCommentLines content) /\
   Forall (fun e => exists u, URL_parse (url e) = Some u /\
                      (protocol u = "http:" \/ protocol u = "https:"))
     (parseUrlContent content)) /\
  (nonCommentLines content = [] -> detectUrls content = false).
Proof.
  unfold detectUrls, parseUrlContent, nonCommentLines.
  generalize (nonBlankLines content). intros lines. split.
  - destruct lines as [|l0 ls] eqn:El; [done|]. rewrite <- El. clear El l0 ls.
    intros [Hpos Heq]%andb_true_iff.
    apply Nat.ltb_lt in Hpos. apply Nat.eqb_eq in Heq.
    destruct (all_lines_http lines Heq) as [Hmap Hall].
    split; [intros Hnil; rewrite Hnil in Hpos; cbn in Hpos; lia|].
    split; [exact Hmap|].
    rewrite Hmap. apply Forall_fmap. eapply Forall_impl; [exact Hall|].
    intros l Hl. cbn [url]. by destruct (isHttpLine_entry l Hl) as (_ & _ & ?).
  - intros Hnil. rewrite Hnil. by destruct lines.
Qed.

End UrlListExtras.

Section FileNames.
Context `{Platform}.

Lemma endsWith_refl (t : string) : JS.endsWith t t = true.
Proof. destruct t; cbn [JS.endsWith]; by rewrite String.eqb_refl. Qed.

Lemma endsWith_prepend (s u t : string) :
  JS.endsWith u t = true -> JS.endsWith (s +:+ u) t = true.
Proof.
  intros Hu. induction s as [|c s IH]; [done|].
  change (String c s +:+ u) with (String c (s +:+ u)).
  cbn [JS.endsWith]. rewrite IH. apply orb_true_r.
Qed.

Lemma endsWith_app (s t : string) : JS.endsWith (s +:+ t) t = true.
Proof. apply endsWith_prepend, endsWith_refl. Qed.

Lemma replace_class_safe (s : string) :
  string_all safe_char
    (JS.replace_class (fun c => negb (safe_char c)) "_" s) = true.
Proof.
  induction s as [|c s IH]; [done|]. cbn [JS.replace_class].
  destruct (safe_char c) eqn:Hc; cbn [negb].
  - cbn [string_all]. by rewrite Hc, IH.
  - change ("_" +:+ ?x) with (String "_" x). cbn [string_all]. by rewrite IH.
Qed.

Lemma sanitizePathname_safe (pathname : string) :
  string_all safe_char (sanitizePathname pathname) = true.
Proof. apply replace_class_safe. Qed.

Lemma derivedFilename_run url h w :
  exists name, derivedFilename url h w = mkOut (Val name) w [] /\
               JS.endsWith name ".html" = true.
Proof.
  unfold derivedFilename. destruct (URL_parse url) as [parsed|].
  - eexists. split; [done|]. apply endsWith_app.
  - rewrite (bind_pure _ _ _ _ _ (now_run h w)). eexists. split; [done|].
    apply endsWith_prepend, endsWith_app.
Qed.

(** X13. [urlToFilename] never throws and touches nothing, and the
    name it gives always ends in [.html].  A name given in the list is
    taken as it is written, completed with [.html] when that is not its
    end: it is not cleaned as a derived name is.  An empty name counts
    as none. *)
Theorem urlToFilename_name (url : string) (custom : option string)
  (h : list event) (w : World) :
  exists name,
    urlToFilename url custom h w = mkOut (Val name) w [] /\
    JS.endsWith name ".html" = true /\
    match custom with
    | Some (String c r) =>
        name = (if JS.endsWith (String c r) ".html" then String c r
                else String c r +:+ ".html")
    | _ => urlToFilename url custom h w = derivedFilename url h w
    end.
Proof.
  unfold urlToFilename.
  destruct custom as [[|c r]|]; cbn [JS.truthy].
  - destruct (derivedFilename_run url h w) as (name & E & Hn). by exists name.
  - eexists. split; [done|]. split; [|done].
    destruct (JS.endsWith (String c r) ".html") eqn:E; [done|].
    apply endsWith_app.
  - destruct (derivedFilename_run url h w) as (name & E & Hn). by exists name.
Qed.

(** X14. The name derived from the path of a URL holds only letters,
    digits, [_] and [-] before its [.html]: no separator and no dot of
    the path is left in it. *)
Theorem derivedFilename_safe (url : string) (parsed : URL)
  (h : list event) (w : World) :
  URL_parse url = Some parsed ->
  let stem := sanitizePathname (pathname parsed) in
  stem <> EmptyString -> stem <> "_" ->
  urlToFilename url None h w = mkOut (Val (stem +:+ ".html")) w [] /\
  string_all safe_char stem = true.
Proof.
  intros Hu stem H1 H2. split; [|apply sanitizePathname_safe].
  unfold urlToFilename, derivedFilename. rewrite Hu. fold stem.
  destruct stem as [|c r]; [done|]. cbn [JS.truthy negb orb].
  destruct (String.eqb_spec (String c r) "_"); done.
Qed.

End FileNames.

(** ** The extraction of one document *)

Section ExtractionExtras.
Context `{Platform}.

Lemma gatewayCalls_app (e1 e2 : list event) :
  gatewayCalls (e1 ++ e2) = (gatewayCalls e1 + gatewayCalls e2)%nat.
Proof. unfold gatewayCalls. by rewrite List.filter_app, length_app. Qed.

(** X15. One call of [extractDocument] starts the conversion service
    exactly once and never throws, and it leaves the ledger and the
    shutdown flag alone.  When it reports a failure it has written no
    file.  It reports success only when the service has ended with exit
    code 0 and the text could be written, and then the output file holds
    what the service printed; an exit code 0 with an output path that is
    a directory is reported as a failure. *)
Theorem extractDocument_outcome (inputPath outputPath : string) (cfg : Config)
  (h : list event) (w : World) :
  exists r w' cmd post,
    extractDocument inputPath outputPath cfg h w
    = mkOut (Val r) w' (EvSpawn cmd :: post) /\
    gatewayCalls (EvSpawn cmd :: post) = 1%nat /\
    state w' = state w /\ isShuttingDown w' = isShuttingDown w /\
    (if ex_success r then
       exists stdout stderr,
         spawn (h ++ [EvSpawn cmd]) cmd = Exited stdout stderr 0 /\
         fs w !! outputPath <> Some Dir /\
         fs w' = <[outputPath := File stdout]> (fs w) /\
         ex_content r = Some stdout /\ ex_error r = None
     else fs w' = fs w /\ is_Some (ex_error r) /\ ex_content r = None).
Proof.
  pose proof (extractDocument_run inputPath outputPath cfg h w) as E.
  cbv zeta in E.
  set (cmd := kreuzbergCommand inputPath cfg
                (bool_decide (is_Some (fs w !! kreuzbergConfig cfg)))) in *.
  destruct (spawn (h ++ [EvSpawn cmd]) cmd) as [msg|stdout stderr code] eqn:S.
  { eexists _, w, cmd, []. split; [exact E|]. cbn. eauto 10. }
  destruct code as [|c|c].
  2,3: eexists _, w, cmd, []; split; [exact E|]; cbn; eauto 10.
  destruct (fs w !! outputPath) as [[c|]|] eqn:F.
  - eexists _, _, cmd, _. split; [exact E|]. cbn. repeat split; eauto 10.
  - eexists _, w, cmd, _. split; [exact E|]. cbn. eauto 10.
  - eexists _, _, cmd, _. split; [exact E|]. cbn. repeat split; eauto 10.
Qed.

End ExtractionExtras.

Section JobExtras.
Context `{Platform}.

Lemma generateOutputPath_value inputPath cfg h w :
  generateOutputPath inputPath (inputDir cfg) (outputDir cfg) cfg h w =
  let out := outputPathAt cfg (toISOString (Date_now h)) inputPath in
  if preserveStructure cfg
     && negb (String.eqb (dirname (relative (inputDir cfg) inputPath)) ".")
     && negb (bool_decide (is_Some (fs w !! outputSubDir cfg inputPath)))
  then mkOut (Val out)
         (set_fs (<[outputSubDir cfg inputPath := Dir]> (fs w)) w)
         [EvMkdirSync (outputSubDir cfg inputPath)]
  else mkOut (Val out) w [].
Proof.
  unfold generateOutputPath, outputSubDir, outputPathAt.
  set (rel := relative (inputDir cfg) inputPath).
  set (sub := join (outputDir cfg) (dirname rel)).
  set (name := if addTimestamp cfg
               then basename rel (extname rel) +:+ "_"
                    +:+ compactTimestamp (toISOString (Date_now h)) +:+ ".md"
               else basename rel (extname rel) +:+ ".md").
  assert (Hname :
    (if addTimestamp cfg
     then iso <- now_iso ;;
          ret (basename rel (extname rel) +:+ "_" +:+ compactTimestamp iso +:+ ".md")
     else ret (basename rel (extname rel) +:+ ".md")) h w
    = mkOut (Val name) w []).
  { unfold name. destruct (addTimestamp cfg); by msimpl. }
  rewrite (bind_pure _ _ _ _ _ Hname). cbv zeta.
  destruct (preserveStructure cfg && negb (String.eqb (dirname rel) "."));
    cbn [andb]; [|done].
  msimpl.
  destruct (fs w !! sub) as [[c|]|] eqn:E.
  - rewrite bool_decide_eq_true_2 by eauto. by msimpl.
  - rewrite bool_decide_eq_true_2 by eauto. by msimpl.
  - rewrite bool_decide_eq_false_2 by (by intros [? ?]). msimpl.
    rewrite E. by msimpl.
Qed.

Lemma gatewayCalls_spawn (h : list event) cmd :
  gatewayCalls (h ++ [EvSpawn cmd]) = S (gatewayCalls h).
Proof. rewrite gatewayCalls_app. cbn. lia. Qed.

(** The retry loop when the service fails [k] times and then works. *)
Lemma processJob_loop_recovers cfg out stdout stderr :
  forall k n attempt job le (h : list event) w,
    (k < n)%nat ->
    attempt + Z.of_nat k <= maxRetries cfg ->
    (forall h' cmd, (gatewayCalls h' <= gatewayCalls h + k)%nat ->
                    serviceFails (spawn h' cmd)) ->
    (forall h' cmd, gatewayCalls h' = (gatewayCalls h + k + 1)%nat ->
                    spawn h' cmd = Exited stdout stderr 0) ->
    fs w !! out <> Some Dir ->
    let cmd := kreuzbergCommand (path (job_entry job)) cfg
                 (bool_decide (is_Some (fs w !! kreuzbergConfig cfg))) in
    let evs := failedAttempts k cmd (retryDelay cfg)
               ++ [EvSpawn cmd; EvBunWrite out stdout] in
    let job_k := match k with
                 | O => job
                 | S _ => set_retries (attempt + Z.of_nat k - 1) job
                 end in
    processJob_loop n attempt job le out cfg h w
    = mkOut (Val (inl (set_endTime (Date_now (h ++ evs))
                         (set_status completed job_k))))
            (set_fs (<[out := File stdout]> (fs w)) w) evs.
Proof.
  induction k as [|k IH]; intros n attempt job le h w Hn Hmax Hfail Hok Hout;
    (destruct n as [|n]; [lia|]).
  - cbn [failedAttempts app]. cbn [processJob_loop].
    pose proof (extractDocument_run (path (job_entry job)) out cfg h w) as E.
    cbv zeta in E.
    rewrite (Hok (h ++ [EvSpawn _])) in E by (rewrite gatewayCalls_spawn; lia).
    assert (E' : extractDocument (path (job_entry job)) out cfg h w
                 = mkOut (Val (mkExtractResult true (Some stdout) None))
                     (set_fs (<[out := File stdout]> (fs w)) w)
                     [EvSpawn (kreuzbergCommand (path (job_entry job)) cfg
                                 (bool_decide (is_Some (fs w !! kreuzbergConfig cfg))));
                      EvBunWrite out stdout]).
    { rewrite E. by destruct (fs w !! out) as [[c|]|]. }
    rewrite (bind_val _ _ _ _ _ _ _ E'). cbn [ex_success].
    rewrite (bind_pure _ _ _ _ _ (now_run _ _)). unfold ret.
    cbn [after]. by rewrite app_nil_r.
  - intros cmd evs job_k.
    assert (Hf : serviceFails (spawn (h ++ [EvSpawn cmd]) cmd)).
    { apply Hfail. rewrite gatewayCalls_spawn. lia. }
    rewrite (processJob_loop_fails n attempt job le out cfg h w Hf).
    fold cmd. rewrite (proj2 (Z.ltb_lt attempt (maxRetries cfg))) by lia.
    assert (Hc : gatewayCalls (h ++ [EvSpawn cmd; EvSleep (retryDelay cfg)])
                 = S (gatewayCalls h)).
    { rewrite gatewayCalls_app. cbn. lia. }
    rewrite (IH n (attempt + 1) (set_retries attempt job)).
    + cbn [job_entry set_retries]. fold cmd. cbn [after].
      unfold evs. cbn [failedAttempts app]. rewrite <- !app_assoc. cbn [app].
      f_equal. f_equal. f_equal. unfold job_k.
      destruct k as [|k]; unfold set_status, set_endTime, set_retries;
        cbn [job_id job_entry job_status job_retries job_error startTime endTime];
        f_equal; lia.
    + lia.
    + lia.
    + intros h' c Hh. apply Hfail. lia.
    + intros h' c Hh. apply Hok. lia.
    + done.
Qed.

(** X16. When the service fails [k] times and then works, with [k]
    below the retry limit, the job makes [k + 1] attempts with the fixed
    delay after each failure and nothing else in between, ends
    [completed] with [retries] counting the failures (untouched when
    there was none), keeps no error, and the output file holds what the
    last attempt printed.  Nothing is quarantined and the ledger is not
    touched. *)
Theorem processJob_recovers cfg job (h : list event) w (k : nat) stdout stderr :
  let p := path (job_entry job) in
  let out := outputPathAt cfg (toISOString (Date_now h)) p in
  Z.of_nat k < maxRetries cfg ->
  (forall h' cmd, (gatewayCalls h' <= gatewayCalls h + k)%nat ->
                  serviceFails (spawn h' cmd)) ->
  (forall h' cmd, gatewayCalls h' = (gatewayCalls h + k + 1)%nat ->
                  spawn h' cmd = Exited stdout stderr 0) ->
  fs w !! out <> Some Dir -> out <> outputSubDir cfg p ->
  exists pre hasConfig job' w',
    let cmd := kreuzbergCommand p cfg hasConfig in
    processJob job cfg h w
    = mkOut (Val job') w'
        (pre ++ failedAttempts k cmd (retryDelay cfg)
             ++ [EvSpawn cmd; EvBunWrite out stdout]) /\
    Forall (fun e => is_mkdir e = true) pre /\
    job_status job' = completed /\
    job_retries job' = match k with O => job_retries job | S _ => Z.of_nat k end /\
    job_error job' = job_error job /\
    job_entry job' = job_entry job /\ job_id job' = job_id job /\
    fs w' !! out = Some (File stdout) /\
    state w' = state w.
Proof.
  intros p out Hk Hfail Hok Hout Hsub. unfold processJob.
  rewrite (bind_pure _ _ _ _ _ (now_run h w)).
  cbn [job_entry set_status set_startTime]. fold p.
  pose proof (generateOutputPath_value p cfg h w) as G. cbv zeta in G.
  fold out in G.
  set (job0 := set_startTime (Date_now h) (set_status processing job)).
  destruct (preserveStructure cfg && _ && _).
  - rewrite (bind_val _ _ _ _ _ _ _ G).
    set (w1 := set_fs (<[outputSubDir cfg p := Dir]> (fs w)) w).
    assert (Hout1 : fs w1 !! out <> Some Dir).
    { unfold w1. cbn [fs set_fs]. by rewrite lookup_insert_ne. }
    assert (Hc : gatewayCalls (h ++ [EvMkdirSync (outputSubDir cfg p)])
                 = gatewayCalls h).
    { rewrite gatewayCalls_app. cbn. lia. }
    pose proof (processJob_loop_recovers cfg out stdout stderr k
                  (Z.to_nat (maxRetries cfg)) 1 job0 ""
                  (h ++ [EvMkdirSync (outputSubDir cfg p)]) w1) as L.
    cbv zeta in L. rewrite Hc in L.
    specialize (L ltac:(lia) ltac:(lia) Hfail Hok Hout1).
    rewrite (bind_val _ _ _ _ _ _ _ L). unfold ret. cbn [after].
    eexists [EvMkdirSync (outputSubDir cfg p)], _, _, _.
    split; [by rewrite app_nil_r|].
    split; [by repeat constructor|].
    destruct k; cbn; rewrite ?lookup_insert_eq; repeat split; try done; lia.
  - rewrite (bind_pure _ _ _ _ _ G).
    pose proof (processJob_loop_recovers cfg out stdout stderr k
                  (Z.to_nat (maxRetries cfg)) 1 job0 "" h w) as L.
    cbv zeta in L.
    specialize (L ltac:(lia) ltac:(lia) Hfail Hok Hout).
    rewrite (bind_val _ _ _ _ _ _ _ L). unfold ret. cbn [after].
    eexists [], _, _, _.
    split; [by rewrite app_nil_r|].
    split; [by constructor|].
    destruct k; cbn; rewrite ?lookup_insert_eq; repeat split; try done; lia.
Qed.

#[global] Instance fsGrows_preorder : PreOrder fsGrows.
Proof. split; [by intros w p | intros w1 w2 w3 H1 H2 p Hp; auto]. Qed.
















End JobExtras.

(** ** The cycle as a whole *)

(** The walk through the file side of a cycle and through the whole
    cycle, for any compositional specification that holds of what
    leaves the ledger alone, of a job with its mark and of a save. *)
Section CycleWalk.
Context `{Platform} (Q : Spec) `{!Compositional Q} (cfg : Config).
Hypothesis Q_ledger :
  forall A (m : M A), obeys (stepwise sameLedger (fun _ => True)) m -> obeys Q m.
Hypothesis Q_tail :
  forall u cached out, URL_parse u <> None -> obeys Q (urlTail cfg u cached out).
Hypothesis Q_mark : forall p, obeys Q (listMark p).
Hypothesis Q_job : forall job, obeys Q (runJob cfg job).
Hypothesis Q_save : forall p, obeys Q (saveProcessedState p).

Lemma processFiles_loop_walk fuel :
  forall i jobs, obeys Q (processFiles_loop fuel i jobs cfg).
Proof.
  induction fuel as [|fuel IH]; intros i jobs; cbn [processFiles_loop].
  - destruct (negb _); by apply obeys_ret.
  - destruct (negb _); [by apply obeys_ret|].
    apply obeys_bind; [done | by apply obeys_get_world |].
    intros w0. destruct (isShuttingDown w0); [by apply obeys_ret|].
    apply obeys_bind; [done | |intros rs].
    { apply obeys_promise_all; [done|].
      apply Forall_map, Forall_forall. intros job _. apply Q_job. }
    apply obeys_bind; [done | apply Q_save |].
    intros _. apply IH.
Qed.

Lemma processFiles_walk : obeys Q (processFiles cfg).
Proof.
  unfold processFiles.
  apply obeys_bind; [done | |intros entries].
  { by apply Q_ledger, pure_ledger. }
  apply obeys_bind; [done | |intros newFiles].
  { apply Q_ledger, pure_ledger. intros h w. rewrite selectNewFiles_run.
    by destruct (selected _ _ _ _). }
  destruct newFiles as [|x l]; [by apply obeys_ret|].
  apply obeys_bind; [done | |intros jobs].
  { apply Q_ledger, pure_ledger. apply createJobs_pure. }
  apply processFiles_loop_walk.
Qed.

Lemma cycleBody_walk : obeys Q (cycleBody cfg).
Proof.
  unfold cycleBody.
  apply obeys_bind; [done | |intros _; apply processFiles_walk].
  by apply processUrls_walk.
Qed.

Lemma runCycle_walk : obeys Q (runCycle cfg).
Proof.
  unfold runCycle. apply obeys_try_catch; [done| |intros msg; by apply obeys_ret].
  apply obeys_bind; [done | apply cycleBody_walk |].
  intros jobs. by apply obeys_ret.
Qed.

End CycleWalk.

Section CycleExtras.
Context `{Platform}.

#[global] Instance ledgerGrows_preorder : PreOrder ledgerGrows.
Proof.
  split.
  - by intros w.
  - intros w1 w2 w3 (V1 & F1 & K1) (V2 & F2 & K2).
    split; [congruence|]. split; [congruence|]. auto.
Qed.

Lemma ledgerGrows_same w w' : sameLedger w w' -> ledgerGrows w w'.
Proof. intros [Hs Hf]. split; [by rewrite Hs|]. split; [done|]. by rewrite Hs. Qed.

Lemma ledgerGrows_mark p hsh out r :
  obeys (stepwise ledgerGrows (fun _ => True)) (markFileProcessed p hsh out r).
Proof.
  intros h w. rewrite markFileProcessed_run. cbn [world events].
  split; [|constructor]. split; [done|]. split; [done|].
  intros k Hk. cbn [state set_state setEntry files].
  destruct (decide (k = p)) as [->|Hne].
  - rewrite lookup_insert_eq. eauto.
  - by rewrite lookup_insert_ne.
Qed.

Lemma ledgerGrows_lift {A} (m : M A) P :
  obeys (stepwise sameLedger P) m ->
  obeys (stepwise ledgerGrows (fun _ => True)) m.
Proof. apply stepwise_weaken; [apply ledgerGrows_same | done]. Qed.

Lemma ledgerGrows_runJob cfg job :
  obeys (stepwise ledgerGrows (fun _ => True)) (runJob cfg job).
Proof.
  intros h w. split; [|by apply Forall_forall].
  destruct (runJob_result cfg job h w)
    as [[_ E]|(content & job' & w' & evs & _ & E & _ & Hf & _ & Hcase)];
    rewrite E; cbn [world]; [reflexivity|].
  destruct Hcase as [[_ Hs]|(_ & _ & out & t & Hs)].
  - by apply ledgerGrows_same.
  - unfold ledgerGrows. rewrite Hs. split; [done|]. split; [done|]. intros k Hk.
    cbn [setEntry files]. destruct (decide (k = path (job_entry job))) as [->|Hne].
    + rewrite lookup_insert_eq. eauto.
    + by rewrite lookup_insert_ne.
Qed.

Lemma ledgerGrows_save p :
  obeys (stepwise ledgerGrows (fun _ => True)) (saveProcessedState p).
Proof.
  intros h w. split; [|by apply Forall_forall].
  destruct (saveProcessedState_run p h w) as (w' & E & Hs & Hf).
  rewrite E. cbn [world]. unfold ledgerGrows. by rewrite Hs.
Qed.

Lemma ledgerGrows_urlTail cfg u cached out :
  obeys (stepwise ledgerGrows (fun _ => True)) (urlTail cfg u cached out).
Proof.
  unfold urlTail.
  apply obeys_bind; [typeclasses eauto | |intros r].
  { eapply ledgerGrows_lift, extractDocument_obeys. }
  apply obeys_bind; [typeclasses eauto | |intros _; apply obeys_ret; typeclasses eauto].
  destruct (ex_success r); [apply ledgerGrows_mark|apply obeys_ret; typeclasses eauto].
Qed.

Lemma ledgerGrows_listMark p :
  obeys (stepwise ledgerGrows (fun _ => True)) (listMark p).
Proof.
  unfold listMark. apply obeys_bind; [typeclasses eauto | |intros hsh].
  - eapply ledgerGrows_lift, pure_ledger, calculateFileHash_pure.
  - apply ledgerGrows_mark.
Qed.

(** X18. A cycle never takes an entry out of the ledger and never
    changes its version: whatever the services and the file system do,
    and also when the cycle ends with an error that [runCycle] catches,
    every key that had an entry before the cycle has one after it.  The
    cycle does not touch the shutdown flag. *)
Theorem runCycle_keeps_entries cfg (h : list event) (w : World) :
  let w' := world (runCycle cfg h w) in
  version (state w') = version (state w) /\
  isShuttingDown w' = isShuttingDown w /\
  forall k, is_Some (files (state w) !! k) -> is_Some (files (state w') !! k).
Proof.
  apply (runCycle_walk (stepwise ledgerGrows (fun _ => True)) cfg).
  - intros A m. apply ledgerGrows_lift.
  - intros u cached out _. apply ledgerGrows_urlTail.
  - apply ledgerGrows_listMark.
  - apply ledgerGrows_runJob.
  - apply ledgerGrows_save.
Qed.




Lemma processUrls_stopped cfg h w :
  isShuttingDown w = true -> processUrls cfg h w = mkOut (Val tt) w [].
Proof.
  intros Hf. rewrite processUrls_unfold. destruct (negb _); [done|].
  rewrite (bind_pure _ _ _ _ _ (findUrlFiles_run cfg h w)).
  destruct (urlFilesOf cfg h) as [|u us]; [done|].
  cbn [for_of]. unfold urlFileStep at 1.
  rewrite (bind_pure _ _ _ _ true); [done|].
  rewrite (bind_pure _ _ _ _ w) by done. by rewrite Hf.
Qed.

Lemma processFiles_stopped cfg h w :
  isShuttingDown w = true ->
  exists r, processFiles cfg h w = mkOut r w [] /\ r <> Val None.
Proof.
  intros Hf. unfold processFiles.
  rewrite (bind_pure _ _ _ _ _ (getAllInputFiles_run cfg h w)).
  pose proof (selectNewFiles_run cfg
                (filter (fun entry => isDirectory entry = false) (scanInput h cfg))
                [] h w) as Es.
  destruct (selected _ _ _ _) as [l|].
  2:{ rewrite (bind_throw _ _ _ _ _ _ _ Es). by eexists. }
  rewrite (bind_pure _ _ _ _ _ Es). cbn [app].
  destruct l as [|x l]; [by eexists|].
  destruct (createJobs_from_run (x :: l) 0 h w) as (jobs & Ej & Hmap & _).
  fold (createJobs (x :: l)) in Ej. rewrite (bind_pure _ _ _ _ _ Ej).
  destruct jobs as [|j jobs]; [done|].
  cbn [length processFiles_loop].
  rewrite (proj2 (Z.ltb_lt 0 (Z.of_nat (S (length jobs))))) by lia.
  cbn [negb]. rewrite (bind_pure _ _ _ _ w) by done. rewrite Hf.
  by eexists.
Qed.

(** X20. Once the shutdown flag is raised a cycle starts nothing: it
    fetches no URL, starts no extraction, writes no file and does not
    save the ledger; it emits no event and leaves the world as it is. *)
Theorem cycle_under_shutdown cfg (h : list event) (w : World) :
  isShuttingDown w = true ->
  (exists r, cycleBody cfg h w = mkOut r w [] /\ r <> Val None) /\
  runCycle cfg h w = mkOut (Val (Some tt)) w [].
Proof.
  intros Hf.
  assert (Hc : exists r, cycleBody cfg h w = mkOut r w [] /\ r <> Val None).
  { unfold cycleBody. rewrite (bind_pure _ _ _ _ _ (processUrls_stopped cfg h w Hf)).
    by apply processFiles_stopped. }
  split; [exact Hc|]. destruct Hc as (r & E & Hr).
  unfold runCycle, try_catch, bind. rewrite E.
  destruct r as [[jobs|]|msg]; done.
Qed.

(** X21. The URL side settles after one pass, whatever the fetches
    did: over an input tree that does not change, a pass of
    [processUrls] that has returned is followed by a pass that does
    nothing.  A URL whose fetch or extraction failed is therefore not
    tried again as long as its list is not edited. *)
Theorem processUrls_settles cfg (h : list event) (w : World) :
  stableInput -> isShuttingDown w = false ->
  Forall notUrl (urlFilesOf cfg h) ->
  res (processUrls cfg h w) = Val tt ->
  let o := processUrls cfg h w in
  processUrls cfg (h ++ events o) (world o) = mkOut (Val tt) (world o) [].
Proof.
  intros stable Hf Hn Hres o.
  destruct (processUrls_keeps cfg h stable h w) as [[Hfo _] _]. fold o in Hfo.
  apply (processUrls_idle cfg h stable); [congruence|].
  intros Hfetch. by apply (processUrls_marks cfg h stable h w).
Qed.

End CycleExtras.

(** ** What the ledger records for a job *)

Section RecordedPath.
Context `{Platform}.

Lemma extractDocument_written i o cfg h w r w1 e1 :
  extractDocument i o cfg h w = mkOut (Val r) w1 e1 ->
  if ex_success r
  then exists stdout, fs w1 !! o = Some (File stdout)
  else w1 = w.
Proof.
  pose proof (extractDocument_run i o cfg h w) as E. cbv zeta in E.
  rewrite E. clear E.
  destruct (spawn _ _) as [msg|stdout stderr [|c|c]];
    [| destruct (fs w !! o) as [[c|]|] | |]; intros [= <- <- _];
    cbn [ex_success fs set_fs]; try done;
    exists stdout; by rewrite lookup_insert_eq.
Qed.

Lemma processJob_loop_written cfg out n :
  forall attempt job le (h : list event) w j' w' evs,
    processJob_loop n attempt job le out cfg h w = mkOut (Val (inl j')) w' evs ->
    exists stdout, fs w' !! out = Some (File stdout).
Proof.
  induction n as [|n IH]; intros attempt job le h w j' w' evs;
    cbn [processJob_loop]; [done|].
  destruct (extractDocument (path (job_entry job)) out cfg h w)
    as [[r|msg] w1 e1] eqn:E.
  2:{ by rewrite (bind_throw _ _ _ _ _ _ _ E). }
  rewrite (bind_val _ _ _ _ _ _ _ E).
  pose proof (extractDocument_written _ _ _ _ _ _ _ _ E) as Hw.
  destruct (ex_success r).
  - rewrite (bind_pure _ _ _ _ _ (now_run _ _)). unfold ret. cbn [after].
    by intros [= _ <- _].
  - subst w1. destruct (attempt <? maxRetries cfg).
    + unfold Bun_sleep.
      rewrite (bind_val _ _ _ _ tt w [EvSleep (retryDelay cfg)]) by done.
      rewrite after_after.
      destruct (processJob_loop n _ _ _ out cfg _ w) as [r2 w2 e2] eqn:E2.
      cbn [after]. intros [= -> <- _]. by eapply IH.
    + rewrite (bind_pure _ _ _ _ tt) by done.
      destruct (processJob_loop n _ _ _ out cfg _ w) as [r2 w2 e2] eqn:E2.
      cbn [after]. intros [= -> <- _]. by eapply IH.
Qed.

Lemma processJob_written job cfg (h : list event) w job' w' evs :
  processJob job cfg h w = mkOut (Val job') w' evs ->
  job_status job' = completed ->
  exists stdout,
    fs w' !! outputPathAt cfg (toISOString (Date_now h)) (path (job_entry job))
    = Some (File stdout).
Proof.
  unfold processJob. rewrite (bind_pure _ _ _ _ _ (now_run h w)).
  cbn [job_entry set_status set_startTime].
  set (job0 := set_startTime (Date_now h) (set_status processing job)).
  set (out := outputPathAt cfg (toISOString (Date_now h)) (path (job_entry job))).
  assert (exists w1 e1,
            generateOutputPath (path (job_entry job)) (inputDir cfg)
              (outputDir cfg) cfg h w = mkOut (Val out) w1 e1)
    as (w1 & e1 & G).
  { rewrite generateOutputPath_value. cbv zeta. fold out.
    destruct (_ && _ && _); by eexists _, _. }
  rewrite (bind_val _ _ _ _ _ _ _ G).
  destruct (processJob_loop (Z.to_nat (maxRetries cfg)) 1 job0 "" out cfg
              (h ++ e1) w1) as [[[job1|[job1 le]]|msg] w2 e2] eqn:E2.
  - rewrite (bind_val _ _ _ _ _ _ _ E2). unfold ret. cbn [after].
    intros [= _ <- _] _. by eapply processJob_loop_written.
  - rewrite (bind_val _ _ _ _ _ _ _ E2).
    rewrite (bind_pure _ _ _ _ _ (now_run _ _)).
    match goal with
    | |- context [bind (moveToError ?i ?a ?b ?c) _ ?h' ?w'] =>
        destruct (moveToError i a b c h' w') as [[[]|msg] w3 e3] eqn:E3
    end.
    + rewrite (bind_val _ _ _ _ _ _ _ E3). unfold ret. cbn [after].
      by intros [= <- _ _].
    + by rewrite (bind_throw _ _ _ _ _ _ _ E3).
  - by rewrite (bind_throw _ _ _ _ _ _ _ E2).
Qed.

(** X22. What the ledger records for a job that has completed: the
    fingerprint taken before the job, the retry count of the job, and
    the output path as [generateOutputPath] gives it when the job has
    ended.  The text was written to the path that [generateOutputPath]
    gave when the job started.  The two are the same path when no
    timestamp is added to the name; with a timestamp they are the same
    only as long as the clock shows the same second. *)
Theorem runJob_records cfg job (h : list event) (w : World) job' w' evs :
  let p := path (job_entry job) in
  runJob cfg job h w = mkOut (Val job') w' evs ->
  job_status job' = completed ->
  exists content ev1 ev2 stdout,
    let written := outputPathAt cfg (toISOString (Date_now h)) p in
    let recorded := outputPathAt cfg (toISOString (Date_now (h ++ ev1))) p in
    input_file h p = Some content /\
    evs = ev1 ++ ev2 /\ Forall (fun e => is_mkdir e = true) ev2 /\
    files (state w') !! p
    = Some (mkEntry (md5 content) recorded (toISOString (Date_now (h ++ evs)))
              (job_retries job')) /\
    fs w' !! written = Some (File stdout) /\
    (addTimestamp cfg = false -> recorded = written).
Proof.
  intros p. unfold runJob. fold p.
  pose proof (calculateFileHash_run p h w) as Hh.
  destruct (input_file h p) as [content|] eqn:Hc.
  2:{ by rewrite (bind_throw _ _ _ _ _ _ _ Hh). }
  rewrite (bind_pure _ _ _ _ _ Hh).
  destruct (processJob job cfg h w) as [[job1|msg] w1 ev1] eqn:E1.
  2:{ by rewrite (bind_throw _ _ _ _ _ _ _ E1). }
  rewrite (bind_val _ _ _ _ _ _ _ E1).
  destruct (bool_decide (job_status job1 = completed)) eqn:Hb.
  2:{ rewrite (bind_pure _ _ _ _ tt) by done. unfold ret. cbn [after].
      intros [= <- _ _] Hcomp. apply bool_decide_eq_false in Hb. done. }
  apply bool_decide_eq_true in Hb.
  destruct (processJob_written job cfg h w job1 w1 ev1 E1 Hb) as [stdout Hw].
  fold p in Hw.
  set (written := outputPathAt cfg (toISOString (Date_now h)) p) in *.
  pose proof (generateOutputPath_value p cfg (h ++ ev1) w1) as G. cbv zeta in G.
  set (recorded := outputPathAt cfg (toISOString (Date_now (h ++ ev1))) p) in *.
  assert (Hsame : addTimestamp cfg = false -> recorded = written).
  { intros Ht. unfold recorded, written, outputPathAt. by rewrite Ht. }
  destruct (_ && _ && _) eqn:Hmk.
  - match goal with
    | |- context [bind (bind ?m ?k) _ ?h' ?w'] =>
        assert (Hin : bind m k h' w'
                      = mkOut (Val tt)
                          (set_state
                             (setEntry p
                                (mkEntry (md5 content) recorded
                                   (toISOString
                                      (Date_now ((h ++ ev1)
                                                 ++ [EvMkdirSync (outputSubDir cfg p)])))
                                   (job_retries job1))
                                (state w1))
                             (set_fs (<[outputSubDir cfg p := Dir]> (fs w1)) w1))
                          [EvMkdirSync (outputSubDir cfg p)])
          by (rewrite (bind_val _ _ _ _ _ _ _ G), markFileProcessed_run;
              cbn [after state set_state fs set_fs isShuttingDown];
              by rewrite app_nil_r)
    end.
    rewrite (bind_val _ _ _ _ _ _ _ Hin). unfold ret. cbn [after app].
    intros [= <- <- <-] _.
    exists content, ev1, [EvMkdirSync (outputSubDir cfg p)], stdout.
    split; [done|]. split; [done|]. split; [by repeat constructor|].
    cbn [state set_state setEntry files fs set_fs].
    split; [rewrite lookup_insert_eq; by rewrite <- !app_assoc|].
    split; [|done].
    rewrite lookup_insert_ne; [done|]. intros Heq.
    apply andb_true_iff in Hmk as [_ Hn]. apply negb_true_iff in Hn.
    apply bool_decide_eq_false in Hn. apply Hn. rewrite Heq, Hw. eauto.
  - match goal with
    | |- context [bind (bind ?m ?k) _ ?h' ?w'] =>
        assert (Hin : bind m k h' w'
                      = mkOut (Val tt)
                          (set_state
                             (setEntry p
                                (mkEntry (md5 content) recorded
                                   (toISOString (Date_now (h ++ ev1)))
                                   (job_retries job1))
                                (state w1)) w1) [])
          by (by rewrite (bind_pure _ _ _ _ _ G), markFileProcessed_run)
    end.
    rewrite (bind_val _ _ _ _ _ _ _ Hin). unfold ret. cbn [after app].
    intros [= <- <- <-] _.
    exists content, ev1, [], stdout.
    split; [done|]. split; [by rewrite app_nil_r|]. split; [by constructor|].
    cbn [state set_state setEntry files fs set_fs].
    split; [rewrite lookup_insert_eq; by rewrite !app_nil_r|].
    by split.
Qed.

End RecordedPath.

(** ** The scan of the input tree *)

Section ScanExtras.
Context `{Platform}.

Lemma scanItems_sound h scanSub dir baseDir allItems :
  readdirSync h dir = Some allItems ->
  (forall sub l, scanSub sub = Some l -> Forall (scanned h baseDir) l) ->
  forall items l,
    (forall item, item ∈ items -> item ∈ allItems) ->
    scanItems scanSub dir baseDir items = Some l ->
    Forall (scanned h baseDir) l.
Proof.
  intros Hdir Hsub. induction items as [|item rest IH]; intros l Hin;
    cbn [scanItems]; [by intros [= <-]|].
  assert (Hrest : forall i, i ∈ rest -> i ∈ allItems)
    by (intros i Hi; apply Hin; by right).
  assert (Hitem : item ∈ allItems) by (apply Hin; by left).
  destruct (JS.startsWith (name item) ".") eqn:Hhid; [by apply IH|].
  destruct (dirent_isDirectory item) eqn:Hd.
  - destruct (scanSub (join dir (name item))) as [sub|] eqn:Es; [|done].
    destruct (scanItems scanSub dir baseDir rest) as [entries|]; [|done].
    intros [= <-]. constructor.
    + split; [done|]. split; [done|]. split; [done|].
      by exists dir, allItems, item.
    + apply Forall_app. split; [by eapply Hsub | by apply IH].
  - destruct (isFile item) eqn:Hf; [|by apply IH].
    destruct (scanItems scanSub dir baseDir rest) as [entries|]; [|done].
    intros [= <-].
    destruct (isSupportedFile (join dir (name item))) eqn:Hs; [|by apply IH].
    constructor; [|by apply IH].
    split; [done|]. split; [done|]. split; [done|].
    by exists dir, allItems, item.
Qed.

Lemma scanDirectory_sound h baseDir recursive fuel :
  forall dir l,
    scanDirectory fuel h dir baseDir recursive = Some l ->
    Forall (scanned h baseDir) l.
Proof.
  induction fuel as [|fuel IH]; intros dir l; cbn [scanDirectory]; [done|].
  destruct (readdirSync h dir) as [items|] eqn:Hdir; [|by intros [= <-]].
  apply (scanItems_sound h _ dir baseDir items Hdir); [|done].
  intros sub l'. destruct recursive; [apply IH | by intros [= <-]].
Qed.

(** X23. The scan gives no hidden item and no file of an extension
    that is not supported: every entry is for an item of a directory
    that was listed, with a name that does not start with a dot, and
    with its path relative to the base directory.  The candidates of
    [getAllInputFiles] are the files among them. *)
Theorem scan_entries fuel (h : list event) cfg entries :
  getAllInputFiles_scan fuel h cfg = Some entries ->
  Forall (fun entry =>
            scanned h (inputDir cfg) entry /\
            isDirectory entry = false /\
            isSupportedFile (path entry) = true) entries.
Proof.
  unfold getAllInputFiles_scan.
  destruct (scanDirectory fuel h _ _ _) as [l|] eqn:E; [|done].
  intros [= <-]. apply scanDirectory_sound in E.
  apply Forall_forall. intros entry [Hd Hin]%list_elem_of_filter.
  eapply Forall_forall in E; [|done].
  split; [done|]. split; [done|]. by apply E.
Qed.

Lemma scanItems_total scanSub dir baseDir :
  forall items,
    (forall item, item ∈ items -> dirent_isDirectory item = true ->
                  is_Some (scanSub (join dir (name item)))) ->
    is_Some (scanItems scanSub dir baseDir items).
Proof.
  induction items as [|item rest IH]; intros Hsub; cbn [scanItems]; [done|].
  assert (Hrest : is_Some (scanItems scanSub dir baseDir rest)).
  { apply IH. intros i Hi. apply Hsub. by right. }
  destruct Hrest as [entries Hrest].
  destruct (JS.startsWith (name item) "."); [by rewrite Hrest|].
  destruct (dirent_isDirectory item) eqn:Hd.
  - destruct (Hsub item) as [sub ->]; [by left | done |]. by rewrite Hrest.
  - destruct (isFile item); by rewrite Hrest.
Qed.

Lemma scanItems_ext scanSub scanSub' dir baseDir :
  (forall sub l, scanSub sub = Some l -> scanSub' sub = Some l) ->
  forall items l,
    scanItems scanSub dir baseDir items = Some l ->
    scanItems scanSub' dir baseDir items = Some l.
Proof.
  intros Hsub. induction items as [|item rest IH]; intros l; cbn [scanItems];
    [done|].
  destruct (JS.startsWith (name item) "."); [apply IH|].
  destruct (dirent_isDirectory item).
  - destruct (scanSub (join dir (name item))) as [sub|] eqn:Es; [|done].
    rewrite (Hsub _ _ Es).
    destruct (scanItems scanSub dir baseDir rest) as [entries|]; [|done].
    by rewrite (IH entries eq_refl).
  - destruct (isFile item); [|apply IH].
    destruct (scanItems scanSub dir baseDir rest) as [entries|]; [|done].
    by rewrite (IH entries eq_refl).
Qed.

Lemma scanDirectory_more_fuel h baseDir recursive fuel :
  forall dir l,
    scanDirectory fuel h dir baseDir recursive = Some l ->
    scanDirectory (S fuel) h dir baseDir recursive = Some l.
Proof.
  induction fuel as [|fuel IH]; intros dir l; [done|].
  intros E. cbn [scanDirectory] in E |- *.
  destruct (readdirSync h dir) as [items|]; [|done].
  eapply scanItems_ext; [|exact E].
  intros sub l'. destruct recursive; [apply IH | done].
Qed.

(** X24. The scan comes to its end on every tree of bounded depth:
    with more fuel than the depth below the directory it returns, and
    more fuel does not change what it returns.  Without recursion the
    scan of one directory needs no more than that one listing. *)
Theorem scanDirectory_total (h : list event) (rank : string -> nat)
  baseDir recursive fuel dir :
  depthBound h rank -> (rank dir < fuel)%nat ->
  exists l,
    scanDirectory fuel h dir baseDir recursive = Some l /\
    (forall more, scanDirectory (more + fuel) h dir baseDir recursive = Some l) /\
    is_Some (scanDirectory 1 h dir baseDir false).
Proof.
  intros Hrank. revert dir.
  assert (Htot : forall fuel dir, (rank dir < fuel)%nat ->
            is_Some (scanDirectory fuel h dir baseDir recursive)).
  { clear fuel. induction fuel as [|fuel IH]; intros dir Hlt; [lia|].
    cbn [scanDirectory].
    destruct (readdirSync h dir) as [items|] eqn:Hdir; [|done].
    apply scanItems_total. intros item Hin Hd.
    destruct recursive; [|done]. apply IH.
    specialize (Hrank dir items item Hdir Hin Hd). lia. }
  intros dir Hlt. destruct (Htot fuel dir Hlt) as [l E].
  exists l. split; [done|]. split.
  - intros more. induction more as [|more IH]; [done|].
    by apply scanDirectory_more_fuel.
  - cbn [scanDirectory]. destruct (readdirSync h dir) as [items|]; [|done].
    by apply scanItems_total.
Qed.

End ScanExtras.

(** ** The jobs of a cycle *)

Section JobList.
Context `{Platform}.

Lemma string_app_inv_head (s a b : string) : s +:+ a = s +:+ b -> a = b.
Proof.
  induction s as [|c s IH]; [done|].
  change (String c s +:+ ?x) with (String c (s +:+ x)). intros [= E]. auto.
Qed.

Lemma createJobs_from_ids entries :
  forall i (h : list event) w,
    exists jobs,
      createJobs_from i entries h w = mkOut (Val jobs) w [] /\
      map job_entry jobs = entries /\
      Forall (fun j => job_status j = pending /\ job_retries j = 0 /\
                       job_error j = None /\ startTime j = None /\
                       endTime j = None) jobs /\
      Forall (fun j => exists k, i <= k /\
                job_id j = "job_" +:+ pretty (Date_now h) +:+ "_" +:+ pretty k)
             jobs /\
      NoDup (map job_id jobs).
Proof.
  induction entries as [|entry rest IH]; intros i h w; cbn [createJobs_from].
  - exists []. repeat split; try done; constructor.
  - rewrite (bind_pure _ _ _ _ _ (now_run h w)).
    destruct (IH (i + 1) h w) as (jobs & E & Hmap & Hst & Hid & Hnd).
    rewrite (bind_pure _ _ _ _ _ E). eexists. split; [done|].
    cbn [map job_entry job_id]. split; [by rewrite Hmap|].
    split; [by constructor|]. split.
    + constructor; [exists i; split; [lia | done]|].
      eapply Forall_impl; [exact Hid|]. intros j (k & Hk & Hj).
      exists k. split; [lia | done].
    + constructor; [|done]. intros Hin.
      apply list_elem_of_fmap in Hin as (j & Hj & Hjin).
      eapply Forall_forall in Hid as (k & Hk & Hjk); [|exact Hjin].
      rewrite Hjk in Hj.
      apply (string_app_inv_head "job_") in Hj.
      apply (string_app_inv_head (pretty (Date_now h))) in Hj.
      apply (string_app_inv_head "_") in Hj.
      apply (inj pretty) in Hj. lia.
Qed.

(** X25. [createJobs] makes one job for each entry, in the order of
    the entries; every job is [pending] with no retry, no error and no
    times, and no two jobs of the list have the same id.  Nothing is
    touched. *)
Theorem createJobs_ids entries (h : list event) (w : World) :
  exists jobs,
    createJobs entries h w = mkOut (Val jobs) w [] /\
    map job_entry jobs = entries /\
    Forall (fun j => job_status j = pending /\ job_retries j = 0 /\
                     job_error j = None /\ startTime j = None /\
                     endTime j = None) jobs /\
    NoDup (map job_id jobs).
Proof.
  destruct (createJobs_from_ids entries 0 h w) as (jobs & E & Hm & Hs & _ & Hn).
  by exists jobs.
Qed.

End JobList.

(** ** The timestamp in a name *)

Section Timestamps.
Context `{Platform}.

Lemma digit_plain (c : ascii) :
  is_digit c = true ->
  (Ascii.eqb c "-" || Ascii.eqb c ":")%char = false /\
  Ascii.eqb c "T" = false.
Proof.
  destruct c as [[] [] [] [] [] [] [] []]; by vm_compute.
Qed.

Lemma replace_class_keep cls b c r :
  cls c = false ->
  JS.replace_class cls b (String c r) = String c (JS.replace_class cls b r).
Proof. intros E. change (JS.replace_class cls b (String c r))
  with (if cls c then b +:+ JS.replace_class cls b r
        else String c (JS.replace_class cls b r)). by rewrite E. Qed.

Lemma replace_class_drop cls c r :
  cls c = true ->
  JS.replace_class cls "" (String c r) = JS.replace_class cls "" r.
Proof. intros E. change (JS.replace_class cls "" (String c r))
  with (if cls c then "" +:+ JS.replace_class cls "" r
        else String c (JS.replace_class cls "" r)). by rewrite E. Qed.

Lemma replace_first_keep p b c r :
  Ascii.eqb c p = false ->
  JS.replace_first p b (String c r) = String c (JS.replace_first p b r).
Proof. intros E. change (JS.replace_first p b (String c r))
  with (if Ascii.eqb c p then b +:+ r
        else String c (JS.replace_first p b r)). by rewrite E. Qed.

Lemma replace_first_hit p b r :
  JS.replace_first p b (String p r) = b +:+ r.
Proof. change (JS.replace_first p b (String p r))
  with (if Ascii.eqb p p then b +:+ r
        else String p (JS.replace_first p b r)). by rewrite Ascii.eqb_refl. Qed.

(** The timestamp cut out of a time in the form of [toISOString]. *)
Lemma compactTimestamp_digits y1 y2 y3 y4 m1 m2 d1 d2 h1 h2 n1 n2 e1 e2 rest :
  Forall (fun c => is_digit c = true)
    [y1; y2; y3; y4; m1; m2; d1; d2; h1; h2; n1; n2; e1; e2] ->
  compactTimestamp
    (String y1 (String y2 (String y3 (String y4 (String "-"
    (String m1 (String m2 (String "-" (String d1 (String d2 (String "T"
    (String h1 (String h2 (String ":" (String n1 (String n2 (String ":"
    (String e1 (String e2 rest)))))))))))))))))))
  = String y1 (String y2 (String y3 (String y4
    (String m1 (String m2 (String d1 (String d2 (String "_"
    (String h1 (String h2 (String n1 (String n2
    (String e1 (String e2 "")))))))))))))).
Proof.
  intros Hd. repeat (apply Forall_cons in Hd as [?%digit_plain Hd]).
  repeat match goal with E : _ /\ _ |- _ => destruct E end.
  unfold compactTimestamp.
  rewrite !replace_class_keep by assumption.
  rewrite replace_class_drop by reflexivity.
  rewrite !replace_class_keep by assumption.
  rewrite replace_class_drop by reflexivity.
  rewrite !replace_class_keep by (assumption || reflexivity).
  rewrite replace_class_drop by reflexivity.
  rewrite !replace_class_keep by assumption.
  rewrite replace_class_drop by reflexivity.
  rewrite !replace_class_keep by assumption.
  rewrite !replace_first_keep by assumption.
  rewrite replace_first_hit.
  reflexivity.
Qed.

(** X26. For a time in the form of [toISOString], the timestamp that
    goes into the name of an output file is the date, an underscore and
    the time of day, fifteen characters of which all but the underscore
    are digits: the four digits of the year, the two of the month and of
    the day, then the hours, the minutes and the seconds. *)
Theorem compactTimestamp_format (iso : string) :
  matchesPattern isoPattern iso = true ->
  matchesPattern "dddddddd_dddddd" (compactTimestamp iso) = true /\
  compactTimestamp iso
  = substring 0 4 iso +:+ substring 5 2 iso +:+ substring 8 2 iso +:+ "_"
    +:+ substring 11 2 iso +:+ substring 14 2 iso +:+ substring 17 2 iso /\
  forall h w, generateTimestamp h w
              = mkOut (Val (compactTimestamp (toISOString (Date_now h)))) w [].
Proof.
  intros Hm. split; [|split; [|done]]; revert Hm; unfold isoPattern.
  all: destruct iso as [|y1 [|y2 [|y3 [|y4 [|s1 [|m1 [|m2 [|s2 [|d1 [|d2
         [|t [|h1 [|h2 [|s3 [|n1 [|n2 [|s4 [|e1 [|e2 [|s5 [|f1 [|f2 [|f3
         [|z [|x rest]]]]]]]]]]]]]]]]]]]]]]]]];
       try (intros Hm; cbn [matchesPattern] in Hm;
            rewrite ?andb_false_r in Hm; discriminate Hm).
  all: intros Hm; cbn [matchesPattern] in Hm.
  all: repeat match goal with
         | E : _ && _ = true |- _ => apply andb_true_iff in E as [? ?]
         end.
  all: repeat match goal with
         | E : Ascii.eqb _ _ = true |- _ => apply Ascii.eqb_eq in E; subst
         end.
  all: rewrite compactTimestamp_digits by (repeat constructor; assumption).
  - cbn [matchesPattern]. by repeat match goal with
      | E : is_digit _ = true |- _ => rewrite E; clear E
      end.
  - reflexivity.
Qed.

End Timestamps.

(** ** The further properties on scenarios *)

Section FurtherScenarios.






(** An interval that is not a number. *)
Lemma loadConfig_fallback_valid_witness :
  Number_parseInt "soon" = None /\
  watchInterval (loadConfig Cases.envNoNumber) = 30 /\
  concurrentJobs (loadConfig Cases.envNoNumber) = 4 /\
  maxRetries (loadConfig Cases.envNoNumber) = 3 /\
  validateConfig (loadConfig Cases.envNoNumber) = [].
Proof.
  split; [reflexivity|]. apply (loadConfig_fallback_valid Cases.envNoNumber).
  intros k v Hk Hv.
  repeat (apply elem_of_cons in Hk as [->|Hk]);
    [vm_compute in Hv; injection Hv as <-; reflexivity
    |vm_compute in Hv; discriminate Hv
    |vm_compute in Hv; discriminate Hv
    |by apply elem_of_nil in Hk].
Defined.

(** An interval of 0 seconds and a retry limit of -1. *)
Lemma loadConfig_validation_witness :
  validateConfig (loadConfig Cases.envOutOfRange)
  = ["WATCH_INTERVAL must be at least 1 second";
     "MAX_RETRIES cannot be negative"].
Proof.
  apply (loadConfig_validation Cases.envOutOfRange 0 4 (-1));
    vm_compute; reflexivity.
Defined.

(** The name for a page two levels down. *)
Lemma derivedFilename_safe_witness :
  let P := Cases.withPaths Sim.oneUrlList in
  @URL_parse P "https://a.example/docs/guide.v2/"
  = Some (mkURL "https:" "a.example" "/docs/guide.v2/") /\
  res (urlToFilename (H := P) "https://a.example/docs/guide.v2/" None
         [] Sim.world0)
  = Val "docs_guide_v2.html".
Proof.
  intros P. split; [reflexivity|].
  destruct (derivedFilename_safe (H := P) "https://a.example/docs/guide.v2/"
              (mkURL "https:" "a.example" "/docs/guide.v2/") [] Sim.world0)
    as [Hrun _]; [reflexivity | vm_compute; discriminate
                 | vm_compute; discriminate |].
  rewrite Hrun. reflexivity.
Defined.

(** The service is busy once and works at the second attempt. *)
Lemma processJob_recovers_witness :
  let P := Sim.platform (Sim.oneDocument (Cases.failsFirst 1)) in
  Z.of_nat 1 < maxRetries Sim.config /\
  exists job' w' evs,
    processJob (H := P) (Sim.job "a.pdf" 0) Sim.config [] Sim.world0
    = mkOut (Val job') w' evs /\
    job_status job' = completed /\ job_retries job' = 1 /\
    fs w' !! "/files/output/a.md" = Some (File "extracted text").
Proof.
  intros P. split; [reflexivity|].
  destruct (processJob_recovers (H := P) Sim.config (Sim.job "a.pdf" 0) []
              Sim.world0 1 "extracted text" "")
    as (pre & hasConfig & job' & w' & Hrun & _ & Hst & Hret & _ & _ & _ & Hfs & _).
  - reflexivity.
  - intros h' cmd Hle. change (gatewayCalls h' <= 1)%nat in Hle.
    cbn [spawn P Sim.platform Sim.service Sim.oneDocument].
    unfold Cases.failsFirst.
    rewrite (proj2 (Nat.leb_le _ _) Hle). discriminate.
  - intros h' cmd Heq. change (gatewayCalls h' = 2%nat) in Heq.
    cbn [spawn P Sim.platform Sim.service Sim.oneDocument].
    unfold Cases.failsFirst. rewrite Heq. reflexivity.
  - vm_compute. discriminate.
  - vm_compute. discriminate.
  - exists job', w'. eexists. split; [exact Hrun|].
    split; [exact Hst|]. split; [exact Hret | exact Hfs].
Defined.


(** A cycle that starts after the signal. *)
Lemma cycle_under_shutdown_witness :
  let P := Sim.platform (Sim.oneDocument Sim.alwaysWorks) in
  isShuttingDown Cases.stopping = true /\
  runCycle (H := P) Sim.config [] Cases.stopping
  = mkOut (Val (Some tt)) Cases.stopping [].
Proof.
  intros P. split; [reflexivity|].
  apply (cycle_under_shutdown (H := P) Sim.config [] Cases.stopping).
  reflexivity.
Defined.

(** A list whose only URL cannot be fetched: the second pass does not
    try it again. *)
Lemma processUrls_settles_witness :
  let P := Sim.platform Sim.oneUrlList in
  let o := processUrls (H := P) Sim.config [] Sim.world0 in
  res o = Val tt /\
  processUrls (H := P) Sim.config ([] ++ events o) (world o)
  = mkOut (Val tt) (world o) [].
Proof.
  intros P o.
  assert (Hres : res o = Val tt) by (vm_compute; reflexivity).
  split; [exact Hres|].
  apply (processUrls_settles (H := P) Sim.config [] Sim.world0).
  - by repeat split.
  - reflexivity.
  - vm_compute. repeat constructor.
  - exact Hres.
Defined.

(** The entry of the ledger for a document that is converted. *)
Lemma runJob_records_witness :
  let P := Sim.platform (Sim.oneDocument Sim.alwaysWorks) in
  let o := runJob (H := P) Sim.config (Sim.job "a.pdf" 0) [] Sim.world0 in
  exists job' e stdout,
    res o = Val job' /\ job_status job' = completed /\
    files (state (world o)) !! "/files/input/a.pdf" = Some e /\
    hash e = "md5:PDF bytes" /\ outputPath e = "/files/output/a.md" /\
    fs (world o) !! "/files/output/a.md" = Some (File stdout).
Proof.
  intros P o.
  assert (Hs : exists j, o = mkOut (Val j) (world o) (events o) /\
                         job_status j = completed).
  { vm_compute. eexists. split; reflexivity. }
  destruct Hs as (j & Ho & Hj).
  destruct (runJob_records (H := P) Sim.config (Sim.job "a.pdf" 0) []
              Sim.world0 j (world o) (events o) Ho Hj)
    as (content & ev1 & ev2 & stdout & Hin & _ & _ & Hentry & Hfs & Hsame).
  vm_compute in Hin. injection Hin as <-.
  rewrite (Hsame eq_refl) in Hentry.
  exists j. eexists. exists stdout.
  split; [by rewrite Ho|]. split; [exact Hj|].
  split; [exact Hentry|]. split; [reflexivity|]. split; [reflexivity | exact Hfs].
Defined.

(** The scan of a directory with a hidden file, a document and a file
    of another kind. *)
Lemma scan_entries_witness :
  let P := Sim.platform Cases.mixedTree in
  getAllInputFiles_scan (H := P) 1 [] Sim.config = Some [Sim.fileEntry "a.pdf"] /\
  Forall (fun entry =>
            scanned (H := P) [] (inputDir Sim.config) entry /\
            isDirectory entry = false /\
            isSupportedFile (path entry) = true)
    [Sim.fileEntry "a.pdf"].
Proof.
  intros P.
  assert (Hscan : getAllInputFiles_scan (H := P) 1 [] Sim.config
                  = Some [Sim.fileEntry "a.pdf"]) by (vm_compute; reflexivity).
  split; [exact Hscan|].
  exact (scan_entries (H := P) 1 [] Sim.config [Sim.fileEntry "a.pdf"] Hscan).
Defined.

(** A directory without sub-directories has depth 0. *)
Lemma scanDirectory_total_witness :
  let P := Sim.platform Cases.mixedTree in
  exists l,
    scanDirectory (H := P) 1 [] "/files/input" "/files/input" true = Some l /\
    (forall more,
       scanDirectory (H := P) (more + 1) [] "/files/input" "/files/input" true
       = Some l) /\
    is_Some (scanDirectory (H := P) 1 [] "/files/input" "/files/input" false).
Proof.
  intros P.
  apply (scanDirectory_total (H := P) [] (fun _ => O) "/files/input" true 1
           "/files/input"); [|lia].
  intros dir items item Hdir Hitem Hsub. exfalso.
  injection Hdir as <-.
  repeat (apply elem_of_cons in Hitem as [->|Hitem]); try discriminate Hsub.
  by apply elem_of_nil in Hitem.
Defined.

(** Midnight of the first day of 2026. *)
Lemma compactTimestamp_format_witness :
  matchesPattern isoPattern "2026-01-01T00:00:00.000Z" = true /\
  compactTimestamp "2026-01-01T00:00:00.000Z" = "20260101_000000".
Proof.
  split; [reflexivity|].
  exact (proj1 (proj2 (compactTimestamp_format
                         (H := Sim.platform (Sim.oneDocument Sim.alwaysWorks))
                         "2026-01-01T00:00:00.000Z" eq_refl))).
Defined.

End FurtherScenarios.
